(** * The request-dispatch layer of the Timbal SDK

    A shallow embedding of [lib/api] ([ApiClient], [TimbalApiError]) and of
    [deepMerge] from [lib/utils], with the properties of the dispatcher:
    retry count, linear backoff, failure classification, header
    construction, configuration merge and the copy made by [getConfig].

    Conventions of the embedding.
    - ECMAScript numbers that the code only compares, increments and
      multiplies (retry counter, retry attempts, delays, HTTP status) are
      integers ([Z], [nat] for the counter that starts at 0).
    - Values that travel through the code untyped (JSON bodies, [any]) are
      the trees of [value]; an object is the list of its own properties in
      the order they were added (ECMAScript lists integer keys first; no
      property below depends on the order).  Members inherited from the
      built-in prototypes are not modelled.
    - The configuration a dispatch reads has the type the code casts it
      to, [Required<TimbalConfig>]: two strings and three numbers.  It
      does not change during a dispatch.
    - The transport ([fetch], [Response.json], timers) is the environment:
      an oracle gives the result of each physical attempt, and the calls of
      [fetch] and [sleep] are recorded in an event log.  [Headers] is a map
      from lowercased names to their values, with the checks and the
      normalization of the Fetch standard; the messages of the
      [TypeError]s of the platform are parameters ([Platform]).
    - A conversion to a string ([String], the [Error] constructor, a
      template literal) has a result where it returns and a test that
      tells where it throws its [TypeError] ([String_throws]); the code
      that converts ends with a [Completion] or an [option].
    - [getConfig] is about the identity of objects, so it is modelled on a
      store of objects named by locations ([Store]). *)

From Stdlib Require Import ZArith String Ascii List Bool Lia.
From stdpp Require Import base option list strings pretty gmap fin_maps.

Set Warnings "-register-all".

Local Open Scope string_scope.
Local Open Scope list_scope.
Local Open Scope Z_scope.

(** ** ECMAScript values *)

Inductive value : Type :=
| VUndef
| VNull
| VBool (b : bool)
| VNum (n : Z)
| VStr (s : string)
| VArr (elems : list value)
| VObj (props : list (string * value)).

(** [ToBoolean]: what [v && ...] and [v || ...] test. *)
Definition truthy (v : value) : bool :=
  match v with
  | VUndef | VNull => false
  | VBool b => b
  | VNum n => negb (n =? 0)
  | VStr s => negb (String.eqb s "")
  | VArr _ | VObj _ => true
  end.

(** [typeof v === 'object'] ([null] included, as in ECMAScript). *)
Definition typeof_object (v : value) : bool :=
  match v with
  | VNull | VArr _ | VObj _ => true
  | _ => false
  end.

Definition isArray (v : value) : bool :=
  match v with VArr _ => true | _ => false end.

(** [a || b] *)
Definition js_or (a b : value) : value := if truthy a then a else b.

(** Association lists as property tables. *)
Fixpoint assoc (key : string) (props : list (string * value)) : option value :=
  match props with
  | [] => None
  | (k, v) :: rest => if String.eqb k key then Some v else assoc key rest
  end.

(** [result[key] = v]: an existing property keeps its place, a new one is
    added last. *)
Fixpoint set_prop (props : list (string * value)) (key : string) (v : value)
  : list (string * value) :=
  match props with
  | [] => [(key, v)]
  | (k, x) :: rest =>
      if String.eqb k key then (k, v) :: rest else (k, x) :: set_prop rest key v
  end.

Definition keys (props : list (string * value)) : list string := map fst props.

(** Index keys ["0"], ["1"], ... of an array or of a string. *)
Fixpoint indexed (i : nat) (l : list value) : list (string * value) :=
  match l with
  | [] => []
  | x :: rest => (pretty i, x) :: indexed (S i) rest
  end.

Fixpoint chars (s : string) : list value :=
  match s with
  | EmptyString => []
  | String c rest => VStr (String c EmptyString) :: chars rest
  end.

(** The own enumerable properties, as [{ ...v }] and [Object.keys(v)] see
    them. *)
Definition own_entries (v : value) : list (string * value) :=
  match v with
  | VObj props => props
  | VArr elems => indexed 0 elems
  | VStr s => indexed 0 (chars s)
  | _ => []
  end.

(** [o[key]] for own properties ([length] of arrays and strings included;
    members inherited from the built-in prototypes are not modelled).
    [None] is the [TypeError] of a property read on [null] or
    [undefined]. *)
Definition get_prop (o : value) (key : string) : option value :=
  match o with
  | VUndef | VNull => None
  | VObj props => Some (default VUndef (assoc key props))
  | VArr elems =>
      Some (if String.eqb key "length" then VNum (Z.of_nat (length elems))
            else default VUndef (assoc key (indexed 0 elems)))
  | VStr s =>
      Some (if String.eqb key "length" then VNum (Z.of_nat (String.length s))
            else default VUndef (assoc key (indexed 0 (chars s))))
  | VBool _ | VNum _ => Some VUndef
  end.

(** [o[key]] where the read cannot throw. *)
Definition field (o : value) (key : string) : value :=
  default VUndef (get_prop o key).

(** [sourceValue && typeof sourceValue === 'object' && !Array.isArray(sourceValue)] *)
Definition mergeable (sourceValue : value) : bool :=
  truthy sourceValue && typeof_object sourceValue && negb (isArray sourceValue).

(** ** [deepMerge] (lib/utils)

    The objects are records of data: their keys are names other than
    [__proto__] and the names of the members of [Object.prototype], so
    that [target[key]] reads an own property and [result[key] = v]
    writes one.
    [target] is an object by its type at the entry point and is truthy in
    the recursion ([targetValue || {}]), so [target[key]] never throws.
    [source] is an object by its type at the entry point and by the test
    on [sourceValue] in the recursion; the branches for an array and for a
    string follow [Object.keys], the last one covers the numbers and the
    booleans, which have no keys. *)
Fixpoint deepMerge (target source : value) {struct source} : value :=
  let step (result : list (string * value)) (key : string) (sourceValue : value)
           (merged : value) : list (string * value) :=
    if mergeable sourceValue
    then set_prop result key merged
    else set_prop result key sourceValue in
  let targetValue key := field target key in
  match source with
  | VObj sprops =>
      VObj ((fix forEach (entries result : list (string * value)) :=
               match entries with
               | [] => result
               | (key, sourceValue) :: rest =>
                   forEach rest
                     (step result key sourceValue
                        (deepMerge (js_or (targetValue key) (VObj [])) sourceValue))
               end) sprops (own_entries target))
  | VArr selems =>
      VObj ((fix forEach (i : nat) (elems : list value)
                 (result : list (string * value)) :=
               match elems with
               | [] => result
               | sourceValue :: rest =>
                   forEach (S i) rest
                     (step result (pretty i) sourceValue
                        (deepMerge (js_or (targetValue (pretty i)) (VObj []))
                           sourceValue))
               end) 0%nat selems (own_entries target))
  | VStr s =>
      VObj (fold_left (fun result '(key, sourceValue) =>
                         set_prop result key sourceValue)
              (indexed 0 (chars s)) (own_entries target))
  | _ => VObj (own_entries target)
  end.

(** The [forEach] loop of [deepMerge] over the entries of an object
    [source], from the [result] built so far. *)
Fixpoint merge_entries (target : value) (entries result : list (string * value))
  : list (string * value) :=
  match entries with
  | [] => result
  | (key, sourceValue) :: rest =>
      merge_entries target rest
        (if mergeable sourceValue
         then set_prop result key
                (deepMerge (js_or (field target key) (VObj [])) sourceValue)
         else set_prop result key sourceValue)
  end.

(** [String(v)] where it returns, as the [Error] constructor applies it to
    its message and a template literal to its holes (integers print all
    their digits, as ECMAScript prints those below 10^21).  Where it throws
    is told by [String_throws]. *)
Fixpoint ToString (v : value) : string :=
  match v with
  | VUndef => "undefined"
  | VNull => "null"
  | VBool true => "true"
  | VBool false => "false"
  | VNum n => pretty n
  | VStr s => s
  | VArr elems =>
      (fix join (l : list value) : string :=
         let item x := match x with VUndef | VNull => "" | _ => ToString x end in
         match l with
         | [] => ""
         | [x] => item x
         | x :: rest => item x +:+ "," +:+ join rest
         end) elems
  | VObj _ => "[object Object]"
  end.

(** [String(v)] throws a [TypeError] when [v] has no primitive value.  The
    values of the model are data, none is callable: an object with an own
    property [toString] has no method to convert it ([valueOf], its own or
    the one of [Object.prototype], gives no primitive), and an array is
    converted by [join], which converts its elements. *)
Fixpoint String_throws (v : value) : bool :=
  match v with
  | VObj props => existsb (fun p => String.eqb (fst p) "toString") props
  | VArr elems =>
      (fix any (l : list value) : bool :=
         match l with
         | [] => false
         | x :: rest => String_throws x || any rest
         end) elems
  | _ => false
  end.

(** ** Strings of the request line *)

Definition startsWith_slash (s : string) : bool :=
  match s with
  | String c _ => Ascii.eqb c "/"
  | EmptyString => false
  end.

Fixpoint endsWith_slash (s : string) : bool :=
  match s with
  | EmptyString => false
  | String c EmptyString => Ascii.eqb c "/"
  | String _ rest => endsWith_slash rest
  end.

(** [s.slice(0, -1)] *)
Fixpoint slice_init (s : string) : string :=
  match s with
  | EmptyString => EmptyString
  | String _ EmptyString => EmptyString
  | String c rest => String c (slice_init rest)
  end.

Definition lower_ascii (c : ascii) : ascii :=
  let n := nat_of_ascii c in
  if ((65 <=? n)%nat && (n <=? 90)%nat)%bool then ascii_of_nat (n + 32) else c.

(** Byte-lowercasing of a header name. *)
Fixpoint lower (s : string) : string :=
  match s with
  | EmptyString => EmptyString
  | String c rest => String (lower_ascii c) (lower rest)
  end.

(** Every character of a string satisfies a test. *)
Fixpoint all_chars (P : ascii -> bool) (s : string) : bool :=
  match s with
  | EmptyString => true
  | String c rest => P c && all_chars P rest
  end.

(** ** [Headers] of the Fetch standard

    A header list with case-insensitive names: a finite map from the
    lowercased name to the values appended under it, in order.  A value is
    normalized (HTTP white space is removed at both ends) before it is
    stored; a name that is no token, or a value that holds NUL, CR or LF,
    is refused with a [TypeError]. *)

(** What building a [Headers] object ends with: the object, or the
    refusal of a header. *)
Inductive Built (A : Type) : Type :=
| Accepted (a : A)
| Rejected (name value : string).
Arguments Accepted {A} a.
Arguments Rejected {A} name value.

Module Headers.
Abbreviation t := (gmap string (list string)).

(** HTTP white space: tab, line feed, carriage return, space. *)
Definition http_whitespace (c : ascii) : bool :=
  let n := nat_of_ascii c in
  ((n =? 9) || (n =? 10) || (n =? 13) || (n =? 32))%nat.

Fixpoint strip_start (s : string) : string :=
  match s with
  | EmptyString => EmptyString
  | String c rest => if http_whitespace c then strip_start rest else s
  end.

Fixpoint strip_end (s : string) : string :=
  match s with
  | EmptyString => EmptyString
  | String c rest =>
      match strip_end rest with
      | EmptyString => if http_whitespace c then EmptyString else String c EmptyString
      | kept => String c kept
      end
  end.

Definition normalize (value : string) : string := strip_end (strip_start value).

(** The characters of a token (RFC 9110). *)
Definition token_char (c : ascii) : bool :=
  let n := nat_of_ascii c in
  ((48 <=? n) && (n <=? 57) || (65 <=? n) && (n <=? 90) || (97 <=? n) && (n <=? 122)
   || (n =? 33) || (35 <=? n) && (n <=? 39) || (n =? 42) || (n =? 43) || (n =? 45)
   || (n =? 46) || (n =? 94) || (n =? 95) || (n =? 96) || (n =? 124) || (n =? 126))%nat.

Definition valid_name (name : string) : bool :=
  negb (String.eqb name "") && all_chars token_char name.

Definition value_char (c : ascii) : bool :=
  let n := nat_of_ascii c in
  negb ((n =? 0) || (n =? 10) || (n =? 13))%nat.

(** A normalized value is valid when it holds no NUL, LF or CR. *)
Definition valid_value (value : string) : bool := all_chars value_char value.

(** The check of a header that [append] and [set] make. *)
Definition accepts (name value : string) : bool :=
  valid_name name && valid_value (normalize value).

(** The values of a name, combined. *)
Definition combine (values : list string) : string := String.concat ", " values.

Definition get (h : t) (name : string) : option string := combine <$> h !! lower name.

Definition has (h : t) (name : string) : bool :=
  match get h name with Some _ => true | None => false end.

Definition set (h : t) (name value : string) : Built t :=
  if accepts name value then Accepted (<[lower name := [normalize value]]> h)
  else Rejected name value.

Definition append (h : t) (name value : string) : Built t :=
  if accepts name value
  then Accepted (<[lower name := default [] (h !! lower name) ++ [normalize value]]> h)
  else Rejected name value.

(** [new Headers(init)] for a record, a sequence of pairs or the entries
    of another [Headers] object: the headers are appended in order. *)
Fixpoint fill (init : list (string * string)) (h : t) : Built t :=
  match init with
  | [] => Accepted h
  | (name, value) :: rest =>
      match append h name value with
      | Accepted h => fill rest h
      | Rejected name value => Rejected name value
      end
  end.

Definition new (init : list (string * string)) : Built t := fill init ∅.

(** Sorting by name, in the order of the code units. *)
Fixpoint insert_sorted (p : string * list string) (l : list (string * list string))
  : list (string * list string) :=
  match l with
  | [] => [p]
  | q :: rest =>
      if String.leb (fst p) (fst q) then p :: l else q :: insert_sorted p rest
  end.

Definition sort_names (l : list (string * list string)) : list (string * list string) :=
  foldr insert_sorted [] l.

(** What iteration yields (sort and combine): the names in order, each
    with its combined value, but each value of [set-cookie] on its
    own. *)
Definition entries (h : t) : list (string * string) :=
  flat_map (fun '(name, values) =>
              if String.eqb name "set-cookie" then map (pair name) values
              else [(name, combine values)])
    (sort_names (map_to_list h)).

(** [h.forEach((value, key) => f(value, key))] with the state of the
    callback made explicit. *)
Definition forEach {A} (h : t) (f : string -> string -> A -> A) (acc : A) : A :=
  fold_left (fun acc '(key, value) => f value key acc) (entries h) acc.
End Headers.

(** ** Requests *)

Inductive BodyInit : Type :=
| BodyString (s : string)
| BodyFormData (entries : list (string * string))
| BodyBlob (type : string) (bytes : list Z).

(** The [RequestInit] fields the client uses.  [headers] is [options.headers]:
    a record, a sequence of pairs, or the entries of a [Headers] instance. *)
Record RequestInit : Type := {
  method : option string;
  body : option BodyInit;
  headers : option (list (string * string))
}.

(** [options.body && typeof options.body === 'string'] *)
Definition body_is_present_string (b : option BodyInit) : bool :=
  match b with
  | Some (BodyString s) => negb (String.eqb s "")
  | _ => false
  end.

(** The configuration as the client types it, [Required<TimbalConfig>]:
    every field is there with a value of its type.  ([updateConfig] can
    store a value of another type under a field; a dispatch of such a
    client is outside this record.) *)
Record TimbalConfig : Type := {
  apiKey : string;
  baseUrl : string;
  timeout : Z;
  retryAttempts : Z;
  retryDelay : Z
}.

(** What one call of [fetch] is given; [req_abort_after] is the delay of the
    timer that aborts the attempt. *)
Record Request : Type := {
  req_url : string;
  req_method : option string;
  req_headers : gmap string (list string);
  req_body : option BodyInit;
  req_abort_after : Z
}.

Definition build_url (config : TimbalConfig) (endpoint : string) : string :=
  let base := if endsWith_slash (baseUrl config)
              then slice_init (baseUrl config) else baseUrl config in
  let path := if startsWith_slash endpoint then endpoint else "/" +:+ endpoint in
  base +:+ path.

(** The headers of [makeRequest], built before its [try]: each of the
    three steps can end with the refusal of a header. *)
Definition build_headers (config : TimbalConfig) (options : RequestInit)
  : Built (gmap string (list string)) :=
  let options_headers := headers options in
  match Headers.new [("Authorization", "Bearer " +:+ apiKey config)] with
  | Rejected name value => Rejected name value
  | Accepted headers =>
      let merged :=
        match options_headers with
        | Some init =>
            match Headers.new init with
            | Rejected name value => Rejected name value
            | Accepted optHeaders =>
                Headers.forEach optHeaders
                  (fun value key headers =>
                     match headers with
                     | Accepted headers => Headers.set headers key value
                     | Rejected name value => Rejected name value
                     end)
                  (Accepted headers)
            end
        | None => Accepted headers
        end in
      match merged with
      | Rejected name value => Rejected name value
      | Accepted headers =>
          if (body_is_present_string (body options)
              && negb (Headers.has headers "Content-Type"))%bool
          then Headers.set headers "Content-Type" "application/json"
          else Accepted headers
      end
  end.

(** The headers a request is sent with, when they are accepted. *)
Definition sent_headers (config : TimbalConfig) (options : RequestInit)
  : gmap string (list string) :=
  match build_headers config options with
  | Accepted headers => headers
  | Rejected _ _ => ∅
  end.

(** The checks that decide whether the headers are accepted: on the
    bearer credential and on each header of the caller. *)
Definition headers_accepted (config : TimbalConfig) (options : RequestInit) : bool :=
  Headers.accepts "Authorization" ("Bearer " +:+ apiKey config)
  && match headers options with
     | Some init => forallb (fun '(name, value) => Headers.accepts name value) init
     | None => true
     end.

(** The check on the bearer credential alone, which decides for a call
    without headers of the caller. *)
Definition key_accepted (config : TimbalConfig) : bool :=
  Headers.accepts "Authorization" ("Bearer " +:+ apiKey config).

(** The headers the caller supplied, as the [Headers] object the client
    reads them from (none when [options.headers] is absent). *)
Definition caller_headers (options : RequestInit) : Built (gmap string (list string)) :=
  match headers options with
  | Some init => Headers.new init
  | None => Accepted ∅
  end.

(** The options [postFormData] passes on: a multipart body and no
    headers. *)
Definition postFormData_options (formData : list (string * string)) : RequestInit :=
  {| method := Some "POST"; body := Some (BodyFormData formData); headers := None |}.

(** The request of a dispatch whose headers are accepted. *)
Definition build_request (config : TimbalConfig) (endpoint : string)
    (options : RequestInit) : Request :=
  {| req_url := build_url config endpoint;
     req_method := method options;
     req_headers := sent_headers config options;
     req_body := body options;
     req_abort_after := timeout config |}.


(** ** The transport as the client sees it *)

(** What a [catch] clause can receive from the platform: an [Error]
    instance (with the answer to [instanceof TypeError], its [name] and its
    [message]) or any other thrown value. *)
Inductive Thrown : Type :=
| ErrorObject (isTypeError : bool) (name message : string)
| NonError (v : value).

(** The rejection of [fetch] when the abort signal fires. *)
Definition AbortError (message : string) : Thrown :=
  ErrorObject false "AbortError" message.

(** The rejection of [fetch] on a network failure. *)
Definition NetworkFailure (message : string) : Thrown :=
  ErrorObject true "TypeError" message.

(** The rejection of [Response.json] on a malformed body. *)
Definition SyntaxError (message : string) : Thrown :=
  ErrorObject false "SyntaxError" message.

(** The messages of the [TypeError]s that the platform throws are not
    fixed by a standard: the one of a conversion to a string that finds
    no primitive value, and the one of a refused header. *)
Record Platform : Type := {
  cannot_convert : string;
  invalid_header : string -> string -> string
}.

Definition conversion_error (platform : Platform) : Thrown :=
  ErrorObject true "TypeError" (cannot_convert platform).

Definition header_error (platform : Platform) (name value : string) : Thrown :=
  ErrorObject true "TypeError" (invalid_header platform name value).

(** [`${error}`] where it returns: [Error.prototype.toString] for an
    [Error] instance. *)
Definition Thrown_toString (t : Thrown) : string :=
  match t with
  | ErrorObject _ name message =>
      if String.eqb name "" then message
      else if String.eqb message "" then name
      else name +:+ ": " +:+ message
  | NonError v => ToString v
  end.

(** [`${error}`] throws when the thrown value has no primitive value. *)
Definition Thrown_toString_throws (t : Thrown) : bool :=
  match t with
  | ErrorObject _ _ _ => false
  | NonError v => String_throws v
  end.

Inductive JsonResult : Type :=
| JsonValue (v : value)
| JsonThrows (t : Thrown).

Record Response : Type := {
  status : Z;
  statusText : string;
  json : JsonResult
}.

(** [response.ok]: the status is in the range 200-299 (Fetch standard). *)
Definition ok (response : Response) : bool :=
  ((200 <=? status response) && (status response <=? 299))%bool.

Inductive FetchResult : Type :=
| FetchRejects (t : Thrown)
| FetchResolves (response : Response).

Module ApiResponse.
Record t : Type := { data : value; success : bool; statusCode : Z }.
End ApiResponse.

Module ApiError.
Record t : Type := { message : value; statusCode : Z; code : value; details : value }.
End ApiError.

Module TimbalApiError.
Record t : Type := { message : string; statusCode : Z; code : value; details : value }.

(** The instance that [new TimbalApiError(message, statusCode, code,
    details)] gives when the constructor returns; the [Error] constructor
    converts a message that is not [undefined] to a string and leaves the
    inherited empty message otherwise. *)
Definition new (message : value) (statusCode : Z) (code details : value) : t :=
  {| message := match message with VUndef => "" | _ => ToString message end;
     statusCode := statusCode; code := code; details := details |}.

(** The constructor throws the [TypeError] of that conversion. *)
Definition throws (message : value) : bool :=
  match message with
  | VUndef => false
  | _ => String_throws message
  end.
End TimbalApiError.

(** [ERROR_CODES] comes from the constants module, which is not among the
    sources: the three codes the dispatcher uses are the fields of a
    record, and the dispatcher takes the record as a parameter. *)
Record ErrorCodes : Type := {
  TIMEOUT_ERROR : string;
  NETWORK_ERROR : string;
  SERVER_ERROR : string
}.

(** What a [try] block or an [async] function ends with. *)
Inductive Exn : Type :=
| ExnApi (e : TimbalApiError.t)
| ExnOther (t : Thrown).

Inductive Completion (A : Type) : Type :=
| Return (a : A)
| Throw (e : Exn).
Arguments Return {A} a.
Arguments Throw {A} e.

(** [throw new TimbalApiError(message, statusCode, code, details)]: what
    is thrown is the instance, or the [TypeError] of its constructor. *)
Definition throw_TimbalApiError {A} (platform : Platform) (message : value)
    (statusCode : Z) (code details : value) : Completion A :=
  if TimbalApiError.throws message then Throw (ExnOther (conversion_error platform))
  else Throw (ExnApi (TimbalApiError.new message statusCode code details)).

Inductive Event : Type :=
| EvFetch (request : Request)
| EvSleep (ms : Z).

(** The state of the environment during a dispatch: how many times
    [fetch] was called, and the calls of [fetch] and [sleep] so far. *)
Record World : Type := { fetched : nat; log : list Event }.

Definition World_init : World := {| fetched := 0; log := [] |}.

Definition sleep (ms : Z) (w : World) : World :=
  {| fetched := fetched w; log := log w ++ [EvSleep ms] |}.

(** [parseErrorResponse]: its own [try] catches the failure of
    [response.json()] and the [TypeError] of a property read on [null]. *)
Definition parseErrorResponse (response : Response) : ApiError.t :=
  let fallback :=
    {| ApiError.message := js_or (VStr (statusText response)) (VStr "Unknown error");
       ApiError.statusCode := status response;
       ApiError.code := VUndef;
       ApiError.details := VUndef |} in
  match json response with
  | JsonValue errorData =>
      match get_prop errorData "message", get_prop errorData "error",
            get_prop errorData "code", get_prop errorData "details" with
      | Some message, Some error, Some code, Some details =>
          {| ApiError.message := js_or message (js_or error (VStr "Unknown error"));
             ApiError.statusCode := status response;
             ApiError.code := code;
             ApiError.details := details |}
      | _, _, _, _ => fallback
      end
  | JsonThrows _ => fallback
  end.

(** The message that the [try] block gives to the constructor of the
    error of a response that is not [ok]. *)
Definition error_message (response : Response) : value :=
  js_or (ApiError.message (parseErrorResponse response)) (VStr "Request failed").

(** The [try] block of [makeRequest] after [fetch] has settled. *)
Definition try_block (platform : Platform) (result : FetchResult)
  : Completion ApiResponse.t :=
  match result with
  | FetchRejects t => Throw (ExnOther t)
  | FetchResolves response =>
      if negb (ok response) then
        let errorData := parseErrorResponse response in
        throw_TimbalApiError platform
          (js_or (ApiError.message errorData) (VStr "Request failed"))
          (status response)
          (ApiError.code errorData)
          (ApiError.details errorData)
      else
        match json response with
        | JsonValue data =>
            Return {| ApiResponse.data := data;
                      ApiResponse.success := true;
                      ApiResponse.statusCode := status response |}
        | JsonThrows t => Throw (ExnOther t)
        end
  end.

Section Dispatch.

Variable platform : Platform.
Variable ERROR_CODES : ErrorCodes.

(** [server n] is what the transport answers to the [n]-th call of
    [fetch] (from 0). *)
Variable server : nat -> FetchResult.

Definition fetch (request : Request) (w : World) : FetchResult * World :=
  (server (fetched w),
   {| fetched := S (fetched w); log := log w ++ [EvFetch request] |}).

(** The instance of the last [throw] of the [catch] clause, when its
    template literal returns. *)
Definition unknown_error (error : Thrown) : TimbalApiError.t :=
  TimbalApiError.new (VStr ("Unknown error occurred: " +:+ Thrown_toString error)) 0
    (VStr (SERVER_ERROR ERROR_CODES)) VUndef.

(** The last [throw] of the [catch] clause: the conversion of [error] in
    the template literal can throw in its turn. *)
Definition throw_unknown {A} (error : Thrown) : Completion A :=
  if Thrown_toString_throws error then Throw (ExnOther (conversion_error platform))
  else Throw (ExnApi (unknown_error error)).

(** [makeRequest]; the configuration is the one the client holds during
    the dispatch.  [fuel] bounds the depth of the recursion, [None] is a
    recursion cut short.  The address and the headers are built before
    the [try]: a refused header ends the call with the [TypeError] of
    [Headers], and [fetch] is not called.  The [catch] clause tests, in
    this order, [error instanceof Error && error.name === 'AbortError'],
    [error instanceof TypeError] and [error instanceof TimbalApiError]; a
    [TimbalApiError] is an [Error] named ['TimbalApiError'] and no
    [TypeError], so only the third test holds of it.  The messages of the
    errors that the clause builds itself are strings. *)
Fixpoint makeRequest_fuel (fuel : nat) (config : TimbalConfig) (endpoint : string)
    (options : RequestInit) (retryCount : nat) (w : World)
  : option (Completion ApiResponse.t * World) :=
  match fuel with
  | O => None
  | S fuel =>
      let url := build_url config endpoint in
      match build_headers config options with
      | Rejected name value =>
          Some (Throw (ExnOther (header_error platform name value)), w)
      | Accepted headers =>
          let request :=
            {| req_url := url; req_method := method options; req_headers := headers;
               req_body := body options; req_abort_after := timeout config |} in
          let '(result, w) := fetch request w in
          let retry w :=
            makeRequest_fuel fuel config endpoint options (S retryCount)
              (sleep (retryDelay config * Z.of_nat (retryCount + 1)) w) in
          match try_block platform result with
          | Return response => Some (Return response, w)
          | Throw (ExnOther (ErrorObject isTypeError name message as error)) =>
              if String.eqb name "AbortError" then
                if Z.of_nat retryCount <? retryAttempts config then retry w
                else Some (Throw (ExnApi (TimbalApiError.new (VStr "Request timeout") 0
                                            (VStr (TIMEOUT_ERROR ERROR_CODES)) VUndef)), w)
              else if isTypeError then
                if Z.of_nat retryCount <? retryAttempts config then retry w
                else Some (Throw (ExnApi (TimbalApiError.new
                                            (VStr ("Network error: " +:+ message)) 0
                                            (VStr (NETWORK_ERROR ERROR_CODES)) VUndef)), w)
              else Some (throw_unknown error, w)
          | Throw (ExnApi error) =>
              if ((500 <=? TimbalApiError.statusCode error)
                  && (Z.of_nat retryCount <? retryAttempts config))%bool
              then retry w
              else Some (Throw (ExnApi error), w)
          | Throw (ExnOther (NonError _ as error)) =>
              Some (throw_unknown error, w)
          end
      end
  end.

(** Enough fuel for every retry the configuration allows. *)
Definition makeRequest (config : TimbalConfig) (endpoint : string)
    (options : RequestInit) (retryCount : nat) (w : World)
  : option (Completion ApiResponse.t * World) :=
  makeRequest_fuel (S (Z.to_nat (retryAttempts config - Z.of_nat retryCount)))
    config endpoint options retryCount w.

(** [request], [postFormData], [postFile], [postText] *)
Definition request (config : TimbalConfig) (endpoint : string)
    (options : RequestInit) (w : World) :=
  makeRequest config endpoint options 0 w.

Definition postFormData (config : TimbalConfig) (endpoint : string)
    (formData : list (string * string)) (w : World) :=
  makeRequest config endpoint (postFormData_options formData) 0 w.

Definition postFile (config : TimbalConfig) (endpoint : string)
    (file : BodyInit) (contentType : option string) (w : World) :=
  let headers :=
    match contentType with
    | Some ct => if String.eqb ct "" then [] else [("Content-Type", ct)]
    | None => []
    end in
  makeRequest config endpoint
    {| method := Some "POST"; body := Some file; headers := Some headers |} 0 w.

Definition postText (config : TimbalConfig) (endpoint : string)
    (text : string) (contentType : option string) (w : World) :=
  makeRequest config endpoint
    {| method := Some "POST"; body := Some (BodyString text);
       headers := Some [("Content-Type", default "text/plain" contentType)] |} 0 w.

(** *** The [catch] clause read as a classification *)

(** The thrown values that the [catch] clause answers with a retry while
    retries remain: an [Error] named ['AbortError'] and a [TypeError]. *)
Definition retryable_error (t : Thrown) : bool :=
  match t with
  | ErrorObject isTypeError name _ => String.eqb name "AbortError" || isTypeError
  | NonError _ => false
  end.

(** The attempts that are issued again while retries remain, by what
    the transport answered: a rejection of [fetch], or of the reading of
    the body of a success, by an abort or a [TypeError]; a response that
    is not [ok] with a status of 500 or more, and one whose error cannot
    be built because its message has no primitive value (the [TypeError]
    of the constructor is caught as a network failure). *)
Definition retryable (result : FetchResult) : bool :=
  match result with
  | FetchRejects t => retryable_error t
  | FetchResolves response =>
      if ok response then
        match json response with
        | JsonValue _ => false
        | JsonThrows t => retryable_error t
        end
      else TimbalApiError.throws (error_message response) || (500 <=? status response)
  end.

(** What the dispatch ends with when the attempt is not issued again. *)
Definition settle (result : FetchResult) : Completion ApiResponse.t :=
  match try_block platform result with
  | Return response => Return response
  | Throw (ExnOther (ErrorObject isTypeError name message as error)) =>
      if String.eqb name "AbortError" then
        Throw (ExnApi (TimbalApiError.new (VStr "Request timeout") 0
                         (VStr (TIMEOUT_ERROR ERROR_CODES)) VUndef))
      else if isTypeError then
        Throw (ExnApi (TimbalApiError.new (VStr ("Network error: " +:+ message)) 0
                         (VStr (NETWORK_ERROR ERROR_CODES)) VUndef))
      else throw_unknown error
  | Throw (ExnOther (NonError _ as error)) => throw_unknown error
  | Throw (ExnApi error) => Throw (ExnApi error)
  end.

(** The number of consecutive retryable attempts from the [start]-th call
    of [fetch] on, counted up to [horizon]. *)
Fixpoint leading_retryable (start horizon : nat) : nat :=
  match horizon with
  | O => O
  | S horizon =>
      if retryable (server start) then S (leading_retryable (S start) horizon)
      else O
  end.

End Dispatch.

(** The calls that a dispatch with [retries] retries adds to the log when
    it waits [delay * n] before the attempt that follows the [n]-th. *)
Fixpoint backoff_trace (request : Request) (delay : Z) (retryCount retries : nat)
  : list Event :=
  match retries with
  | O => [EvFetch request]
  | S retries =>
      EvFetch request :: EvSleep (delay * Z.of_nat (retryCount + 1))
        :: backoff_trace request delay (S retryCount) retries
  end.

(** The retries that remain at a given value of the counter. *)
Definition retries_left (config : TimbalConfig) (retryCount : nat) : nat :=
  Z.to_nat (retryAttempts config - Z.of_nat retryCount).

(** The retries the configuration allows (none when the number is
    negative). *)
Definition max_retries (config : TimbalConfig) : nat := Z.to_nat (retryAttempts config).

(** The [TimbalApiError] that the [try] block throws on a response that
    is not [ok]. *)
Definition response_error (response : Response) : TimbalApiError.t :=
  let errorData := parseErrorResponse response in
  TimbalApiError.new (js_or (ApiError.message errorData) (VStr "Request failed"))
    (status response) (ApiError.code errorData) (ApiError.details errorData).

(** The number of attempts between two states of the environment. *)
Definition attempts (before after : World) : nat := (fetched after - fetched before)%nat.

(** ** The configuration held by the client *)

Definition value_of_config (c : TimbalConfig) : value :=
  VObj [("apiKey", VStr (apiKey c)); ("baseUrl", VStr (baseUrl c));
        ("timeout", VNum (timeout c)); ("retryAttempts", VNum (retryAttempts c));
        ("retryDelay", VNum (retryDelay c))].

(** The constructor and [updateConfig] on the value of [this.config]:
    both assign the result of [deepMerge].  [DEFAULT_CONFIG] belongs to
    the constants module and is an argument here. *)
Definition ApiClient_constructor (DEFAULT_CONFIG config : value) : value :=
  deepMerge DEFAULT_CONFIG config.

Definition updateConfig (this_config newConfig : value) : value :=
  deepMerge this_config newConfig.

(** ** Objects by reference: [getConfig]

    [getConfig] returns [{ ...this.config }], a new object.  What the
    caller then does to that object is visible only with objects held in a
    store and named by locations. *)

Module Store.

Inductive hvalue : Type :=
| HUndef
| HNull
| HBool (b : bool)
| HNum (n : Z)
| HStr (s : string)
| HRef (l : nat).

Abbreviation object := (list (string * hvalue)).
Abbreviation store := (gmap nat (list (string * hvalue))).

Record ApiClient : Type := { config : nat }.

Fixpoint prop (key : string) (o : object) : hvalue :=
  match o with
  | [] => HUndef
  | (k, v) :: rest => if String.eqb k key then v else prop key rest
  end.

Fixpoint assign (o : object) (key : string) (v : hvalue) : object :=
  match o with
  | [] => [(key, v)]
  | (k, x) :: rest =>
      if String.eqb k key then (k, v) :: rest else (k, x) :: assign rest key v
  end.

Definition remove (o : object) (key : string) : object :=
  filter (fun p => negb (String.eqb (fst p) key)) o.

(** [{ ...this.config }] *)
Definition getConfig (this : ApiClient) (σ : store) : nat * store :=
  let copy := default [] (σ !! config this) in
  let l := fresh (dom σ) in
  (l, <[l := copy]> σ).

(** What a caller can do to an object it holds: [o[key] = v] and
    [delete o[key]]. *)
Inductive Mutation : Type :=
| Assign (key : string) (v : hvalue)
| Delete (key : string).

Definition mutate_object (m : Mutation) (o : object) : object :=
  match m with
  | Assign key v => assign o key v
  | Delete key => remove o key
  end.

Definition mutate (l : nat) (σ : store) (m : Mutation) : store :=
  alter (mutate_object m) l σ.

(** The configuration as [makeRequest] reads it from [this.config]. *)
Definition read_config (this : ApiClient) (σ : store) : option TimbalConfig :=
  match σ !! config this with
  | Some o =>
      match prop "apiKey" o, prop "baseUrl" o, prop "timeout" o,
            prop "retryAttempts" o, prop "retryDelay" o with
      | HStr k, HStr b, HNum t, HNum a, HNum d =>
          Some {| apiKey := k; baseUrl := b; timeout := t;
                  retryAttempts := a; retryDelay := d |}
      | _, _, _, _, _ => None
      end
  | None => None
  end.

(** [this.request(endpoint, options)] on a client in a store. *)
Definition dispatch (platform : Platform) (ERROR_CODES : ErrorCodes)
    (server : nat -> FetchResult)
    (this : ApiClient) (σ : store) (endpoint : string) (options : RequestInit)
    (w : World) : option (Completion ApiResponse.t * World) :=
  match read_config this σ with
  | Some config => request platform ERROR_CODES server config endpoint options w
  | None => None
  end.

End Store.

(** ** Scenarios

    Concrete configurations and transports on which the properties below
    are run. *)

(** The messages of one platform. *)
Definition sample_platform : Platform :=
  {| cannot_convert := "Cannot convert object to primitive value";
     invalid_header := fun name value => "Invalid header " +:+ name |}.

Definition sample_codes : ErrorCodes :=
  {| TIMEOUT_ERROR := "TIMEOUT_ERROR"; NETWORK_ERROR := "NETWORK_ERROR";
     SERVER_ERROR := "SERVER_ERROR" |}.

Definition sample_config : TimbalConfig :=
  {| apiKey := "test-key"; baseUrl := "https://api.test.com";
     timeout := 30000; retryAttempts := 3; retryDelay := 100 |}.

Definition sample_post : RequestInit :=
  {| method := Some "POST"; body := Some (BodyString "{}"); headers := None |}.

Definition response_200 : Response :=
  {| status := 200; statusText := "OK";
     json := JsonValue (VObj [("data", VArr [VObj [("count", VNum 5)]])]) |}.

(** A 5xx response whose body tells which attempt it answers. *)
Definition response_503 (n : nat) : Response :=
  {| status := 503; statusText := "Service Unavailable";
     json := JsonValue (VObj [("message", VStr ("unavailable, attempt " +:+ pretty n));
                              ("code", VStr "SERVER_ERROR")]) |}.

Definition response_404 : Response :=
  {| status := 404; statusText := "Not Found";
     json := JsonValue (VObj [("error", VStr "no such table");
                              ("code", VStr "NOT_FOUND");
                              ("details", VObj [("table", VStr "users")])]) |}.

Definition response_bad_json : Response :=
  {| status := 200; statusText := "OK";
     json := JsonThrows (SyntaxError "Unexpected token < in JSON") |}.

(** 503 on the first two attempts, then 200. *)
Definition server_recovers (n : nat) : FetchResult :=
  match n with
  | 0%nat | 1%nat => FetchResolves (response_503 n)
  | _ => FetchResolves response_200
  end.

Definition server_down (n : nat) : FetchResult := FetchResolves (response_503 n).

Definition server_silent (n : nat) : FetchResult :=
  FetchRejects (AbortError "The operation was aborted").

Definition server_unreachable (n : nat) : FetchResult :=
  FetchRejects (NetworkFailure ("fetch failed, attempt " +:+ pretty n)).

Definition server_not_found (n : nat) : FetchResult := FetchResolves response_404.

Definition server_bad_json (n : nat) : FetchResult := FetchResolves response_bad_json.

Definition sample_upload : RequestInit :=
  {| method := Some "POST"; body := Some (BodyFormData [("file", "contents")]);
     headers := Some [("X-Trace", "on"); ("AUTHORIZATION", "Basic abc")] |}.

Definition sample_nested_target : list (string * value) :=
  [("apiKey", VStr "test-key"); ("timeout", VNum 30000);
   ("retry", VObj [("attempts", VNum 3); ("delay", VNum 1000)])].

Definition sample_nested_update : list (string * value) :=
  [("timeout", VNum 15000);
   ("retry", VObj [("attempts", VNum 5); ("jitter", VBool true)])].

(** A client whose configuration object sits at location 0. *)
Definition sample_client : Store.ApiClient := {| Store.config := 0%nat |}.

Definition sample_store : gmap nat (list (string * Store.hvalue)) :=
  {[ 0%nat := [("apiKey", Store.HStr "test-key");
               ("baseUrl", Store.HStr "https://api.test.com");
               ("timeout", Store.HNum 30000);
               ("retryAttempts", Store.HNum 3);
               ("retryDelay", Store.HNum 100)] ]}.

Definition sample_mutations : list Store.Mutation :=
  [Store.Assign "timeout" (Store.HNum 1); Store.Delete "apiKey";
   Store.Assign "extra" (Store.HRef 0)].

(** [timeout = 50], one retry. *)
Definition impatient_config : TimbalConfig :=
  {| apiKey := "test-key"; baseUrl := "https://api.test.com/";
     timeout := 50; retryAttempts := 1; retryDelay := 1000 |}.

Definition empty_text : RequestInit :=
  {| method := Some "POST"; body := Some (BodyString ""); headers := None |}.

(** A key with a line feed in it, which no header value may hold. *)
Definition broken_key : string := String "a" (String (ascii_of_nat 10) "b").

Definition broken_key_config : TimbalConfig :=
  {| apiKey := broken_key; baseUrl := "https://api.test.com";
     timeout := 30000; retryAttempts := 3; retryDelay := 100 |}.

(** The body [{"message": {"toString": 1}}]: its [message] is an object
    with an own [toString] key that is no function, so it has no
    primitive value. *)
Definition opaque_body : value := VObj [("message", VObj [("toString", VNum 1)])].

Definition response_400_opaque : Response :=
  {| status := 400; statusText := "Bad Request"; json := JsonValue opaque_body |}.

Definition response_404_opaque : Response :=
  {| status := 404; statusText := "Not Found"; json := JsonValue opaque_body |}.

Definition response_503_opaque : Response :=
  {| status := 503; statusText := "Service Unavailable"; json := JsonValue opaque_body |}.

Definition server_opaque_400 (n : nat) : FetchResult := FetchResolves response_400_opaque.

Definition server_opaque_404 (n : nat) : FetchResult := FetchResolves response_404_opaque.

Definition server_opaque_503 (n : nat) : FetchResult := FetchResolves response_503_opaque.

(** 400 with that body on the first attempt, then 200. *)
Definition server_opaque_then_ok (n : nat) : FetchResult :=
  match n with
  | 0%nat => FetchResolves response_400_opaque
  | _ => FetchResolves response_200
  end.

(** 503 on the first attempt, then a 200 whose body is not JSON. *)
Definition server_down_then_bad_json (n : nat) : FetchResult :=
  match n with
  | 0%nat => FetchResolves (response_503 0)
  | _ => FetchResolves response_bad_json
  end.

(** ** What a dispatch sends and how long it waits *)

(** The requests among the events of a log. *)
Fixpoint requests_of (events : list Event) : list Request :=
  match events with
  | [] => []
  | EvFetch request :: rest => request :: requests_of rest
  | EvSleep _ :: rest => requests_of rest
  end.

(** The sum of the waits among the events of a log. *)
Fixpoint total_wait (events : list Event) : Z :=
  match events with
  | [] => 0
  | EvFetch _ :: rest => total_wait rest
  | EvSleep ms :: rest => ms + total_wait rest
  end.

(** The events a call added to the log. *)
Definition new_events (before after : World) : list Event :=
  drop (length (log before)) (log after).


(** ** [JSON.stringify] and the JSON verbs of the client

    A string of the model is an ECMAScript string whose code units are
    below 256, one character for each code unit. *)

Definition hex_digit (upper : bool) (n : nat) : ascii :=
  if (n <? 10)%nat then ascii_of_nat (48 + n)
  else ascii_of_nat ((if upper then 55 else 87) + n).

(** [QuoteJSONString] on one code unit. *)
Definition json_escape (c : ascii) : string :=
  let n := nat_of_ascii c in
  if (n =? 34)%nat then String "\" (String c "")
  else if (n =? 92)%nat then "\\"
  else if (n =? 8)%nat then "\b"
  else if (n =? 12)%nat then "\f"
  else if (n =? 10)%nat then "\n"
  else if (n =? 13)%nat then "\r"
  else if (n =? 9)%nat then "\t"
  else if (n <? 32)%nat
       then "\u00" +:+ String (hex_digit false (n / 16))
                         (String (hex_digit false (n mod 16)) "")
  else String c "".

Fixpoint json_escape_all (s : string) : string :=
  match s with
  | EmptyString => EmptyString
  | String c rest => json_escape c +:+ json_escape_all rest
  end.

Definition json_quote (s : string) : string :=
  String "034" (json_escape_all s +:+ String "034" "").

(** [JSON.stringify(v)]; [None] is the result [undefined].  In an array
    [undefined] is written [null]; in an object a property that holds
    [undefined] is left out. *)
Fixpoint JSON_stringify (v : value) : option string :=
  match v with
  | VUndef => None
  | VNull => Some "null"
  | VBool true => Some "true"
  | VBool false => Some "false"
  | VNum n => Some (pretty n)
  | VStr s => Some (json_quote s)
  | VArr elems =>
      Some ("[" +:+
            String.concat ","
              ((fix items (l : list value) : list string :=
                  match l with
                  | [] => []
                  | x :: rest => default "null" (JSON_stringify x) :: items rest
                  end) elems)
            +:+ "]")
  | VObj props =>
      Some ("{" +:+
            String.concat ","
              ((fix members (l : list (string * value)) : list string :=
                  match l with
                  | [] => []
                  | (key, x) :: rest =>
                      match JSON_stringify x with
                      | Some s => (json_quote key +:+ ":" +:+ s) :: members rest
                      | None => members rest
                      end
                  end) props)
            +:+ "}")
  end.

(** [data ? JSON.stringify(data) : undefined] as the body of a request. *)
Definition json_body (data : value) : option BodyInit :=
  if truthy data then BodyString <$> JSON_stringify data else None.

(** ** [buildQueryString] (lib/utils) *)

(** The UTF-8 bytes of a code unit below 256. *)
Definition utf8_bytes (c : ascii) : list nat :=
  let n := nat_of_ascii c in
  if (n <? 128)%nat then [n] else [(192 + n / 64)%nat; (128 + n mod 64)%nat].

(** The bytes that [application/x-www-form-urlencoded] leaves as they
    are: the ASCII letters and digits and [* - . _]. *)
Definition form_unreserved (b : nat) : bool :=
  ((48 <=? b) && (b <=? 57) || (65 <=? b) && (b <=? 90) || (97 <=? b) && (b <=? 122)
   || (b =? 42) || (b =? 45) || (b =? 46) || (b =? 95))%nat%bool.

Definition form_encode_byte (b : nat) : string :=
  if (b =? 32)%nat then "+"
  else if form_unreserved b then String (ascii_of_nat b) ""
  else String "%" (String (hex_digit true (b / 16)) (String (hex_digit true (b mod 16)) "")).

Fixpoint form_encode (s : string) : string :=
  match s with
  | EmptyString => EmptyString
  | String c rest =>
      String.concat "" (map form_encode_byte (utf8_bytes c)) +:+ form_encode rest
  end.

(** [URLSearchParams.prototype.toString] on the list of its pairs. *)
Definition URLSearchParams_toString (pairs : list (string * string)) : string :=
  String.concat "&" (map (fun '(name, value) => form_encode name +:+ "=" +:+ form_encode value) pairs).

(** The pairs that the [forEach] of [buildQueryString] appends. *)
Fixpoint query_pairs (params : list (string * value)) : list (string * string) :=
  match params with
  | [] => []
  | (key, value) :: rest =>
      match value with
      | VUndef | VNull => query_pairs rest
      | _ => (key, ToString value) :: query_pairs rest
      end
  end.

(** [buildQueryString] where it returns. *)
Definition buildQueryString (params : list (string * value)) : string :=
  let queryString := URLSearchParams_toString (query_pairs params) in
  if String.eqb queryString "" then "" else "?" +:+ queryString.

(** [value === undefined || value === null] *)
Definition nullish (v : value) : bool :=
  match v with VUndef | VNull => true | _ => false end.

(** [buildQueryString] throws when [String(value)] does, for a value it
    appends. *)
Definition buildQueryString_throws (params : list (string * value)) : bool :=
  existsb (fun p => negb (nullish (snd p)) && String_throws (snd p)) params.

(** The number of occurrences of a character. *)
Fixpoint count_char (c : ascii) (s : string) : nat :=
  match s with
  | EmptyString => 0
  | String x rest => ((if Ascii.eqb x c then 1 else 0) + count_char c rest)%nat
  end.

(** [get], [post], [put], [patch], [delete] of [ApiClient]; absent
    [params] are [None], absent [data] is [VUndef]. *)
Module ApiClient.
Section Verbs.

Variable platform : Platform.
Variable ERROR_CODES : ErrorCodes.
Variable server : nat -> FetchResult.

(** [get] builds the query string before it calls [makeRequest]: the
    [TypeError] of a conversion in [buildQueryString] ends the call. *)
Definition get (config : TimbalConfig) (endpoint : string)
    (params : option (list (string * value))) (w : World) :=
  if match params with Some p => buildQueryString_throws p | None => false end
  then Some (Throw (ExnOther (conversion_error platform)), w)
  else
    let queryString := match params with Some p => buildQueryString p | None => "" end in
    makeRequest platform ERROR_CODES server config (endpoint +:+ queryString)
      {| method := Some "GET"; body := None; headers := None |} 0 w.

Definition post (config : TimbalConfig) (endpoint : string) (data : value) (w : World) :=
  makeRequest platform ERROR_CODES server config endpoint
    {| method := Some "POST"; body := json_body data; headers := None |} 0 w.

Definition put (config : TimbalConfig) (endpoint : string) (data : value) (w : World) :=
  makeRequest platform ERROR_CODES server config endpoint
    {| method := Some "PUT"; body := json_body data; headers := None |} 0 w.

Definition patch (config : TimbalConfig) (endpoint : string) (data : value) (w : World) :=
  makeRequest platform ERROR_CODES server config endpoint
    {| method := Some "PATCH"; body := json_body data; headers := None |} 0 w.

Definition delete (config : TimbalConfig) (endpoint : string) (w : World) :=
  makeRequest platform ERROR_CODES server config endpoint
    {| method := Some "DELETE"; body := None; headers := None |} 0 w.

End Verbs.
End ApiClient.




(** ** [QueryService] (lib/services/query) and [Timbal.testConnection] *)

(** [!v] for an optional string: [undefined] or the empty string. *)
Definition missing (v : option string) : bool :=
  match v with
  | Some s => String.eqb s ""
  | None => true
  end.

(** [new Error(message)] as a thrown value. *)
Definition plain_Error (message : string) : Exn :=
  ExnOther (ErrorObject false "Error" message).

Module QueryService.

(** [QueryOptions]; an absent field is [None].  The state of a service
    is the record of its three defaults. *)
Record QueryOptions : Type := {
  orgId : option string;
  kbId : option string;
  sql : option string
}.

(** [keyof QueryOptions] *)
Inductive Key : Type := KorgId | KkbId | Ksql.

Definition lookup (key : Key) (o : QueryOptions) : option string :=
  match key with
  | KorgId => orgId o
  | KkbId => kbId o
  | Ksql => sql o
  end.

Definition constructor (defaults : QueryOptions) : QueryOptions := defaults.

Definition resolveDefault (this : QueryOptions) (key : Key) (value : option string)
  : option string :=
  match value with
  | Some v => Some v
  | None =>
      match key with
      | KorgId => orgId this
      | KkbId => kbId this
      | Ksql => sql this
      end
  end.

Definition setDefaults (this defaults : QueryOptions) : QueryOptions :=
  {| orgId := match orgId defaults with Some v => Some v | None => orgId this end;
     kbId := match kbId defaults with Some v => Some v | None => kbId this end;
     sql := match sql defaults with Some v => Some v | None => sql this end |}.

Definition getDefaults (this : QueryOptions) : QueryOptions :=
  {| orgId := orgId this; kbId := kbId this; sql := sql this |}.

Section Query.

Variable platform : Platform.
Variable ERROR_CODES : ErrorCodes.
Variable server : nat -> FetchResult.

(** [query]; [config] is the configuration of the client the service
    holds. *)
Definition query (config : TimbalConfig) (this options : QueryOptions) (w : World)
  : option (Completion value * World) :=
  let orgId := resolveDefault this KorgId (orgId options) in
  let kbId := resolveDefault this KkbId (kbId options) in
  let sql := resolveDefault this Ksql (sql options) in
  if missing orgId then
    Some (Throw (plain_Error
                   "orgId is required. Provide it in the method call or set a default."), w)
  else if missing kbId then
    Some (Throw (plain_Error
                   "kbId is required. Provide it in the method call or set a default."), w)
  else if missing sql then
    Some (Throw (plain_Error
                   "sql is required. Provide it in the method call or set a default."), w)
  else
    let path := "orgs/" +:+ default "" orgId +:+ "/kbs/" +:+ default "" kbId +:+ "/query" in
    let payload := VObj [("sql", VStr (default "" sql))] in
    match ApiClient.post platform ERROR_CODES server config path payload w with
    | Some (Return response, w) => Some (Return (ApiResponse.data response), w)
    | Some (Throw error, w) => Some (Throw error, w)
    | None => None
    end.

Definition queryByParams (config : TimbalConfig) (this : QueryOptions)
    (orgId kbId sql : string) (w : World) :=
  query config this {| orgId := Some orgId; kbId := Some kbId; sql := Some sql |} w.

(** [Timbal.testConnection]: whatever the [try] block throws, the
    [catch] clause returns [false]. *)
Definition testConnection (config : TimbalConfig) (this : QueryOptions) (w : World)
  : option (bool * World) :=
  let defaults := getDefaults this in
  if negb (missing (orgId defaults)) && negb (missing (kbId defaults)) then
    match query config this {| orgId := None; kbId := None; sql := Some "SELECT 1" |} w with
    | Some (Return _, w) => Some (true, w)
    | Some (Throw _, w) => Some (false, w)
    | None => None
    end
  else
    match ApiClient.get platform ERROR_CODES server config "/" None w with
    | Some (Return _, w) => Some (true, w)
    | Some (Throw _, w) => Some (false, w)
    | None => None
    end.

End Query.
End QueryService.

(** The index of the last attempt of a dispatch that starts in [w]. *)
Definition last_attempt (server : nat -> FetchResult) (config : TimbalConfig) (w : World)
  : nat :=
  (fetched w + leading_retryable server (fetched w) (max_retries config))%nat.

(** The attempt got a response with a success status and a JSON body. *)
Definition answered (result : FetchResult) : bool :=
  match result with
  | FetchResolves response =>
      ok response && match json response with JsonValue _ => true | JsonThrows _ => false end
  | FetchRejects _ => false
  end.

Definition tenant_defaults : QueryService.QueryOptions :=
  {| QueryService.orgId := Some "10"; QueryService.kbId := Some "48";
     QueryService.sql := None |}.

Definition count_documents : QueryService.QueryOptions :=
  {| QueryService.orgId := None; QueryService.kbId := None;
     QueryService.sql := Some "SELECT COUNT(*) FROM documents" |}.


(** ** Messages (lib/message)

    A message content is the object the code returns, a [value]; the
    input of [from] is any value. *)

(** [x === s] for a string literal [s]. *)
Definition str_is (x : value) (s : string) : bool :=
  match x with
  | VStr t => String.eqb t s
  | _ => false
  end.

(** [typeof v === "object" && v !== null] *)
Definition is_object (v : value) : bool :=
  match v with
  | VArr _ | VObj _ => true
  | _ => false
  end.

(** ["type" in v] for an object [v] *)
Definition has_type (v : value) : bool :=
  match v with
  | VObj props => match assoc "type" props with Some _ => true | None => false end
  | _ => false
  end.

Definition text_content (text : string) : value :=
  VObj [("type", VStr "text"); ("text", VStr text)].

(** The test of the [filter] in the [tool_result] case. *)
Definition in_tool_result (content : value) : bool :=
  str_is (field content "type") "text" || str_is (field content "type") "thinking"
  || str_is (field content "type") "file".

(** [Array.isArray(x) ? x : [x]] *)
Definition as_array (x : value) : list value :=
  match x with
  | VArr elems => elems
  | _ => [x]
  end.

(** [String(x)] as a property of a content: the string, or the
    [TypeError] of the conversion ([None]). *)
Definition converted (x : value) : option value :=
  if String_throws x then None else Some (VStr (ToString x)).

(** [MessageContentFactory.from]; [None] is the [TypeError] of a
    conversion to a string.  The [tool_result] case reads [obj.content]
    by going through the properties to the first one named [content];
    when there is none, [content] is [undefined] and its conversion is
    the text ["undefined"].  The items are converted first, then the
    [id].  [JSON.stringify] of an object is a string. *)
Fixpoint MessageContentFactory_from (v : value) : option value :=
  match v with
  | VStr s => Some (text_content s)
  | VObj props =>
      let obj := v in
      if has_type v && negb (str_is (field v "type") "tool_result") then Some v
      else
        let contentType := field obj "type" in
        if str_is contentType "text" then
          match converted (js_or (field obj "text") (VStr "")) with
          | Some text => Some (VObj [("type", VStr "text"); ("text", text)])
          | None => None
          end
        else if str_is contentType "thinking" then
          match converted (js_or (field obj "thinking") (VStr "")) with
          | Some thinking => Some (VObj [("type", VStr "thinking"); ("thinking", thinking)])
          | None => None
          end
        else if str_is contentType "file" then
          match converted (js_or (field obj "file") (VStr "")) with
          | Some file => Some (VObj [("type", VStr "file"); ("file", file)])
          | None => None
          end
        else if str_is contentType "tool_use" then
          match converted (js_or (field obj "id") (VStr "")),
                converted (js_or (field obj "name") (VStr "")) with
          | Some id, Some name =>
              Some (VObj [("type", VStr "tool_use"); ("id", id); ("name", name);
                          ("input", js_or (field obj "input") (VObj []))])
          | _, _ => None
          end
        else if str_is contentType "tool_result" then
          let processedContent :=
            (fix content_of (l : list (string * value)) : option (list value) :=
               match l with
               | [] => Some [text_content "undefined"]
               | (key, toolResultContent) :: rest =>
                   if String.eqb key "content" then
                     match toolResultContent with
                     | VArr elems =>
                         (fix each (items : list value) : option (list value) :=
                            match items with
                            | [] => Some []
                            | item :: more =>
                                match MessageContentFactory_from item, each more with
                                | Some c, Some cs => Some (c :: cs)
                                | _, _ => None
                                end
                            end) elems
                     | _ =>
                         match MessageContentFactory_from toolResultContent with
                         | Some c => Some [c]
                         | None => None
                         end
                     end
                   else content_of rest
               end) props in
          match processedContent, converted (js_or (field obj "id") (VStr "")) with
          | Some processedContent, Some id =>
              Some (VObj [("type", VStr "tool_result");
                          ("id", id);
                          ("content", VArr (filter (fun c => in_tool_result c = true)
                                              processedContent))])
          | _, _ => None
          end
        else Some (text_content (default "" (JSON_stringify obj)))
  | VArr _ => Some (text_content (default "" (JSON_stringify v)))
  | VUndef | VNull | VBool _ | VNum _ => Some (text_content (ToString v))
  end.

(** [items.map(item => MessageContentFactory.from(item))] *)
Fixpoint from_each (items : list value) : option (list value) :=
  match items with
  | [] => Some []
  | item :: more =>
      match MessageContentFactory_from item, from_each more with
      | Some c, Some cs => Some (c :: cs)
      | _, _ => None
      end
  end.

Module TimbalMessage.

Record t : Type := { role : value; content : list value }.

(** What [from] is given: a [TimbalMessage] or any other value. *)
Inductive input : Type :=
| Instance (message : t)
| Other (v : value).

Definition from (value : input) : option t :=
  match value with
  | Instance message => Some message
  | Other v =>
      if is_object v then
        match from_each (as_array (field v "content")) with
        | Some processedContent =>
            Some {| role := js_or (field v "role") (VStr "user");
                    content := processedContent |}
        | None => None
        end
      else
        match MessageContentFactory_from v with
        | Some c => Some {| role := VStr "user"; content := [c] |}
        | None => None
        end
  end.

(** The separator of [collectText]: two line feeds. *)
Definition separator : string := String "010" (String "010" "").

(** What [Array.prototype.join] writes for an element. *)
Definition join_item (x : value) : string :=
  match x with
  | VUndef | VNull => ""
  | _ => ToString x
  end.

Definition collectText (this : t) : string :=
  String.concat separator
    (map (fun c => join_item (field c "text"))
       (filter (fun c => str_is (field c "type") "text" = true) (content this)))
  +:+ (if existsb (fun c => str_is (field c "type") "text") (content this)
       then separator else "").

End TimbalMessage.

Definition sample_tool_result : value :=
  VObj [("type", VStr "tool_result"); ("id", VStr "call_123");
        ("content",
         VArr [VObj [("type", VStr "thinking"); ("thinking", VStr "Processing...")];
               VStr "Done!";
               VObj [("type", VStr "tool_use"); ("id", VStr "call_9")];
               VObj [("type", VStr "tool_result"); ("id", VStr "inner")];
               VNum 42])].


(** ** Well-formed objects and typed updates of the configuration *)

(** The keys of every object are distinct, at every depth that
    [deepMerge] descends to (it does not descend into arrays). *)
Fixpoint distinct_keys (v : value) : Prop :=
  match v with
  | VObj props =>
      NoDup (keys props) /\
      (fix all (l : list (string * value)) : Prop :=
         match l with
         | [] => True
         | (_, x) :: rest => distinct_keys x /\ all rest
         end) props
  | _ => True
  end.

(** An entry of an update that names a field of [TimbalConfig] and holds
    a value of the type of that field. *)
Definition typed_entry (entry : string * value) : bool :=
  match entry with
  | (key, VStr _) => String.eqb key "apiKey" || String.eqb key "baseUrl"
  | (key, VNum _) =>
      String.eqb key "timeout" || String.eqb key "retryAttempts"
      || String.eqb key "retryDelay"
  | _ => false
  end.

(** The record update that a typed entry stands for. *)
Definition apply_entry (c : TimbalConfig) (entry : string * value) : TimbalConfig :=
  match entry with
  | (key, VStr s) =>
      if String.eqb key "apiKey" then
        {| apiKey := s; baseUrl := baseUrl c; timeout := timeout c;
           retryAttempts := retryAttempts c; retryDelay := retryDelay c |}
      else if String.eqb key "baseUrl" then
        {| apiKey := apiKey c; baseUrl := s; timeout := timeout c;
           retryAttempts := retryAttempts c; retryDelay := retryDelay c |}
      else c
  | (key, VNum n) =>
      if String.eqb key "timeout" then
        {| apiKey := apiKey c; baseUrl := baseUrl c; timeout := n;
           retryAttempts := retryAttempts c; retryDelay := retryDelay c |}
      else if String.eqb key "retryAttempts" then
        {| apiKey := apiKey c; baseUrl := baseUrl c; timeout := timeout c;
           retryAttempts := n; retryDelay := retryDelay c |}
      else if String.eqb key "retryDelay" then
        {| apiKey := apiKey c; baseUrl := baseUrl c; timeout := timeout c;
           retryAttempts := retryAttempts c; retryDelay := n |}
      else c
  | _ => c
  end.


(** ** [sanitizeString] and [isValidEmail] (lib/utils) *)

(** The white space and line terminators of ECMAScript among the code
    units below 256: tab, line feed, vertical tab, form feed, carriage
    return, space and no-break space.  [trim] removes them and [\s]
    matches them. *)
Definition is_white_space (c : ascii) : bool :=
  let n := nat_of_ascii c in
  ((9 <=? n) && (n <=? 13) || (n =? 32) || (n =? 160))%nat.

Fixpoint trimStart (s : string) : string :=
  match s with
  | EmptyString => EmptyString
  | String c rest => if is_white_space c then trimStart rest else s
  end.

Fixpoint trimEnd (s : string) : string :=
  match s with
  | EmptyString => EmptyString
  | String c rest =>
      match trimEnd rest with
      | EmptyString => if is_white_space c then EmptyString else String c EmptyString
      | kept => String c kept
      end
  end.

Definition trim (s : string) : string := trimEnd (trimStart s).

(** [s.replace(/[<>]/g, '')] *)
Fixpoint remove_angle_brackets (s : string) : string :=
  match s with
  | EmptyString => EmptyString
  | String c rest =>
      if Ascii.eqb c "<" || Ascii.eqb c ">" then remove_angle_brackets rest
      else String c (remove_angle_brackets rest)
  end.

Definition sanitizeString (str : string) : string :=
  remove_angle_brackets (trim str).

(** Regular expressions without captures, and [test] on a pattern that
    is anchored at both ends: the string is consumed by derivatives. *)
Inductive regex : Type :=
| Rnone
| Reps
| Rclass (P : ascii -> bool)
| Rseq (r1 r2 : regex)
| Ralt (r1 r2 : regex)
| Rstar (r : regex).

Definition Rplus (r : regex) : regex := Rseq r (Rstar r).

Definition Rchar (c : ascii) : regex := Rclass (Ascii.eqb c).

Fixpoint nullable (r : regex) : bool :=
  match r with
  | Rnone => false
  | Reps => true
  | Rclass _ => false
  | Rseq r1 r2 => nullable r1 && nullable r2
  | Ralt r1 r2 => nullable r1 || nullable r2
  | Rstar _ => true
  end.

Fixpoint derivative (c : ascii) (r : regex) : regex :=
  match r with
  | Rnone => Rnone
  | Reps => Rnone
  | Rclass P => if P c then Reps else Rnone
  | Rseq r1 r2 =>
      if nullable r1
      then Ralt (Rseq (derivative c r1) r2) (derivative c r2)
      else Rseq (derivative c r1) r2
  | Ralt r1 r2 => Ralt (derivative c r1) (derivative c r2)
  | Rstar r => Rseq (derivative c r) (Rstar r)
  end.

Fixpoint regex_test (r : regex) (s : string) : bool :=
  match s with
  | EmptyString => nullable r
  | String c rest => regex_test (derivative c r) rest
  end.

(** The strings a regular expression matches. *)
Inductive lang : regex -> string -> Prop :=
| lang_eps : lang Reps ""
| lang_class P c : P c = true -> lang (Rclass P) (String c "")
| lang_seq r1 r2 s1 s2 : lang r1 s1 -> lang r2 s2 -> lang (Rseq r1 r2) (s1 +:+ s2)
| lang_alt_l r1 r2 s : lang r1 s -> lang (Ralt r1 r2) s
| lang_alt_r r1 r2 s : lang r2 s -> lang (Ralt r1 r2) s
| lang_star_nil r : lang (Rstar r) ""
| lang_star_cons r s1 s2 : lang r s1 -> lang (Rstar r) s2 -> lang (Rstar r) (s1 +:+ s2).

(** [[^\s@]] *)
Definition not_space_or_at (c : ascii) : bool :=
  negb (is_white_space c || Ascii.eqb c "@").

(** [/^[^\s@]+@[^\s@]+\.[^\s@]+$/] *)
Definition emailRegex : regex :=
  Rseq (Rplus (Rclass not_space_or_at))
    (Rseq (Rchar "@")
       (Rseq (Rplus (Rclass not_space_or_at))
          (Rseq (Rchar ".") (Rplus (Rclass not_space_or_at))))).

Definition isValidEmail (email : string) : bool := regex_test emailRegex email.

(** A part of an address: not empty, without white space and without [@]. *)
Definition email_part (s : string) : Prop :=
  s <> "" /\ all_chars not_space_or_at s = true.


(** ** The file name of an upload ([FileService.uploadFile]) *)

(** [s.split('/')] *)
Fixpoint split_slash (s : string) : list string :=
  match s with
  | EmptyString => [EmptyString]
  | String c rest =>
      if Ascii.eqb c "/" then EmptyString :: split_slash rest
      else match split_slash rest with
           | first :: others => String c first :: others
           | [] => [String c EmptyString]
           end
  end.

(** [filePath.split('/').pop() || 'unknown'] *)
Definition fileName (filePath : string) : string :=
  match last (split_slash filePath) with
  | Some name => if String.eqb name "" then "unknown" else name
  | None => "unknown"
  end.


(** ** [AppService] (lib/services/app) *)

Module AppService.

(** The state of the service is its [defaultOrgId]. *)
Definition resolveDefault (defaultOrgId value : option string) : option string :=
  match value with
  | Some v => Some v
  | None => defaultOrgId
  end.

Section Run.

Variable platform : Platform.
Variable ERROR_CODES : ErrorCodes.
Variable server : nat -> FetchResult.

(** [runApp]; the fields of [options] are the arguments, in the order of
    their declaration, an absent optional field being [None]. *)
Definition runApp (config : TimbalConfig) (defaultOrgId : option string)
    (orgId : option string) (appId : string) (version_id : option string)
    (input : value) (group_id parent_id : option string) (w : World)
  : option (Completion value * World) :=
  let orgId := resolveDefault defaultOrgId orgId in
  if missing orgId then
    Some (Throw (plain_Error
                   "orgId is required. Provide it in the method call or set a default."), w)
  else if String.eqb appId "" then
    Some (Throw (plain_Error "appId is required."), w)
  else if negb (truthy input) || Nat.eqb (length (keys (own_entries input))) 0 then
    Some (Throw (plain_Error "input is required."), w)
  else
    let path :=
      "orgs/" +:+ default "" orgId +:+ "/apps/" +:+ appId +:+ "/runs/collect" in
    let payload := [("input", input)] in
    let payload :=
      if missing version_id then payload
      else set_prop payload "version_id" (VStr (default "" version_id)) in
    let payload :=
      if missing group_id then payload
      else set_prop payload "group_id" (VStr (default "" group_id)) in
    let payload :=
      if missing parent_id then payload
      else set_prop payload "parent_id" (VStr (default "" parent_id)) in
    match ApiClient.post platform ERROR_CODES server config path (VObj payload) w with
    | Some (Return response, w) => Some (Return (ApiResponse.data response), w)
    | Some (Throw error, w) => Some (Throw error, w)
    | None => None
    end.

Definition runAppByParams (config : TimbalConfig) (defaultOrgId : option string)
    (orgId appId : string) (input : value) (version_id group_id parent_id : option string)
    (w : World) :=
  runApp config defaultOrgId (Some orgId) appId version_id input group_id parent_id w.

End Run.
End AppService.

(** ** [TableService] (lib/services/table) *)

(** A field of type [string | null] that may be absent. *)
Inductive Nullable : Type :=
| Absent
| Null
| Text (s : string).

Definition value_of_nullable (n : Nullable) : value :=
  match n with
  | Absent => VUndef
  | Null => VNull
  | Text s => VStr s
  end.

(** [Column] (types) *)
Record Column : Type := {
  name : string;
  dataType : string;
  defaultValue : Nullable;
  isNullable : bool;
  isUnique : bool;
  isPrimary : bool;
  comment : Nullable
}.

(** What reading the text of a file ends with. *)
Inductive FileRead : Type :=
| FileText (text : string)
| FileFails (error : Thrown).

Inductive ImportMode : Type := Mappend | Moverwrite.

Definition mode_string (mode : ImportMode) : string :=
  match mode with
  | Mappend => "append"
  | Moverwrite => "overwrite"
  end.

Module TableService.

Record TableOptions : Type := {
  orgId : option string;
  kbId : option string
}.

Inductive Key : Type := KorgId | KkbId.

Definition resolveDefault (this : TableOptions) (key : Key) (value : option string)
  : option string :=
  match value with
  | Some v => Some v
  | None =>
      match key with
      | KorgId => orgId this
      | KkbId => kbId this
      end
  end.

(** The object that [createTable] sends for a column. *)
Definition column_payload (column : Column) : value :=
  VObj [("name", VStr (name column));
        ("data_type", VStr (dataType column));
        ("default_value", value_of_nullable (defaultValue column));
        ("is_nullable", VBool (isNullable column));
        ("is_unique", VBool (isUnique column));
        ("is_primary", VBool (isPrimary column));
        ("comment", value_of_nullable (comment column))].

Section Calls.

Variable platform : Platform.
Variable ERROR_CODES : ErrorCodes.
Variable server : nat -> FetchResult.

(** [Bun.file(path).text()] *)
Variable file_text : string -> FileRead.

Definition createTable (config : TimbalConfig) (this : TableOptions)
    (orgId kbId : option string) (name : string) (columns : list Column)
    (comment : Nullable) (w : World)
  : option (Completion unit * World) :=
  let orgId := resolveDefault this KorgId orgId in
  let kbId := resolveDefault this KkbId kbId in
  if missing orgId then
    Some (Throw (plain_Error
                   "orgId is required. Provide it in the method call or set a default."), w)
  else if missing kbId then
    Some (Throw (plain_Error
                   "kbId is required. Provide it in the method call or set a default."), w)
  else if String.eqb name "" then
    Some (Throw (plain_Error "name is required."), w)
  else if Nat.eqb (length columns) 0 then
    Some (Throw (plain_Error "columns are required and cannot be empty."), w)
  else
    let path :=
      "orgs/" +:+ default "" orgId +:+ "/kbs/" +:+ default "" kbId +:+ "/tables" in
    let payload :=
      VObj [("name", VStr name);
            ("columns", VArr (map column_payload columns));
            ("comment", value_of_nullable comment)] in
    match ApiClient.post platform ERROR_CODES server config path payload w with
    | Some (Return _, w) => Some (Return tt, w)
    | Some (Throw error, w) => Some (Throw error, w)
    | None => None
    end.

Definition createTableByParams (config : TimbalConfig) (this : TableOptions)
    (orgId kbId name : string) (columns : list Column) (comment : Nullable) (w : World) :=
  createTable config this (Some orgId) (Some kbId) name columns comment w.

Definition importCsv (config : TimbalConfig) (this : TableOptions)
    (orgId kbId : option string) (tableName csvPath : string) (mode : option ImportMode)
    (w : World)
  : option (Completion unit * World) :=
  let orgId := resolveDefault this KorgId orgId in
  let kbId := resolveDefault this KkbId kbId in
  let mode := default Moverwrite mode in
  if missing orgId then
    Some (Throw (plain_Error
                   "orgId is required. Provide it in the method call or set a default."), w)
  else if missing kbId then
    Some (Throw (plain_Error
                   "kbId is required. Provide it in the method call or set a default."), w)
  else if String.eqb tableName "" then
    Some (Throw (plain_Error "tableName is required."), w)
  else if String.eqb csvPath "" then
    Some (Throw (plain_Error "csvPath is required."), w)
  else
    let path :=
      "orgs/" +:+ default "" orgId +:+ "/kbs/" +:+ default "" kbId +:+ "/tables/"
      +:+ tableName +:+ "/csv?mode=" +:+ mode_string mode in
    match file_text csvPath with
    | FileFails error => Some (Throw (ExnOther error), w)
    | FileText csvData =>
        match postText platform ERROR_CODES server config path csvData (Some "text/csv") w with
        | Some (Return _, w) => Some (Return tt, w)
        | Some (Throw error, w) => Some (Throw error, w)
        | None => None
        end
    end.

Definition importCsvByParams (config : TimbalConfig) (this : TableOptions)
    (orgId kbId tableName csvPath : string) (mode : option ImportMode) (w : World) :=
  importCsv config this (Some orgId) (Some kbId) tableName csvPath
    (Some (default Moverwrite mode)) w.

End Calls.
End TableService.

(** A column and a file system for the runs. *)
Definition sample_column : Column :=
  {| name := "id"; dataType := "int"; defaultValue := Absent; isNullable := false;
     isUnique := true; isPrimary := true; comment := Null |}.

Definition sample_files (path : string) : FileRead :=
  if String.eqb path "data.csv" then FileText "id,name" else
  FileFails (ErrorObject false "Error" "ENOENT").


(** A configuration that forbids retries. *)
Definition single_shot_config : TimbalConfig :=
  {| apiKey := "test-key"; baseUrl := "https://api.test.com";
     timeout := 30000; retryAttempts := -1; retryDelay := 100 |}.


(** ** Well-formed [Headers] objects *)

(** What a [Headers] object holds under a name: the name is a lowercase
    token, and the values, at least one, are valid and normalized. *)
Definition stored (name : string) (values : list string) : Prop :=
  lower name = name /\ Headers.valid_name name = true /\ values <> [] /\
  Forall (fun v => Headers.valid_value v = true /\ Headers.normalize v = v) values.

Definition Headers_wf (h : gmap string (list string)) : Prop :=
  forall name values, h !! name = Some values -> stored name values.

(** The value that the [forEach] of the client leaves under a name of
    the caller: the last value of [set-cookie], whose values come one by
    one, and the combined values, normalized by [set], of any other
    name. *)
Definition overlay_value (name : string) (values : list string) : string :=
  if String.eqb name "set-cookie" then default "" (last values)
  else Headers.normalize (Headers.combine values).


(** * Properties *)

(** ** Values *)

Lemma js_or_truthy_l a b : truthy a = true -> js_or a b = a.
Proof. unfold js_or. intros ->. reflexivity. Qed.

Lemma js_or_unknown_truthy a b :
  truthy (js_or a (js_or b (VStr "Unknown error"))) = true.
Proof.
  unfold js_or. destruct (truthy a) eqn:Ha; [exact Ha |].
  destruct (truthy b) eqn:Hb; [exact Hb | reflexivity].
Qed.

(** The [Error] constructor on a truthy message. *)
Lemma truthy_message v :
  truthy v = true -> match v with VUndef => "" | _ => ToString v end = ToString v.
Proof. destruct v; [discriminate | reflexivity..]. Qed.

Lemma mergeable_object props : mergeable (VObj props) = true.
Proof. reflexivity. Qed.

Lemma mergeable_not_object v : (forall props, v <> VObj props) -> mergeable v = false.
Proof.
  intros Hv. unfold mergeable.
  destruct v as [| | b | n | s | elems | props]; cbn [typeof_object isArray negb];
    rewrite ?andb_false_r; try reflexivity.
  destruct (Hv props). reflexivity.
Qed.

(** ** [deepMerge] *)

Lemma assoc_set_prop_eq props key v : assoc key (set_prop props key v) = Some v.
Proof.
  induction props as [| [k x] props IH]; cbn.
  - rewrite String.eqb_refl. reflexivity.
  - destruct (String.eqb k key) eqn:Hk; cbn; rewrite Hk; [reflexivity | exact IH].
Qed.

Lemma assoc_set_prop_ne props key key' v :
  key <> key' -> assoc key' (set_prop props key v) = assoc key' props.
Proof.
  intros Hne. induction props as [| [k x] props IH]; cbn.
  - apply String.eqb_neq in Hne. rewrite Hne. reflexivity.
  - destruct (String.eqb_spec k key) as [-> | Hk]; cbn.
    + apply String.eqb_neq in Hne. rewrite Hne. reflexivity.
    + destruct (String.eqb k key'); [reflexivity | exact IH].
Qed.

Lemma assoc_not_key key props : key ∉ keys props -> assoc key props = None.
Proof.
  induction props as [| [k x] props IH]; cbn; [reflexivity |].
  intros Hk. apply not_elem_of_cons in Hk as [Hne Hk].
  destruct (String.eqb_spec k key) as [-> | _]; [congruence | auto].
Qed.

Lemma deepMerge_object target sprops :
  deepMerge target (VObj sprops) =
  VObj (merge_entries target sprops (own_entries target)).
Proof.
  cbn [deepMerge]. f_equal.
  generalize (own_entries target) as result.
  induction sprops as [| [key sourceValue] rest IH]; intros result; [reflexivity |].
  cbn [merge_entries]. rewrite <- IH. reflexivity.
Qed.

(** What the loop leaves under each key, for a source whose keys are
    distinct. *)
Lemma merge_entries_lookup target entries result key :
  NoDup (keys entries) ->
  assoc key (merge_entries target entries result) =
  match assoc key entries with
  | Some sourceValue =>
      Some (if mergeable sourceValue
            then deepMerge (js_or (field target key) (VObj [])) sourceValue
            else sourceValue)
  | None => assoc key result
  end.
Proof.
  revert result. induction entries as [| [k sv] rest IH]; intros result Hnd; cbn.
  - reflexivity.
  - apply NoDup_cons in Hnd as [Hk Hnd]. rewrite IH by exact Hnd.
    destruct (String.eqb_spec k key) as [-> | Hne].
    + rewrite (assoc_not_key key rest) by exact Hk.
      destruct (mergeable sv); apply assoc_set_prop_eq.
    + destruct (assoc key rest); [reflexivity |].
      destruct (mergeable sv); apply assoc_set_prop_ne, Hne.
Qed.

(** C9. [deepMerge], which the constructor and [updateConfig] apply to
    the configuration, on a target object and an update whose keys are
    distinct: under a key whose update value is an object that is not an
    array, the result holds the merge of that value into the target's
    value (into [{}] if the target has none), and when the target's value
    is an object too this merge is key by key; under a key whose update
    value is anything else (a primitive, [null], an array), the result
    holds the update value; under a key the update does not have, the
    result holds what the target holds. *)
Theorem deepMerge_merges (target source : list (string * value)) (key : string) :
  NoDup (keys source) ->
  let result := own_entries (deepMerge (VObj target) (VObj source)) in
  deepMerge (VObj target) (VObj source) = VObj result /\
  updateConfig (VObj target) (VObj source) = VObj result /\
  ApiClient_constructor (VObj target) (VObj source) = VObj result /\
  (forall props,
      assoc key source = Some (VObj props) ->
      assoc key result =
        Some (deepMerge (js_or (field (VObj target) key) (VObj [])) (VObj props))) /\
  (forall props tprops,
      assoc key source = Some (VObj props) ->
      assoc key target = Some (VObj tprops) ->
      NoDup (keys props) ->
      exists merged,
        assoc key result = Some (VObj merged) /\
        forall key',
          (assoc key' props = None -> assoc key' merged = assoc key' tprops) /\
          (forall v, assoc key' props = Some v -> (forall ps, v <> VObj ps) ->
                     assoc key' merged = Some v)) /\
  (forall sourceValue,
      assoc key source = Some sourceValue ->
      (forall props, sourceValue <> VObj props) ->
      assoc key result = Some sourceValue) /\
  (assoc key source = None -> assoc key result = assoc key target).
Proof.
  intros Hnd result.
  assert (result = merge_entries (VObj target) source target) as Hresult.
  { unfold result. rewrite deepMerge_object. reflexivity. }
  assert (deepMerge (VObj target) (VObj source) = VObj result) as Hmerge.
  { rewrite Hresult. apply deepMerge_object. }
  split; [exact Hmerge |]. split; [exact Hmerge |]. split; [exact Hmerge |].
  rewrite Hresult, merge_entries_lookup by exact Hnd.
  repeat split.
  - intros props ->. reflexivity.
  - intros props tprops -> Htarget Hprops. unfold field. cbn [get_prop].
    rewrite Htarget, mergeable_object. cbn [default js_or truthy].
    rewrite deepMerge_object. eexists. split; [reflexivity |].
    intros key'. rewrite merge_entries_lookup by exact Hprops. split.
    + intros ->. reflexivity.
    + intros v -> Hv. rewrite mergeable_not_object by exact Hv. reflexivity.
  - intros sourceValue -> Hv. rewrite mergeable_not_object by exact Hv. reflexivity.
  - intros ->. reflexivity.
Qed.

(** ** Headers *)

Lemma lower_ascii_idemp c : lower_ascii (lower_ascii c) = lower_ascii c.
Proof. destruct c as [[] [] [] [] [] [] [] []]; reflexivity. Qed.

Lemma lower_idemp s : lower (lower s) = lower s.
Proof.
  induction s as [| c s IH]; [reflexivity |].
  cbn [lower]. rewrite lower_ascii_idemp, IH. reflexivity.
Qed.

Lemma Headers_get_lower (h : Headers.t) name :
  Headers.get h (lower name) = Headers.get h name.
Proof. unfold Headers.get. rewrite lower_idemp. reflexivity. Qed.

Lemma lower_Authorization : lower "Authorization" = "authorization".
Proof. reflexivity. Qed.

Lemma lower_Content_Type : lower "Content-Type" = "content-type".
Proof. reflexivity. Qed.

(** *** Normalization and the checks *)

Lemma strip_end_keeps c s :
  Headers.http_whitespace c = false ->
  Headers.strip_end (String c s) = String c (Headers.strip_end s).
Proof.
  intros Hc. cbn [Headers.strip_end]. rewrite Hc.
  destruct (Headers.strip_end s); reflexivity.
Qed.

Lemma strip_end_idemp s : Headers.strip_end (Headers.strip_end s) = Headers.strip_end s.
Proof.
  induction s as [| c s IH]; [reflexivity |].
  cbn [Headers.strip_end]. destruct (Headers.strip_end s) as [| k kept] eqn:Hs.
  - destruct (Headers.http_whitespace c) eqn:Hc; [reflexivity |].
    cbn [Headers.strip_end]. rewrite Hc. reflexivity.
  - change (Headers.strip_end (String c (String k kept)))
      with (match Headers.strip_end (String k kept) with
            | EmptyString =>
                if Headers.http_whitespace c then EmptyString else String c EmptyString
            | kept' => String c kept'
            end).
    rewrite IH. reflexivity.
Qed.

Lemma strip_start_head s :
  Headers.strip_start s = "" \/
  exists c rest, Headers.strip_start s = String c rest /\ Headers.http_whitespace c = false.
Proof.
  induction s as [| c s IH]; [left; reflexivity |].
  cbn [Headers.strip_start]. destruct (Headers.http_whitespace c) eqn:Hc; [exact IH |].
  right. eauto.
Qed.

Lemma normalize_idemp v : Headers.normalize (Headers.normalize v) = Headers.normalize v.
Proof.
  unfold Headers.normalize.
  destruct (strip_start_head v) as [-> | (c & rest & -> & Hc)]; [reflexivity |].
  rewrite (strip_end_keeps c rest Hc). cbn [Headers.strip_start]. rewrite Hc.
  rewrite (strip_end_keeps c _ Hc), strip_end_idemp. reflexivity.
Qed.

Lemma all_chars_strip_start P s :
  all_chars P s = true -> all_chars P (Headers.strip_start s) = true.
Proof.
  induction s as [| c s IH]; [reflexivity |].
  intros H. cbn [Headers.strip_start]. destruct (Headers.http_whitespace c); [| exact H].
  cbn [all_chars] in H. apply andb_prop in H as [_ H]. auto.
Qed.

Lemma all_chars_strip_end P s :
  all_chars P s = true -> all_chars P (Headers.strip_end s) = true.
Proof.
  induction s as [| c s IH]; [reflexivity |].
  cbn [all_chars]. intros H. apply andb_prop in H as [Hc Hs].
  cbn [Headers.strip_end]. specialize (IH Hs).
  destruct (Headers.strip_end s) as [| k kept].
  - destruct (Headers.http_whitespace c); [reflexivity |]. cbn. rewrite Hc. reflexivity.
  - cbn [all_chars] in *. rewrite Hc, IH. reflexivity.
Qed.

Lemma valid_value_normalize v :
  Headers.valid_value v = true -> Headers.valid_value (Headers.normalize v) = true.
Proof.
  unfold Headers.valid_value, Headers.normalize. intros H.
  apply all_chars_strip_end, all_chars_strip_start, H.
Qed.

Lemma all_chars_append P a b :
  all_chars P (a +:+ b) = (all_chars P a && all_chars P b)%bool.
Proof.
  induction a as [| x a IH]; [reflexivity |].
  change (String x a +:+ b) with (String x (a +:+ b)).
  cbn [all_chars]. rewrite IH, andb_assoc. reflexivity.
Qed.

Lemma valid_value_combine values :
  Forall (fun v => Headers.valid_value v = true /\ Headers.normalize v = v) values ->
  Headers.valid_value (Headers.combine values) = true.
Proof.
  unfold Headers.valid_value, Headers.combine.
  induction 1 as [| v values [Hv _] _ IH]; [reflexivity |].
  destruct values as [| v' values]; [exact Hv |].
  change (String.concat ", " (v :: v' :: values))
    with (v +:+ ", " +:+ String.concat ", " (v' :: values)).
  rewrite !all_chars_append, Hv, IH. reflexivity.
Qed.

Lemma token_char_lower c :
  Headers.token_char c = true -> Headers.token_char (lower_ascii c) = true.
Proof.
  destruct c as [[] [] [] [] [] [] [] []]; vm_compute; intros H;
    first [exact H | reflexivity].
Qed.

Lemma valid_name_lower name :
  Headers.valid_name name = true -> Headers.valid_name (lower name) = true.
Proof.
  unfold Headers.valid_name. intros H. apply andb_prop in H as [Hne Hall].
  apply andb_true_intro. split.
  - destruct name; [discriminate Hne | reflexivity].
  - clear Hne. induction name as [| c name IH]; [reflexivity |].
    cbn [all_chars lower] in *. apply andb_prop in Hall as [Hc Hall].
    rewrite (token_char_lower c Hc), IH by exact Hall. reflexivity.
Qed.

Lemma accepts_stored name value others :
  Headers.accepts name value = true ->
  Forall (fun v => Headers.valid_value v = true /\ Headers.normalize v = v) others ->
  stored (lower name) (others ++ [Headers.normalize value]).
Proof.
  unfold Headers.accepts. intros H Hothers. apply andb_prop in H as [Hname Hvalue].
  split; [apply lower_idemp |]. split; [apply valid_name_lower, Hname |].
  split; [destruct others; discriminate |].
  apply Forall_app. split; [exact Hothers |].
  constructor; [| constructor]. split; [exact Hvalue | apply normalize_idemp].
Qed.

(** A stored name and any of the values that the client writes under it
    pass the checks of [set]. *)
Lemma stored_accepts name values value :
  stored name values ->
  Headers.valid_value value = true ->
  Headers.accepts name value = true.
Proof.
  intros (_ & Hname & _) Hvalue. unfold Headers.accepts.
  rewrite Hname, (valid_value_normalize value Hvalue). reflexivity.
Qed.

(** *** [new Headers] *)

Lemma Headers_wf_empty : Headers_wf ∅.
Proof. intros name values H. rewrite lookup_empty in H. discriminate H. Qed.

Lemma Headers_append_wf h name value h' :
  Headers_wf h -> Headers.append h name value = Accepted h' -> Headers_wf h'.
Proof.
  intros Hwf. unfold Headers.append.
  destruct (Headers.accepts name value) eqn:Hacc; [| discriminate].
  intros [= <-] k values. destruct (decide (k = lower name)) as [-> | Hk].
  - rewrite lookup_insert_eq. intros [= <-]. apply accepts_stored; [exact Hacc |].
    destruct (h !! lower name) as [old |] eqn:Hold; [| constructor].
    apply (Hwf _ _ Hold).
  - rewrite lookup_insert_ne by congruence. apply Hwf.
Qed.

Lemma Headers_fill_wf init : forall h h',
  Headers_wf h -> Headers.fill init h = Accepted h' -> Headers_wf h'.
Proof.
  induction init as [| [name value] init IH]; intros h h' Hwf; cbn [Headers.fill].
  - intros [= <-]. exact Hwf.
  - destruct (Headers.append h name value) as [h1 | n v] eqn:Happ; [| discriminate].
    apply IH, (Headers_append_wf h name value h1 Hwf Happ).
Qed.

Lemma Headers_new_wf init h : Headers.new init = Accepted h -> Headers_wf h.
Proof. apply Headers_fill_wf, Headers_wf_empty. Qed.

(** [new Headers] accepts exactly the lists whose headers all pass the
    checks. *)
Lemma Headers_fill_accepted init : forall h,
  forallb (fun '(name, value) => Headers.accepts name value) init = true <->
  exists h', Headers.fill init h = Accepted h'.
Proof.
  induction init as [| [name value] init IH]; intros h; cbn [Headers.fill forallb].
  - split; [eauto | reflexivity].
  - unfold Headers.append. destruct (Headers.accepts name value); cbn [andb].
    + apply IH.
    + split; [discriminate | intros [h' H]; discriminate H].
Qed.

Lemma Headers_fill_rejected init : forall h,
  forallb (fun '(name, value) => Headers.accepts name value) init = false ->
  exists name value, Headers.fill init h = Rejected name value /\
                     (name, value) ∈ init /\ Headers.accepts name value = false.
Proof.
  induction init as [| [name value] init IH]; intros h; cbn [Headers.fill forallb];
    [discriminate |].
  unfold Headers.append. destruct (Headers.accepts name value) eqn:Hacc; cbn [andb].
  - intros H.
    destruct (IH (<[lower name := default [] (h !! lower name)
                                     ++ [Headers.normalize value]]> h) H)
      as (n & v & Hfill & Hin & Hrej).
    exists n, v. split; [exact Hfill |]. split; [right; exact Hin | exact Hrej].
  - intros _. exists name, value. split; [reflexivity |]. split; [left | exact Hacc].
Qed.

Lemma Headers_fill_other init : forall h h' k,
  Headers.fill init h = Accepted h' ->
  k ∉ map (fun p => lower (fst p)) init ->
  h' !! k = h !! k.
Proof.
  induction init as [| [n v] init IH]; intros h h' k Hfill Hk; cbn [Headers.fill] in Hfill.
  - injection Hfill as <-. reflexivity.
  - unfold Headers.append in Hfill.
    destruct (Headers.accepts n v); [| discriminate Hfill].
    cbn [map fst] in Hk. apply not_elem_of_cons in Hk as [Hne Hk].
    rewrite (IH _ _ _ Hfill Hk). apply lookup_insert_ne. congruence.
Qed.

(** A name that the list gives once holds the value the list gives,
    normalized. *)
Lemma Headers_fill_lookup init : forall h h' name value,
  Headers.fill init h = Accepted h' ->
  NoDup (map (fun p => lower (fst p)) init) ->
  (name, value) ∈ init ->
  h !! lower name = None ->
  h' !! lower name = Some [Headers.normalize value].
Proof.
  induction init as [| [n v] init IH]; intros h h' name value Hfill Hnd Hin Hfresh;
    [inversion Hin |].
  cbn [Headers.fill] in Hfill. cbn [map fst] in Hnd. apply NoDup_cons in Hnd as [Hn Hnd].
  unfold Headers.append in Hfill.
  destruct (Headers.accepts n v) eqn:Hacc; [| discriminate Hfill].
  apply elem_of_cons in Hin as [[= -> ->] | Hin].
  - rewrite (Headers_fill_other _ _ _ _ Hfill Hn), lookup_insert_eq, Hfresh. reflexivity.
  - apply (IH _ _ _ _ Hfill Hnd Hin).
    rewrite lookup_insert_ne; [exact Hfresh |].
    intros Heq. apply Hn. rewrite Heq.
    apply (list_elem_of_fmap_2 (fun p => lower (fst p)) _ (name, value)). exact Hin.
Qed.

(** *** Iteration and the overlay of the caller's headers *)

Lemma insert_sorted_Permutation p l : Headers.insert_sorted p l ≡ₚ p :: l.
Proof.
  induction l as [| q l IH]; [reflexivity |].
  cbn [Headers.insert_sorted]. destruct (String.leb (fst p) (fst q)); [reflexivity |].
  rewrite IH. apply Permutation_swap.
Qed.

Lemma sort_names_Permutation l : Headers.sort_names l ≡ₚ l.
Proof.
  induction l as [| p l IH]; [reflexivity |].
  cbn [Headers.sort_names foldr]. rewrite insert_sorted_Permutation.
  constructor. exact IH.
Qed.

Lemma combine_single v : Headers.combine [v] = v.
Proof. reflexivity. Qed.

(** The callback of the client, [headers.set(key, value)], on the
    headers built so far. *)
Lemma set_stored (h : gmap string (list string)) name values value :
  stored name values ->
  Headers.valid_value value = true ->
  Headers.set h name value = Accepted (<[name := [Headers.normalize value]]> h).
Proof.
  intros Hstored Hvalue. unfold Headers.set.
  rewrite (stored_accepts name values value Hstored Hvalue).
  destruct Hstored as (-> & _). reflexivity.
Qed.

Lemma set_cookie_fold name all values : forall (h : gmap string (list string)),
  stored name all ->
  values <> [] ->
  Forall (fun v => Headers.valid_value v = true /\ Headers.normalize v = v) values ->
  fold_left (fun acc '(key, value) =>
               match acc with
               | Accepted headers => Headers.set headers key value
               | Rejected n v => Rejected n v
               end)
    (map (pair name) values) (Accepted h)
  = Accepted (<[name := [default "" (last values)]]> h).
Proof.
  intros h Hstored Hne Hall. revert h.
  induction Hall as [| v values [Hv Hnorm] Hall IH]; intros h; [contradiction |].
  cbn [map fold_left]. rewrite (set_stored h name all v Hstored Hv), Hnorm.
  destruct values as [| v' values]; [reflexivity |].
  rewrite IH by discriminate. rewrite insert_insert_eq. reflexivity.
Qed.

Lemma overlay_fold l : forall h : gmap string (list string),
  NoDup (map fst l) ->
  Forall (fun p => stored (fst p) (snd p)) l ->
  exists res,
    fold_left (fun acc '(key, value) =>
                 match acc with
                 | Accepted headers => Headers.set headers key value
                 | Rejected n v => Rejected n v
                 end)
      (flat_map (fun '(name, values) =>
                   if String.eqb name "set-cookie" then map (pair name) values
                   else [(name, Headers.combine values)]) l)
      (Accepted h) = Accepted res /\
    forall k,
      res !! k = match (list_to_map l : gmap string (list string)) !! k with
                 | Some values => Some [overlay_value k values]
                 | None => h !! k
                 end.
Proof.
  induction l as [| [name values] l IH]; intros h Hnd Hall.
  - exists h. split; [reflexivity |]. intros k. cbn. rewrite lookup_empty. reflexivity.
  - cbn [map fst] in Hnd. apply NoDup_cons in Hnd as [Hname Hnd].
    apply Forall_cons in Hall as [Hstored Hall]. cbn [fst snd] in Hstored.
    cbn [flat_map]. rewrite fold_left_app.
    assert (fold_left (fun acc '(key, value) =>
                         match acc with
                         | Accepted headers => Headers.set headers key value
                         | Rejected n v => Rejected n v
                         end)
              (if String.eqb name "set-cookie" then map (pair name) values
               else [(name, Headers.combine values)]) (Accepted h)
            = Accepted (<[name := [overlay_value name values]]> h)) as ->.
    { unfold overlay_value. destruct Hstored as (Hlow & Hvalid & Hne & Hvalues).
      destruct (String.eqb name "set-cookie").
      - apply (set_cookie_fold name values); [repeat split; assumption | exact Hne | exact Hvalues].
      - cbn [fold_left]. apply (set_stored h name values); [repeat split; assumption |].
        apply valid_value_combine, Hvalues. }
    destruct (IH (<[name := [overlay_value name values]]> h) Hnd Hall) as (res & Hres & Hlook).
    exists res. split; [exact Hres |]. intros k. rewrite Hlook.
    change (list_to_map ((name, values) :: l) : gmap string (list string))
      with (<[name := values]> (list_to_map l : gmap string (list string))).
    destruct (decide (k = name)) as [-> | Hk].
    + rewrite lookup_insert_eq.
      rewrite (not_elem_of_list_to_map_1 (M := gmap string)) by exact Hname.
      rewrite lookup_insert_eq. reflexivity.
    + rewrite !lookup_insert_ne by congruence. reflexivity.
Qed.

(** The [forEach] of the client never refuses a header of a [Headers]
    object, and leaves under each name of the caller the value of the
    overlay. *)
Lemma Headers_forEach_set (opt h : gmap string (list string)) :
  Headers_wf opt ->
  exists res,
    Headers.forEach opt
      (fun value key headers =>
         match headers with
         | Accepted headers => Headers.set headers key value
         | Rejected name value => Rejected name value
         end) (Accepted h) = Accepted res /\
    forall k,
      res !! k = match opt !! k with
                 | Some values => Some [overlay_value k values]
                 | None => h !! k
                 end.
Proof.
  intros Hwf. unfold Headers.forEach, Headers.entries.
  pose proof (sort_names_Permutation (map_to_list opt)) as Hperm.
  assert (NoDup (map fst (Headers.sort_names (map_to_list opt)))) as Hnd.
  { rewrite Hperm. apply NoDup_fst_map_to_list. }
  assert (Forall (fun p => stored (fst p) (snd p)) (Headers.sort_names (map_to_list opt)))
    as Hall.
  { apply Forall_forall. intros [name values] Hin. rewrite Hperm in Hin.
    apply elem_of_map_to_list in Hin. apply (Hwf _ _ Hin). }
  destruct (overlay_fold _ h Hnd Hall) as (res & Hres & Hlook).
  exists res. split; [exact Hres |]. intros k. rewrite Hlook.
  rewrite (list_to_map_proper (M := gmap string) _ _ Hnd Hperm), list_to_map_to_list.
  reflexivity.
Qed.

(** *** The headers of a request *)

Lemma Headers_new_single name value :
  Headers.new [(name, value)] =
  if Headers.accepts name value
  then Accepted {[ lower name := [Headers.normalize value] ]}
  else Rejected name value.
Proof.
  unfold Headers.new. cbn [Headers.fill]. unfold Headers.append.
  rewrite lookup_empty. destruct (Headers.accepts name value); reflexivity.
Qed.

Lemma set_content_type_json (h : gmap string (list string)) :
  Headers.set h "Content-Type" "application/json" =
  Accepted (<["content-type" := ["application/json"]]> h).
Proof. reflexivity. Qed.

(** The headers as [makeRequest] builds them, name by name: the value of
    the overlay for a name of the caller; else the JSON default for
    [content-type] when the body is a string that is not empty, and the
    bearer credential for [authorization]. *)
Lemma build_headers_lookup config options sent :
  build_headers config options = Accepted sent ->
  exists caller,
    caller_headers options = Accepted caller /\
    Headers_wf caller /\
    forall k,
      sent !! k =
      match caller !! k with
      | Some values => Some [overlay_value k values]
      | None =>
          if (String.eqb k "content-type" && body_is_present_string (body options))%bool
          then Some ["application/json"]
          else if String.eqb k "authorization"
               then Some [Headers.normalize ("Bearer " +:+ apiKey config)]
               else None
      end.
Proof.
  unfold build_headers. rewrite Headers_new_single, lower_Authorization.
  destruct (Headers.accepts "Authorization" ("Bearer " +:+ apiKey config));
    [| discriminate].
  set (auth := {[ "authorization" := [Headers.normalize ("Bearer " +:+ apiKey config)] ]}
               : gmap string (list string)).
  assert (forall j, auth !! j =
                    if String.eqb j "authorization"
                    then Some [Headers.normalize ("Bearer " +:+ apiKey config)]
                    else None) as Hauth.
  { intros j. unfold auth. destruct (String.eqb_spec j "authorization") as [-> | Hj].
    - apply lookup_singleton_eq.
    - apply lookup_singleton_ne. congruence. }
  assert (forall (caller merged : gmap string (list string)),
             (forall j, merged !! j = match caller !! j with
                                      | Some values => Some [overlay_value j values]
                                      | None => auth !! j
                                      end) ->
             (if (body_is_present_string (body options)
                  && negb (Headers.has merged "Content-Type"))%bool
              then Headers.set merged "Content-Type" "application/json"
              else Accepted merged) = Accepted sent ->
             forall k,
               sent !! k =
               match caller !! k with
               | Some values => Some [overlay_value k values]
               | None =>
                   if (String.eqb k "content-type"
                       && body_is_present_string (body options))%bool
                   then Some ["application/json"]
                   else if String.eqb k "authorization"
                        then Some [Headers.normalize ("Bearer " +:+ apiKey config)]
                        else None
               end) as Hfinal.
  { intros caller merged Hmerged Hsent k.
    unfold Headers.has, Headers.get in Hsent. rewrite lower_Content_Type in Hsent.
    rewrite (Hmerged "content-type"), Hauth in Hsent.
    change (String.eqb "content-type" "authorization") with false in Hsent.
    destruct (body_is_present_string (body options)) eqn:Hbody; cbn [andb] in Hsent.
    - destruct (caller !! "content-type") as [ct |] eqn:Hct; cbn [fmap option_fmap option_map negb] in Hsent.
      + injection Hsent as <-. rewrite Hmerged, Hauth, andb_true_r.
        destruct (caller !! k) eqn:Hk; [reflexivity |].
        destruct (String.eqb_spec k "content-type") as [-> | _]; [congruence | reflexivity].
      + rewrite set_content_type_json in Hsent. injection Hsent as <-.
        rewrite andb_true_r.
        destruct (String.eqb_spec k "content-type") as [-> | Hk].
        * rewrite lookup_insert_eq, Hct. reflexivity.
        * rewrite lookup_insert_ne by congruence. rewrite Hmerged, Hauth. reflexivity.
    - injection Hsent as <-. rewrite Hmerged, Hauth, andb_false_r. reflexivity. }
  unfold caller_headers. destruct (headers options) as [init |].
  - destruct (Headers.new init) as [optHeaders | n v] eqn:Hnew; [| discriminate].
    pose proof (Headers_new_wf init optHeaders Hnew) as Hwf.
    destruct (Headers_forEach_set optHeaders auth Hwf) as (merged & -> & Hmerged).
    intros Hsent. exists optHeaders. split; [reflexivity |]. split; [exact Hwf |].
    apply (Hfinal optHeaders merged Hmerged Hsent).
  - intros Hsent. exists ∅. split; [reflexivity |]. split; [apply Headers_wf_empty |].
    apply (Hfinal ∅ auth); [| exact Hsent].
    intros j. rewrite lookup_empty. reflexivity.
Qed.

(** The headers are accepted exactly when the bearer credential and the
    headers of the caller pass the checks: neither the overlay nor the
    JSON default is ever refused. *)
Lemma build_headers_accepted config options :
  headers_accepted config options = true ->
  exists sent, build_headers config options = Accepted sent.
Proof.
  unfold headers_accepted, build_headers. rewrite Headers_new_single.
  intros H. apply andb_prop in H as [-> Hinit].
  assert (forall merged : gmap string (list string),
             exists sent,
               (if (body_is_present_string (body options)
                    && negb (Headers.has merged "Content-Type"))%bool
                then Headers.set merged "Content-Type" "application/json"
                else Accepted merged) = Accepted sent) as Hfinal.
  { intros merged. destruct (_ && _)%bool; [rewrite set_content_type_json |]; eauto. }
  destruct (headers options) as [init |]; [| apply Hfinal].
  apply (Headers_fill_accepted init ∅) in Hinit as [optHeaders Hnew].
  unfold Headers.new. rewrite Hnew.
  destruct (Headers_forEach_set optHeaders
              {[ lower "Authorization" := [Headers.normalize ("Bearer " +:+ apiKey config)] ]}
              (Headers_new_wf init optHeaders Hnew)) as (merged & -> & _).
  apply Hfinal.
Qed.

Lemma build_headers_rejected config options :
  headers_accepted config options = false ->
  exists name value,
    build_headers config options = Rejected name value /\
    Headers.accepts name value = false /\
    ((name, value) = ("Authorization", "Bearer " +:+ apiKey config) \/
     exists init, headers options = Some init /\ (name, value) ∈ init).
Proof.
  unfold headers_accepted, build_headers. rewrite Headers_new_single.
  destruct (Headers.accepts "Authorization" ("Bearer " +:+ apiKey config)) eqn:Hauth;
    cbn [andb].
  - destruct (headers options) as [init |]; [| discriminate].
    intros Hinit. destruct (Headers_fill_rejected init ∅ Hinit) as (n & v & Hfill & Hin & Hrej).
    exists n, v. unfold Headers.new. rewrite Hfill. eauto 6.
  - intros _. exists "Authorization", ("Bearer " +:+ apiKey config). auto.
Qed.

Lemma headers_accepted_iff config options :
  headers_accepted config options = true <->
  exists sent, build_headers config options = Accepted sent.
Proof.
  split; [apply build_headers_accepted |].
  intros [sent Hsent]. destruct (headers_accepted config options) eqn:Hacc; [reflexivity |].
  destruct (build_headers_rejected config options Hacc) as (n & v & Hrej & _).
  rewrite Hrej in Hsent. discriminate Hsent.
Qed.

Lemma headers_accepted_no_headers config options :
  headers options = None -> headers_accepted config options = key_accepted config.
Proof. unfold headers_accepted, key_accepted. intros ->. apply andb_true_r. Qed.

Lemma sent_headers_accepted config options sent :
  build_headers config options = Accepted sent -> sent_headers config options = sent.
Proof. unfold sent_headers. intros ->. reflexivity. Qed.

(** The value of a header of an accepted request. *)
Lemma sent_headers_get config options name :
  headers_accepted config options = true ->
  exists caller,
    caller_headers options = Accepted caller /\
    Headers.get (sent_headers config options) name =
    match caller !! lower name with
    | Some values => Some (overlay_value (lower name) values)
    | None =>
        if (String.eqb (lower name) "content-type"
            && body_is_present_string (body options))%bool
        then Some "application/json"
        else if String.eqb (lower name) "authorization"
             then Some (Headers.normalize ("Bearer " +:+ apiKey config))
             else None
    end.
Proof.
  intros Hacc. destruct (build_headers_accepted config options Hacc) as [sent Hsent].
  destruct (build_headers_lookup config options sent Hsent) as (caller & Hcaller & _ & Hlook).
  exists caller. split; [exact Hcaller |].
  rewrite (sent_headers_accepted config options sent Hsent).
  unfold Headers.get. rewrite Hlook.
  destruct (caller !! lower name); [reflexivity |].
  destruct (_ && _)%bool; [reflexivity |].
  destruct (String.eqb (lower name) "authorization"); reflexivity.
Qed.

(** C7. The headers of a request.  They are refused, before any attempt,
    exactly when the bearer credential or a header of the caller fails
    the checks of the platform.  Otherwise they carry
    [Authorization: Bearer] with the credential unless the caller
    supplies that header, and every header of the caller is there under
    any spelling of its name, with the caller's value as [Headers]
    normalizes it (the values of a repeated name combined, the last one
    for [set-cookie]).  With a body that is present (truthy: a string
    that is not empty) and is a string, and no content type from the
    caller, [Content-Type] is [application/json].  With any other body, a
    multipart form or a binary payload in particular, [Content-Type] is
    what the caller supplied, and nothing when the caller supplied none,
    as for [postFormData]. *)
Theorem header_construction config options :
  (headers_accepted config options = false ->
   exists name value,
     build_headers config options = Rejected name value /\
     Headers.accepts name value = false) /\
  (headers_accepted config options = true ->
   exists sent caller,
     build_headers config options = Accepted sent /\
     caller_headers options = Accepted caller /\
     (Headers.get caller "Authorization" = None ->
      Headers.get sent "Authorization" =
        Some (Headers.normalize ("Bearer " +:+ apiKey config))) /\
     (forall name values,
         caller !! lower name = Some values ->
         Headers.get sent name = Some (overlay_value (lower name) values)) /\
     (forall name value,
         lower name <> "set-cookie" ->
         Headers.get caller name = Some value ->
         Headers.get sent name = Some (Headers.normalize value)) /\
     (forall init name value name',
         headers options = Some init ->
         NoDup (map (fun p => lower (fst p)) init) ->
         (name, value) ∈ init ->
         lower name' = lower name ->
         Headers.get sent name' = Some (Headers.normalize value)) /\
     (body_is_present_string (body options) = true ->
      Headers.get caller "Content-Type" = None ->
      Headers.get sent "Content-Type" = Some "application/json") /\
     (forall b,
         body options = Some b ->
         (forall s, b <> BodyString s) ->
         Headers.get sent "Content-Type" =
           Headers.normalize <$> Headers.get caller "Content-Type") /\
     (body_is_present_string (body options) = false ->
      Headers.get sent "Content-Type" =
        Headers.normalize <$> Headers.get caller "Content-Type") /\
     (forall formData,
         options = postFormData_options formData ->
         Headers.get sent "Content-Type" = None)).
Proof.
  split.
  { intros Hrej. destruct (build_headers_rejected config options Hrej)
      as (name & value & Hbuild & Hacc & _). eauto. }
  intros Hacc. destruct (build_headers_accepted config options Hacc) as [sent Hsent].
  destruct (build_headers_lookup config options sent Hsent)
    as (caller & Hcaller & Hwf & Hlook).
  exists sent, caller. split; [exact Hsent |]. split; [exact Hcaller |].
  assert (forall name values,
             caller !! lower name = Some values ->
             Headers.get sent name = Some (overlay_value (lower name) values)) as Hover.
  { intros name values Hname. unfold Headers.get. rewrite Hlook, Hname. reflexivity. }
  assert (body_is_present_string (body options) = false ->
          Headers.get sent "Content-Type" =
            Headers.normalize <$> Headers.get caller "Content-Type") as Hkeep.
  { intros Hbody. unfold Headers.get. rewrite Hlook, Hbody, andb_false_r.
    rewrite lower_Content_Type.
    destruct (caller !! "content-type"); reflexivity. }
  split; [| split; [exact Hover | split; [| split; [| split; [| split; [| split]]]]]].
  - unfold Headers.get. rewrite Hlook, lower_Authorization.
    destruct (caller !! "authorization"); [discriminate |]. reflexivity.
  - intros name value Hname. unfold Headers.get at 1.
    destruct (caller !! lower name) as [values |] eqn:Hvalues; [| discriminate].
    cbn. intros [= <-]. rewrite (Hover name values Hvalues).
    unfold overlay_value. rewrite (proj2 (String.eqb_neq _ _) Hname). reflexivity.
  - intros init name value name' Hinit Hnd Hin Heq.
    unfold caller_headers in Hcaller. rewrite Hinit in Hcaller.
    pose proof (Headers_fill_lookup init ∅ caller name value Hcaller Hnd Hin
                  (lookup_empty _)) as Hvalue.
    rewrite <- Heq in Hvalue. rewrite (Hover name' _ Hvalue).
    unfold overlay_value. cbn [last default Headers.combine String.concat].
    destruct (String.eqb (lower name') "set-cookie"); [reflexivity |].
    rewrite normalize_idemp. reflexivity.
  - intros Hbody Hnone. unfold Headers.get in *. rewrite Hlook.
    rewrite lower_Content_Type in *.
    destruct (caller !! "content-type"); [discriminate |]. rewrite Hbody. reflexivity.
  - intros b Hb Hnot. apply Hkeep. rewrite Hb.
    destruct b; [destruct (Hnot s); reflexivity | reflexivity..].
  - exact Hkeep.
  - intros formData ->. unfold Headers.get. rewrite Hlook.
    unfold caller_headers, postFormData_options in Hcaller. cbn [headers] in Hcaller.
    injection Hcaller as <-. rewrite lookup_empty. reflexivity.
Qed.

(** ** The retry loop *)

Section DispatchFacts.

Context (platform : Platform) (ERROR_CODES : ErrorCodes)
  (server : nat -> FetchResult).

(** Refused headers end the call before its first attempt. *)
Lemma makeRequest_fuel_rejected fuel config endpoint options retryCount w name value :
  build_headers config options = Rejected name value ->
  makeRequest_fuel platform ERROR_CODES server (S fuel) config endpoint options retryCount w =
  Some (Throw (ExnOther (header_error platform name value)), w).
Proof. intros Hrej. cbn [makeRequest_fuel]. rewrite Hrej. reflexivity. Qed.

(** The classification read off the [try] block and the [catch]
    clause. *)
Lemma try_block_not_ok response :
  ok response = false ->
  try_block platform (FetchResolves response) =
  if TimbalApiError.throws (error_message response)
  then Throw (ExnOther (conversion_error platform))
  else Throw (ExnApi (response_error response)).
Proof.
  intros Hok. unfold try_block, throw_TimbalApiError, error_message, response_error.
  rewrite Hok. reflexivity.
Qed.

(** One unfolding of [makeRequest] with accepted headers: the attempt is
    issued again exactly when it is retryable and the counter is below
    [retryAttempts]. *)
Lemma makeRequest_fuel_step fuel config endpoint options retryCount w :
  headers_accepted config options = true ->
  makeRequest_fuel platform ERROR_CODES server (S fuel) config endpoint options retryCount w =
  let w1 := snd (fetch server (build_request config endpoint options) w) in
  if (retryable (server (fetched w))
      && (Z.of_nat retryCount <? retryAttempts config))%bool
  then makeRequest_fuel platform ERROR_CODES server fuel config endpoint options (S retryCount)
         (sleep (retryDelay config * Z.of_nat (retryCount + 1)) w1)
  else Some (settle platform ERROR_CODES (server (fetched w)), w1).
Proof.
  intros Hacc. destruct (build_headers_accepted config options Hacc) as [sent Hsent].
  cbn [makeRequest_fuel]. rewrite Hsent.
  unfold build_request. rewrite (sent_headers_accepted config options sent Hsent).
  cbn [fetch snd]. unfold retryable, settle.
  destruct (server (fetched w)) as [[ty name msg | v] | response].
  - cbn [try_block retryable_error].
    destruct (String.eqb name "AbortError"), ty,
      (Z.of_nat retryCount <? retryAttempts config); reflexivity.
  - reflexivity.
  - destruct (ok response) eqn:Hok.
    + unfold try_block. rewrite Hok. cbn [negb].
      destruct (json response) as [data | [ty name msg | v]]; cbn [retryable_error].
      * reflexivity.
      * destruct (String.eqb name "AbortError"), ty,
          (Z.of_nat retryCount <? retryAttempts config); reflexivity.
      * reflexivity.
    + rewrite (try_block_not_ok response Hok).
      destruct (TimbalApiError.throws (error_message response)).
      * unfold conversion_error. cbn [String.eqb Ascii.eqb Bool.eqb orb].
        change (String.eqb "TypeError" "AbortError") with false. cbn [orb].
        destruct (Z.of_nat retryCount <? retryAttempts config); reflexivity.
      * cbn [orb]. unfold response_error, TimbalApiError.new.
        cbn [TimbalApiError.statusCode].
        destruct (500 <=? status response),
          (Z.of_nat retryCount <? retryAttempts config); reflexivity.
Qed.

Lemma retries_left_ltb config retryCount :
  (Z.of_nat retryCount <? retryAttempts config) =
  negb (retries_left config retryCount =? 0)%nat.
Proof.
  unfold retries_left.
  destruct (Z.ltb_spec (Z.of_nat retryCount) (retryAttempts config)),
    (Nat.eqb_spec (Z.to_nat (retryAttempts config - Z.of_nat retryCount)) 0);
    simpl; try reflexivity; lia.
Qed.

Lemma retries_left_S config retryCount n :
  retries_left config retryCount = S n -> retries_left config (S retryCount) = n.
Proof. unfold retries_left. lia. Qed.

(** The whole run of [makeRequest] with accepted headers, from any
    counter and any state of the environment: it makes [k] retries, where
    [k] is the number of consecutive retryable attempts within the
    retries that remain, ends with what the attempt after them settles
    to, and logs the calls of [backoff_trace]. *)
Lemma makeRequest_fuel_run fuel config endpoint options retryCount w :
  headers_accepted config options = true ->
  (retries_left config retryCount < fuel)%nat ->
  let k := leading_retryable server (fetched w) (retries_left config retryCount) in
  makeRequest_fuel platform ERROR_CODES server fuel config endpoint options retryCount w =
  Some (settle platform ERROR_CODES (server (fetched w + k)%nat),
        {| fetched := S (fetched w + k);
           log := log w ++ backoff_trace (build_request config endpoint options)
                             (retryDelay config) retryCount k |}).
Proof.
  intros Hacc. revert retryCount w.
  induction fuel as [| fuel IH]; intros retryCount w Hfuel; [lia |].
  rewrite makeRequest_fuel_step by exact Hacc. rewrite retries_left_ltb.
  destruct (retries_left config retryCount) as [| n] eqn:Hleft; cbn -[Z.mul Nat.add].
  - rewrite andb_false_r, Nat.add_0_r. reflexivity.
  - rewrite andb_true_r.
    destruct (retryable (server (fetched w))) eqn:Hretry.
    + rewrite IH by (rewrite (retries_left_S _ _ _ Hleft); lia).
      rewrite (retries_left_S _ _ _ Hleft).
      cbn [fetched log sleep fetch snd backoff_trace].
      rewrite <- !app_assoc, (Nat.add_succ_r (fetched w)). reflexivity.
    + rewrite Nat.add_0_r. reflexivity.
Qed.

Lemma makeRequest_run config endpoint options retryCount w :
  headers_accepted config options = true ->
  let k := leading_retryable server (fetched w) (retries_left config retryCount) in
  makeRequest platform ERROR_CODES server config endpoint options retryCount w =
  Some (settle platform ERROR_CODES (server (fetched w + k)%nat),
        {| fetched := S (fetched w + k);
           log := log w ++ backoff_trace (build_request config endpoint options)
                             (retryDelay config) retryCount k |}).
Proof. intros Hacc. apply makeRequest_fuel_run; [exact Hacc |]. unfold retries_left. lia. Qed.

(** More fuel than the retries that remain changes nothing. *)
Lemma makeRequest_fuel_enough fuel config endpoint options retryCount w :
  (retries_left config retryCount < fuel)%nat ->
  makeRequest_fuel platform ERROR_CODES server fuel config endpoint options retryCount w =
  makeRequest platform ERROR_CODES server config endpoint options retryCount w.
Proof.
  intros Hfuel. destruct (headers_accepted config options) eqn:Hacc.
  - rewrite makeRequest_run by exact Hacc. apply makeRequest_fuel_run; assumption.
  - destruct (build_headers_rejected config options Hacc) as (name & value & Hrej & _).
    unfold makeRequest. destruct fuel as [| fuel]; [lia |].
    rewrite !(makeRequest_fuel_rejected _ _ _ _ _ _ name value Hrej). reflexivity.
Qed.

Lemma leading_retryable_le start horizon :
  (leading_retryable server start horizon <= horizon)%nat.
Proof.
  revert start. induction horizon as [| h IH]; intros start; cbn; [lia |].
  destruct (retryable _); [specialize (IH (S start)) |]; lia.
Qed.




Lemma leading_retryable_all start horizon :
  (forall i, (i < horizon)%nat -> retryable (server (start + i)%nat) = true) ->
  leading_retryable server start horizon = horizon.
Proof.
  revert start.
  induction horizon as [| h IH]; intros start Hall; cbn; [reflexivity |].
  rewrite <- (Nat.add_0_r start) at 1. rewrite Hall by lia.
  f_equal. apply IH. intros i Hi.
  replace (S start + i)%nat with (start + S i)%nat by lia. apply Hall. lia.
Qed.

(** The count stops at the first attempt that is not retryable. *)
Lemma leading_retryable_first start horizon k :
  (k <= horizon)%nat ->
  (forall i, (i < k)%nat -> retryable (server (start + i)%nat) = true) ->
  (k < horizon -> retryable (server (start + k)%nat) = false)%nat ->
  leading_retryable server start horizon = k.
Proof.
  revert start k.
  induction horizon as [| h IH]; intros start k Hk Hbefore Hstop; cbn; [lia |].
  destruct k as [| k].
  - rewrite Nat.add_0_r in Hstop. rewrite Hstop by lia. reflexivity.
  - rewrite <- (Nat.add_0_r start) at 1. rewrite Hbefore by lia.
    f_equal. apply IH; [lia | |].
    + intros i Hi. replace (S start + i)%nat with (start + S i)%nat by lia.
      apply Hbefore. lia.
    + intros Hlt. replace (S start + k)%nat with (start + S k)%nat by lia.
      apply Hstop. lia.
Qed.

Lemma request_run config endpoint options w :
  headers_accepted config options = true ->
  let k := leading_retryable server (fetched w) (max_retries config) in
  request platform ERROR_CODES server config endpoint options w =
  Some (settle platform ERROR_CODES (server (fetched w + k)%nat),
        {| fetched := S (fetched w + k);
           log := log w ++ backoff_trace (build_request config endpoint options)
                             (retryDelay config) 0 k |}).
Proof.
  intros Hacc. unfold request. rewrite makeRequest_run by exact Hacc.
  unfold retries_left, max_retries. rewrite Z.sub_0_r. reflexivity.
Qed.

(** With refused headers the dispatch throws the [TypeError] of
    [Headers] and leaves the environment as it was. *)
Lemma request_rejected config endpoint options w :
  headers_accepted config options = false ->
  exists name value,
    build_headers config options = Rejected name value /\
    Headers.accepts name value = false /\
    request platform ERROR_CODES server config endpoint options w =
      Some (Throw (ExnOther (header_error platform name value)), w).
Proof.
  intros Hacc.
  destruct (build_headers_rejected config options Hacc) as (name & value & Hrej & Hno & _).
  exists name, value. split; [exact Hrej |]. split; [exact Hno |].
  apply makeRequest_fuel_rejected, Hrej.
Qed.

(** *** What one attempt settles to *)

Lemma not_ok_of_status response :
  status response < 200 \/ 299 < status response -> ok response = false.
Proof.
  intros H. unfold ok.
  destruct (Z.leb_spec 200 (status response)), (Z.leb_spec (status response) 299);
    simpl; try reflexivity; lia.
Qed.

Lemma retryable_not_ok response :
  ok response = false ->
  retryable (FetchResolves response) =
  (TimbalApiError.throws (error_message response) || (500 <=? status response))%bool.
Proof. intros Hok. unfold retryable. rewrite Hok. reflexivity. Qed.

Lemma retryable_client_error response :
  400 <= status response <= 499 ->
  TimbalApiError.throws (error_message response) = false ->
  retryable (FetchResolves response) = false.
Proof.
  intros H Hmessage. rewrite retryable_not_ok by (apply not_ok_of_status; lia).
  rewrite Hmessage. apply Z.leb_gt. lia.
Qed.

Lemma retryable_server_error response :
  500 <= status response -> retryable (FetchResolves response) = true.
Proof.
  intros H. rewrite retryable_not_ok by (apply not_ok_of_status; lia).
  apply orb_true_iff. right. apply Z.leb_le. lia.
Qed.

Lemma settle_not_ok response :
  ok response = false ->
  TimbalApiError.throws (error_message response) = false ->
  settle platform ERROR_CODES (FetchResolves response) =
  Throw (ExnApi (response_error response)).
Proof.
  intros Hok Hmessage. unfold settle.
  rewrite try_block_not_ok, Hmessage by exact Hok. reflexivity.
Qed.

(** The error of a response whose message has no primitive value cannot
    be built: the dispatch reports a network failure. *)
Lemma settle_unconvertible response :
  ok response = false ->
  TimbalApiError.throws (error_message response) = true ->
  settle platform ERROR_CODES (FetchResolves response) =
  Throw (ExnApi (TimbalApiError.new
                   (VStr ("Network error: " +:+ cannot_convert platform)) 0
                   (VStr (NETWORK_ERROR ERROR_CODES)) VUndef)).
Proof.
  intros Hok Hmessage. unfold settle.
  rewrite try_block_not_ok, Hmessage by exact Hok. reflexivity.
Qed.

(** An attempt settles to an envelope whose [success] is [true], to a
    [TimbalApiError], or, when what was thrown is no [Error] and has no
    primitive value, to the [TypeError] of its conversion. *)
Lemma settle_classified result :
  (exists data statusCode,
      settle platform ERROR_CODES result =
      Return {| ApiResponse.data := data; ApiResponse.success := true;
                ApiResponse.statusCode := statusCode |}) \/
  (exists error, settle platform ERROR_CODES result = Throw (ExnApi error)) \/
  (settle platform ERROR_CODES result = Throw (ExnOther (conversion_error platform)) /\
   exists v, String_throws v = true /\
             (result = FetchRejects (NonError v) \/
              exists response, result = FetchResolves response /\
                               ok response = true /\
                               json response = JsonThrows (NonError v))).
Proof.
  unfold settle.
  destruct result as [[ty name msg | v] | response].
  - right. left. cbn. destruct (String.eqb name "AbortError"), ty; eauto.
  - cbn. unfold throw_unknown. cbn [Thrown_toString_throws].
    destruct (String_throws v) eqn:Hv; [| right; left; eauto].
    right. right. split; [reflexivity |]. eauto.
  - destruct (ok response) eqn:Hok.
    + unfold try_block. rewrite Hok. cbn [negb].
      destruct (json response) as [data | [ty name msg | v]] eqn:Hjson.
      * left. eauto.
      * right. left. cbn. destruct (String.eqb name "AbortError"), ty; eauto.
      * unfold throw_unknown. cbn [Thrown_toString_throws].
        destruct (String_throws v) eqn:Hv; [| right; left; eauto].
        right. right. split; [reflexivity |]. eauto 8.
    + right. left. rewrite (try_block_not_ok response Hok).
      destruct (TimbalApiError.throws (error_message response)); cbn; eauto.
Qed.

(** A first attempt that is not retryable is the only one. *)
Lemma request_settles_at_once config endpoint options w :
  headers_accepted config options = true ->
  retryable (server (fetched w)) = false ->
  exists w',
    request platform ERROR_CODES server config endpoint options w =
      Some (settle platform ERROR_CODES (server (fetched w)), w') /\
    attempts w w' = 1%nat.
Proof.
  intros Hacc Hretry. rewrite request_run by exact Hacc.
  assert (leading_retryable server (fetched w) (max_retries config) = 0%nat) as ->.
  { destruct (max_retries config); cbn; [reflexivity |]. rewrite Hretry. reflexivity. }
  rewrite Nat.add_0_r. eexists. split; [reflexivity |].
  unfold attempts. cbn. lia.
Qed.

(** When every attempt the configuration allows is retryable, the last
    of them settles the dispatch. *)
Lemma request_exhausts config endpoint options w :
  headers_accepted config options = true ->
  (forall i, (i <= max_retries config)%nat ->
             retryable (server (fetched w + i)%nat) = true) ->
  exists w',
    request platform ERROR_CODES server config endpoint options w =
      Some (settle platform ERROR_CODES (server (fetched w + max_retries config)%nat), w') /\
    attempts w w' = S (max_retries config).
Proof.
  intros Hacc Hall. rewrite request_run by exact Hacc. rewrite leading_retryable_all.
  - eexists. split; [reflexivity |]. unfold attempts. cbn. lia.
  - intros i Hi. apply Hall. lia.
Qed.

(** The attempt that follows [k] retryable ones and is not retryable
    itself settles the dispatch. *)
Lemma request_settles_after config endpoint options w k :
  headers_accepted config options = true ->
  (k <= max_retries config)%nat ->
  (forall i, (i < k)%nat -> retryable (server (fetched w + i)%nat) = true) ->
  retryable (server (fetched w + k)%nat) = false ->
  exists w',
    request platform ERROR_CODES server config endpoint options w =
      Some (settle platform ERROR_CODES (server (fetched w + k)%nat), w') /\
    attempts w w' = S k.
Proof.
  intros Hacc Hk Hbefore Hstop. rewrite request_run by exact Hacc.
  rewrite (leading_retryable_first (fetched w) (max_retries config) k Hk Hbefore)
    by (intros _; exact Hstop).
  eexists. split; [reflexivity |]. unfold attempts. cbn. lia.
Qed.

(** *** The log of a dispatch *)

Lemma backoff_trace_length request delay retryCount retries :
  length (backoff_trace request delay retryCount retries) = (2 * retries + 1)%nat.
Proof.
  revert retryCount. induction retries as [| n IH]; intros retryCount; cbn -[Z.mul].
  - reflexivity.
  - rewrite IH. lia.
Qed.

Lemma backoff_trace_fetch request delay retryCount retries i :
  (i <= retries)%nat ->
  backoff_trace request delay retryCount retries !! (2 * i)%nat = Some (EvFetch request).
Proof.
  revert retryCount i.
  induction retries as [| n IH]; intros retryCount [| i] Hi; try reflexivity; try lia.
  replace (2 * S i)%nat with (S (S (2 * i))) by lia.
  cbn -[Z.mul Nat.mul]. apply IH. lia.
Qed.

Lemma backoff_trace_sleep request delay retryCount retries i :
  (i < retries)%nat ->
  backoff_trace request delay retryCount retries !! (2 * i + 1)%nat =
  Some (EvSleep (delay * Z.of_nat (retryCount + i + 1))).
Proof.
  revert retryCount i.
  induction retries as [| n IH]; intros retryCount [| i] Hi; try lia.
  - cbn -[Z.mul]. rewrite Nat.add_0_r. reflexivity.
  - replace (2 * S i + 1)%nat with (S (S (2 * i + 1))) by lia.
    cbn -[Z.mul Nat.mul Nat.add]. rewrite IH by lia.
    do 3 f_equal. lia.
Qed.

(** *** The claims on the retry loop *)



(** C3. The log of a dispatch alternates attempts and waits: attempt [N]
    (from 1) is the event at position [2 (N - 1)], and for every [N >= 2]
    the event just before it is the wait of exactly
    [retryDelay * (N - 1)]. *)
Theorem backoff_wait_linear config endpoint options w :
  exists outcome w' trace,
    request platform ERROR_CODES server config endpoint options w = Some (outcome, w') /\
    log w' = log w ++ trace /\
    length trace = (2 * attempts w w' - 1)%nat /\
    (forall N, (1 <= N <= attempts w w')%nat ->
       trace !! (2 * (N - 1))%nat =
       Some (EvFetch (build_request config endpoint options))) /\
    (forall N, (2 <= N <= attempts w w')%nat ->
       trace !! (2 * (N - 1) - 1)%nat =
       Some (EvSleep (retryDelay config * Z.of_nat (N - 1)))).
Proof.
  destruct (headers_accepted config options) eqn:Hacc.
  - rewrite request_run by exact Hacc. do 3 eexists. split; [reflexivity |].
    unfold attempts. cbn [fetched log].
    set (k := leading_retryable server (fetched w) (max_retries config)).
    replace (S (fetched w + k) - fetched w)%nat with (S k) by lia.
    split; [reflexivity |]. split; [rewrite backoff_trace_length; lia |]. split.
    + intros N HN. apply backoff_trace_fetch. lia.
    + intros N HN.
      replace (2 * (N - 1) - 1)%nat with (2 * (N - 2) + 1)%nat by lia.
      rewrite backoff_trace_sleep by lia. do 3 f_equal. lia.
  - destruct (request_rejected config endpoint options w Hacc)
      as (name & value & _ & _ & Hreq).
    exists (Throw (ExnOther (header_error platform name value))), w, [].
    split; [exact Hreq |]. unfold attempts.
    split; [symmetry; apply app_nil_r |].
    split; [cbn; lia |]. split; intros N HN; lia.
Qed.

(** C6. When the dispatch makes its attempts (its headers are accepted)
    and every attempt the configuration allows is aborted by its timer,
    it throws ["Request timeout"] with status 0 and the code
    [TIMEOUT_ERROR]; when every one fails in the network, it throws
    ["Network error: "] followed by the message of the last failure, with
    status 0 and the code [NETWORK_ERROR]. *)
Theorem transport_failure_exhausted config endpoint options w :
  headers_accepted config options = true ->
  ((forall i, (i <= max_retries config)%nat ->
      exists m, server (fetched w + i)%nat = FetchRejects (AbortError m)) ->
   exists w',
     request platform ERROR_CODES server config endpoint options w =
       Some (Throw (ExnApi {| TimbalApiError.message := "Request timeout";
                              TimbalApiError.statusCode := 0;
                              TimbalApiError.code := VStr (TIMEOUT_ERROR ERROR_CODES);
                              TimbalApiError.details := VUndef |}), w') /\
     attempts w w' = S (max_retries config)) /\
  (forall messages : nat -> string,
     (forall i, (i <= max_retries config)%nat ->
        server (fetched w + i)%nat = FetchRejects (NetworkFailure (messages i))) ->
     exists w',
       request platform ERROR_CODES server config endpoint options w =
         Some (Throw (ExnApi {| TimbalApiError.message :=
                                  "Network error: " +:+ messages (max_retries config);
                                TimbalApiError.statusCode := 0;
                                TimbalApiError.code := VStr (NETWORK_ERROR ERROR_CODES);
                                TimbalApiError.details := VUndef |}), w') /\
       attempts w w' = S (max_retries config)).
Proof.
  intros Hacc. split.
  - intros Hall.
    destruct (request_exhausts config endpoint options w Hacc) as (w' & Hreq & Hatt).
    { intros i Hi. destruct (Hall i Hi) as [m ->]. reflexivity. }
    destruct (Hall (max_retries config) ltac:(lia)) as [m Hlast].
    rewrite Hlast in Hreq. exists w'. split; assumption.
  - intros messages Hall.
    destruct (request_exhausts config endpoint options w Hacc) as (w' & Hreq & Hatt).
    { intros i Hi. rewrite (Hall i Hi). reflexivity. }
    rewrite (Hall (max_retries config)) in Hreq by lia.
    exists w'. split; assumption.
Qed.

End DispatchFacts.

(** ** The copy returned by [getConfig] *)

Lemma getConfig_fresh this (σ : gmap nat (list (string * Store.hvalue))) :
  σ !! fst (Store.getConfig this σ) = None.
Proof. cbn. apply not_elem_of_dom, is_fresh. Qed.

Lemma getConfig_lookup this (σ : gmap nat (list (string * Store.hvalue))) :
  snd (Store.getConfig this σ) !! fst (Store.getConfig this σ) =
  Some (default [] (σ !! Store.config this)).
Proof. cbn. apply lookup_insert_eq. Qed.

Lemma getConfig_frame this (σ : gmap nat (list (string * Store.hvalue))) l :
  is_Some (σ !! l) -> snd (Store.getConfig this σ) !! l = σ !! l.
Proof.
  intros Hl. cbn. apply lookup_insert_ne. intros Heq.
  pose proof (getConfig_fresh this σ) as Hfresh. cbn in Hfresh.
  rewrite <- Heq, Hfresh in Hl. destruct Hl as [? Hl]. discriminate Hl.
Qed.

(** Mutations of the object at [l] leave every other object as it is. *)
Lemma mutations_frame l l' mutations (σ : gmap nat (list (string * Store.hvalue))) :
  l' <> l -> fold_left (Store.mutate l) mutations σ !! l' = σ !! l'.
Proof.
  intros Hne. revert σ.
  induction mutations as [| m mutations IH]; intros σ; cbn [fold_left]; [reflexivity |].
  rewrite IH. unfold Store.mutate. apply lookup_alter_ne. congruence.
Qed.

(** C10. [getConfig] returns a new object with the properties of the
    stored configuration.  Whatever the caller assigns to or deletes from
    the returned object, the stored configuration and every object that
    existed before are as they were, a dispatch reads the same
    configuration, and a later [getConfig] returns the same properties
    again; two calls in a row return two objects with equal properties. *)
Theorem getConfig_defensive_copy (this : Store.ApiClient)
    (σ : gmap nat (list (string * Store.hvalue))) (mutations : list Store.Mutation) :
  is_Some (σ !! Store.config this) ->
  let returned := fst (Store.getConfig this σ) in
  let σ1 := snd (Store.getConfig this σ) in
  let σ2 := fold_left (Store.mutate returned) mutations σ1 in
  let again := fst (Store.getConfig this σ1) in
  let σ' := snd (Store.getConfig this σ1) in
  returned <> Store.config this /\
  σ1 !! returned = σ !! Store.config this /\
  σ2 !! Store.config this = σ !! Store.config this /\
  (forall l, is_Some (σ !! l) -> σ2 !! l = σ !! l) /\
  Store.read_config this σ2 = Store.read_config this σ /\
  (forall platform ERROR_CODES server endpoint options w,
      Store.dispatch platform ERROR_CODES server this σ2 endpoint options w =
      Store.dispatch platform ERROR_CODES server this σ endpoint options w) /\
  snd (Store.getConfig this σ2) !! fst (Store.getConfig this σ2) =
    σ !! Store.config this /\
  again <> returned /\
  σ' !! again = σ' !! returned.
Proof.
  intros Hconfig returned σ1 σ2 again σ'.
  assert (forall l, is_Some (σ !! l) -> l <> returned) as Hold.
  { intros l [o Hl] ->. unfold returned in Hl.
    rewrite getConfig_fresh in Hl. discriminate Hl. }
  assert (forall l, is_Some (σ !! l) -> σ2 !! l = σ !! l) as Hframe.
  { intros l Hl. unfold σ2. rewrite mutations_frame by (apply Hold, Hl).
    apply getConfig_frame, Hl. }
  assert (σ1 !! returned = σ !! Store.config this) as Hcopy.
  { unfold σ1, returned. rewrite getConfig_lookup.
    destruct Hconfig as [o ->]. reflexivity. }
  assert (Store.read_config this σ2 = Store.read_config this σ) as Hread.
  { unfold Store.read_config. rewrite Hframe by exact Hconfig. reflexivity. }
  split; [intros Heq; apply (Hold (Store.config this) Hconfig); congruence |].
  split; [exact Hcopy |]. split; [apply Hframe, Hconfig |].
  split; [exact Hframe |]. split; [exact Hread |].
  split; [intros; unfold Store.dispatch; rewrite Hread; reflexivity |].
  split.
  { rewrite getConfig_lookup, Hframe by exact Hconfig.
    destruct Hconfig as [o ->]. reflexivity. }
  assert (is_Some (σ1 !! returned)) as Hret by (rewrite Hcopy; exact Hconfig).
  split.
  - intros Heq. unfold again in Heq. rewrite <- Heq in Hret.
    pose proof (getConfig_fresh this σ1) as Hfresh.
    rewrite Hfresh in Hret. destruct Hret as [? Hret]. discriminate Hret.
  - unfold σ', again. rewrite getConfig_lookup, getConfig_frame by exact Hret.
    rewrite Hcopy. unfold σ1. rewrite getConfig_frame by exact Hconfig.
    destruct Hconfig as [o ->]. reflexivity.
Qed.

(** ** Runs on the scenarios *)



(** C2. A dispatch that throws what is no [TimbalApiError]: with a key
    that holds a line feed, [new Headers], which stands before the [try],
    throws its [TypeError] to the caller, and no attempt is made. *)
Theorem dispatch_header_error_escapes :
  request sample_platform sample_codes server_recovers broken_key_config "query" sample_post
    World_init =
  Some (Throw (ExnOther (ErrorObject true "TypeError"
                           (invalid_header sample_platform "Authorization"
                              ("Bearer " +:+ broken_key)))),
        World_init).
Proof. vm_compute. reflexivity. Qed.

Lemma backoff_wait_linear_witness :
  exists outcome w' trace,
    request sample_platform sample_codes server_recovers sample_config "query" sample_post World_init
      = Some (outcome, w') /\
    log w' = trace /\
    trace !! 1%nat = Some (EvSleep 100) /\
    trace !! 3%nat = Some (EvSleep 200).
Proof.
  destruct (backoff_wait_linear sample_platform sample_codes server_recovers sample_config
              "query" sample_post World_init)
    as (outcome & w' & trace & Hreq & Hlog & Hlen & Hfetch & Hsleep).
  exists outcome, w', trace. split; [exact Hreq |]. split; [exact Hlog |].
  assert (attempts World_init w' = 3%nat) as Hatt.
  { vm_compute in Hreq. injection Hreq as _ <-. reflexivity. }
  split; [apply (Hsleep 2%nat) | apply (Hsleep 3%nat)]; lia.
Defined.

(** C4. A response with status 400 that is retried: the [message] of its
    body has no primitive value, the [TypeError] of the constructor of
    the error is caught as a failure of the network, and the dispatch
    makes every attempt the configuration allows and throws
    [NETWORK_ERROR] with status 0, not the error of the response. *)
Theorem client_error_retried_as_network_failure :
  exists w',
    request sample_platform sample_codes server_opaque_400 sample_config "tables/users"
      sample_post World_init =
      Some (Throw (ExnApi {| TimbalApiError.message :=
                               "Network error: Cannot convert object to primitive value";
                             TimbalApiError.statusCode := 0;
                             TimbalApiError.code := VStr "NETWORK_ERROR";
                             TimbalApiError.details := VUndef |}), w') /\
    attempts World_init w' = 4%nat /\
    total_wait (log w') = 600.
Proof. eexists. split; [vm_compute; reflexivity |]. split; reflexivity. Qed.

(** C5. Responses with status 503 on every attempt whose error does not
    surface: the [message] of their bodies has no primitive value, and
    after the last attempt the dispatch throws [NETWORK_ERROR] with
    status 0 where the error of the last response has status 503. *)
Theorem server_error_lost_to_network_failure :
  (forall i, server_opaque_503 i = FetchResolves response_503_opaque) /\
  status response_503_opaque = 503 /\
  exists w',
    request sample_platform sample_codes server_opaque_503 sample_config "query" sample_post
      World_init =
      Some (Throw (ExnApi {| TimbalApiError.message :=
                               "Network error: Cannot convert object to primitive value";
                             TimbalApiError.statusCode := 0;
                             TimbalApiError.code := VStr "NETWORK_ERROR";
                             TimbalApiError.details := VUndef |}), w') /\
    attempts World_init w' = 4%nat.
Proof.
  split; [reflexivity |]. split; [reflexivity |].
  eexists. split; [vm_compute; reflexivity | reflexivity].
Qed.

Lemma transport_failure_exhausted_witness :
  (exists w',
      request sample_platform sample_codes server_silent sample_config "query" sample_post World_init =
        Some (Throw (ExnApi {| TimbalApiError.message := "Request timeout";
                               TimbalApiError.statusCode := 0;
                               TimbalApiError.code := VStr "TIMEOUT_ERROR";
                               TimbalApiError.details := VUndef |}), w') /\
      attempts World_init w' = 4%nat) /\
  (exists w',
      request sample_platform sample_codes server_unreachable sample_config "query" sample_post
        World_init =
        Some (Throw (ExnApi {| TimbalApiError.message :=
                                 "Network error: fetch failed, attempt 3";
                               TimbalApiError.statusCode := 0;
                               TimbalApiError.code := VStr "NETWORK_ERROR";
                               TimbalApiError.details := VUndef |}), w') /\
      attempts World_init w' = 4%nat).
Proof.
  assert (headers_accepted sample_config sample_post = true) as Hacc
    by (vm_compute; reflexivity).
  split.
  - apply (proj1 (transport_failure_exhausted sample_platform sample_codes server_silent
                    sample_config "query" sample_post World_init Hacc)).
    intros i _. eexists. reflexivity.
  - destruct (proj2 (transport_failure_exhausted sample_platform sample_codes server_unreachable
                       sample_config "query" sample_post World_init Hacc)
                (fun n => "fetch failed, attempt " +:+ pretty n))
      as (w' & Hreq & Hatt).
    + intros i _. reflexivity.
    + exists w'. split; [exact Hreq | exact Hatt].
Defined.

(** C8. A response with status 404 that does not end the dispatch: the
    [message] of its body has no primitive value, so each attempt ends
    in the [TypeError] of the constructor of the error and is issued
    again after the wait, and the caller gets [NETWORK_ERROR] with
    status 0 after the second attempt. *)
Theorem client_error_propagates_late :
  exists w',
    request sample_platform sample_codes server_opaque_404 impatient_config "query" sample_post
      World_init =
      Some (Throw (ExnApi {| TimbalApiError.message :=
                               "Network error: Cannot convert object to primitive value";
                             TimbalApiError.statusCode := 0;
                             TimbalApiError.code := VStr "NETWORK_ERROR";
                             TimbalApiError.details := VUndef |}), w') /\
    attempts World_init w' = 2%nat /\
    new_events World_init w' =
      [EvFetch (build_request impatient_config "query" sample_post);
       EvSleep 1000;
       EvFetch (build_request impatient_config "query" sample_post)].
Proof. eexists. split; [vm_compute; reflexivity |]. split; reflexivity. Qed.

Lemma header_construction_witness :
  exists sent upload,
    build_headers sample_config sample_post = Accepted sent /\
    build_headers sample_config sample_upload = Accepted upload /\
    Headers.get sent "authorization" = Some "Bearer test-key" /\
    Headers.get sent "content-type" = Some "application/json" /\
    Headers.get upload "x-trace" = Some "on" /\
    Headers.get upload "authorization" = Some "Basic abc" /\
    Headers.get upload "content-type" = None.
Proof.
  destruct (proj2 (header_construction sample_config sample_post))
    as (sent & caller & Hsent & Hcaller & Hauth & _ & _ & _ & Hjson & _);
    [vm_compute; reflexivity |].
  destruct (proj2 (header_construction sample_config sample_upload))
    as (upload & caller' & Hupload & Hcaller' & _ & _ & _ & Hinit & _ & Hother & _);
    [vm_compute; reflexivity |].
  exists sent, upload. split; [exact Hsent |]. split; [exact Hupload |].
  vm_compute in Hcaller. injection Hcaller as <-.
  vm_compute in Hcaller'. injection Hcaller' as <-.
  assert (NoDup (map (fun p : string * string => lower (fst p))
                   [("X-Trace", "on"); ("AUTHORIZATION", "Basic abc")])) as Hnd.
  { apply NoDup_cons. split; [| apply NoDup_singleton].
    apply not_elem_of_cons. split; [discriminate | apply not_elem_of_nil]. }
  split; [change "authorization" with (lower "Authorization");
          rewrite (Headers_get_lower sent "Authorization"), Hauth by reflexivity;
          reflexivity |].
  split; [change "content-type" with (lower "Content-Type");
          rewrite (Headers_get_lower sent "Content-Type"), Hjson by reflexivity;
          reflexivity |].
  split; [rewrite (Hinit _ "X-Trace" "on" "x-trace" eq_refl Hnd);
          [reflexivity | left | reflexivity] |].
  split; [rewrite (Hinit _ "AUTHORIZATION" "Basic abc" "authorization" eq_refl Hnd);
          [reflexivity | right; left | reflexivity] |].
  change "content-type" with (lower "Content-Type").
  rewrite (Headers_get_lower upload "Content-Type").
  rewrite (Hother (BodyFormData [("file", "contents")]) eq_refl) by discriminate.
  reflexivity.
Defined.

Lemma deepMerge_merges_witness :
  assoc "retry"
    (own_entries (deepMerge (VObj sample_nested_target) (VObj sample_nested_update)))
    = Some (VObj [("attempts", VNum 5); ("delay", VNum 1000); ("jitter", VBool true)]) /\
  assoc "timeout"
    (own_entries (deepMerge (VObj sample_nested_target) (VObj sample_nested_update)))
    = Some (VNum 15000) /\
  assoc "apiKey"
    (own_entries (deepMerge (VObj sample_nested_target) (VObj sample_nested_update)))
    = Some (VStr "test-key").
Proof.
  assert (NoDup (keys sample_nested_update)) as Hnd.
  { apply NoDup_cons. split; [| apply NoDup_singleton].
    apply not_elem_of_cons. split; [discriminate | apply not_elem_of_nil]. }
  split; [| split].
  - destruct (deepMerge_merges sample_nested_target sample_nested_update "retry" Hnd)
      as (_ & _ & _ & Hobj & _).
    apply (Hobj [("attempts", VNum 5); ("jitter", VBool true)]). reflexivity.
  - destruct (deepMerge_merges sample_nested_target sample_nested_update "timeout" Hnd)
      as (_ & _ & _ & _ & _ & Hover & _).
    apply Hover; [reflexivity | discriminate].
  - destruct (deepMerge_merges sample_nested_target sample_nested_update "apiKey" Hnd)
      as (_ & _ & _ & _ & _ & _ & Hkeep).
    apply Hkeep. reflexivity.
Defined.

Lemma getConfig_defensive_copy_witness :
  let returned := fst (Store.getConfig sample_client sample_store) in
  let after := fold_left (Store.mutate returned) sample_mutations
                 (snd (Store.getConfig sample_client sample_store)) in
  after !! 0%nat = sample_store !! 0%nat /\
  Store.read_config sample_client after = Some sample_config.
Proof.
  destruct (getConfig_defensive_copy sample_client sample_store sample_mutations)
    as (_ & _ & Hstored & _ & Hread & _).
  - eexists. reflexivity.
  - split; [exact Hstored | rewrite Hread; reflexivity].
Defined.

(** The scenario of the specification: 503 twice, then 200, with
    [retryAttempts = 3] and [retryDelay = 100]. *)
Example scenario_recovers :
  request sample_platform sample_codes server_recovers sample_config "query" sample_post World_init =
  Some (Return {| ApiResponse.data := VObj [("data", VArr [VObj [("count", VNum 5)]])];
                  ApiResponse.success := true;
                  ApiResponse.statusCode := 200 |},
        {| fetched := 3;
           log := [EvFetch (build_request sample_config "query" sample_post);
                   EvSleep 100;
                   EvFetch (build_request sample_config "query" sample_post);
                   EvSleep 200;
                   EvFetch (build_request sample_config "query" sample_post)] |}).
Proof. vm_compute. reflexivity. Qed.

(** No answer before the timeout, one retry: two attempts, then the
    timeout error. *)
Example scenario_timeout :
  exists w',
    request sample_platform sample_codes server_silent impatient_config "query" sample_post World_init =
      Some (Throw (ExnApi {| TimbalApiError.message := "Request timeout";
                             TimbalApiError.statusCode := 0;
                             TimbalApiError.code := VStr "TIMEOUT_ERROR";
                             TimbalApiError.details := VUndef |}), w') /\
    fetched w' = 2%nat /\
    req_abort_after <$> (log w' !! 0%nat ≫= fun e =>
                           match e with EvFetch r => Some r | EvSleep _ => None end)
      = Some 50.
Proof. eexists. split; [vm_compute; reflexivity |]. split; reflexivity. Qed.

Example scenario_url :
  build_url impatient_config "query" = "https://api.test.com/query" /\
  build_url sample_config "/query" = "https://api.test.com/query".
Proof. split; reflexivity. Qed.

(** The empty string is a falsy body: no content type is set for it. *)
Example empty_text_no_content_type :
  Headers.get (sent_headers sample_config empty_text) "Content-Type" = None.
Proof. vm_compute. reflexivity. Qed.

(** The test of the repository: [updateConfig({ timeout: 15000 })]. *)
Example updateConfig_timeout :
  updateConfig (value_of_config sample_config) (VObj [("timeout", VNum 15000)]) =
  value_of_config {| apiKey := "test-key"; baseUrl := "https://api.test.com";
                     timeout := 15000; retryAttempts := 3; retryDelay := 100 |}.
Proof. reflexivity. Qed.

(** A key of the update that holds [undefined] overwrites as well. *)
Example updateConfig_undefined :
  field (updateConfig (value_of_config sample_config) (VObj [("baseUrl", VUndef)]))
    "baseUrl" = VUndef.
Proof. reflexivity. Qed.

(** * Further properties of the client *)

(** ** The address of a request *)

Lemma endsWith_slash_app s : endsWith_slash (s +:+ "/") = true.
Proof.
  induction s as [| c s IH]; [reflexivity |].
  change (String c s +:+ "/") with (String c (s +:+ "/")). cbn [endsWith_slash].
  destruct (s +:+ "/") eqn:Hs; [destruct s; discriminate Hs | exact IH].
Qed.

Lemma slice_init_app s : slice_init (s +:+ "/") = s.
Proof.
  induction s as [| c s IH]; [reflexivity |].
  change (String c s +:+ "/") with (String c (s +:+ "/")). cbn [slice_init].
  destruct (s +:+ "/") eqn:Hs; [destruct s; discriminate Hs | rewrite IH; reflexivity].
Qed.

(** One slash joins the base address and the path, whether or not the
    base address ends with a slash and whether or not the path starts
    with one. *)
Theorem build_url_single_slash (config config' : TimbalConfig) (path : string) :
  endsWith_slash (baseUrl config) = false ->
  baseUrl config' = baseUrl config +:+ "/" ->
  startsWith_slash path = false ->
  build_url config path = baseUrl config +:+ "/" +:+ path /\
  build_url config ("/" +:+ path) = baseUrl config +:+ "/" +:+ path /\
  build_url config' path = baseUrl config +:+ "/" +:+ path /\
  build_url config' ("/" +:+ path) = baseUrl config +:+ "/" +:+ path.
Proof.
  intros Hbase Hbase' Hpath. unfold build_url.
  rewrite Hbase, Hbase', Hpath, endsWith_slash_app, slice_init_app.
  change ("/" +:+ path) with (String "/" path).
  cbn [startsWith_slash]. rewrite Ascii.eqb_refl.
  repeat split; reflexivity.
Qed.

Lemma build_url_single_slash_witness :
  build_url sample_config "query" = "https://api.test.com/query" /\
  build_url sample_config "/query" = "https://api.test.com/query" /\
  build_url impatient_config "query" = "https://api.test.com/query" /\
  build_url impatient_config "/query" = "https://api.test.com/query".
Proof.
  apply (build_url_single_slash sample_config impatient_config "query"); reflexivity.
Defined.

(** ** The log of a dispatch: requests and waits *)

Lemma requests_of_app l1 l2 : requests_of (l1 ++ l2) = requests_of l1 ++ requests_of l2.
Proof.
  induction l1 as [| [r | ms] l1 IH]; cbn; [reflexivity | f_equal; exact IH | exact IH].
Qed.

Lemma total_wait_app l1 l2 : total_wait (l1 ++ l2) = total_wait l1 + total_wait l2.
Proof.
  induction l1 as [| [r | ms] l1 IH]; cbn [app total_wait]; lia.
Qed.

Lemma requests_of_backoff_trace request delay retryCount retries :
  requests_of (backoff_trace request delay retryCount retries) =
  replicate (S retries) request.
Proof.
  revert retryCount. induction retries as [| n IH]; intros retryCount; [reflexivity |].
  cbn [backoff_trace requests_of]. rewrite IH. reflexivity.
Qed.

Lemma total_wait_backoff_trace request delay retryCount retries :
  2 * total_wait (backoff_trace request delay retryCount retries) =
  delay * (Z.of_nat retries * (2 * Z.of_nat retryCount + Z.of_nat retries + 1)).
Proof.
  revert retryCount. induction retries as [| n IH]; intros retryCount.
  - cbn. lia.
  - cbn [backoff_trace total_wait]. specialize (IH (S retryCount)). nia.
Qed.

Lemma new_events_app w (events : list Event) l :
  l = log w ++ events -> drop (length (log w)) l = events.
Proof. intros ->. apply drop_app_length. Qed.

Section DispatchLog.

Context (platform : Platform) (ERROR_CODES : ErrorCodes)
  (server : nat -> FetchResult).

(** What a dispatch adds to the log: the attempts and the waits between
    them, and nothing when the headers are refused. *)
Lemma request_new_events config endpoint options w :
  exists outcome w',
    request platform ERROR_CODES server config endpoint options w = Some (outcome, w') /\
    if headers_accepted config options
    then new_events w w' =
           backoff_trace (build_request config endpoint options) (retryDelay config) 0
             (attempts w w' - 1) /\
         (1 <= attempts w w' <= S (max_retries config))%nat
    else new_events w w' = [] /\ attempts w w' = 0%nat /\ w' = w /\
         exists name value,
           Headers.accepts name value = false /\
           outcome = Throw (ExnOther (header_error platform name value)).
Proof.
  destruct (headers_accepted config options) eqn:Hacc.
  - rewrite request_run by exact Hacc. do 2 eexists. split; [reflexivity |].
    unfold new_events, attempts. cbn [fetched log].
    pose proof (leading_retryable_le server (fetched w) (max_retries config)).
    set (k := leading_retryable server (fetched w) (max_retries config)) in *.
    replace (S (fetched w + k) - fetched w - 1)%nat with k by lia.
    split; [apply drop_app_length | lia].
  - destruct (request_rejected platform ERROR_CODES server config endpoint options w Hacc)
      as (name & value & _ & Hno & Hreq).
    exists (Throw (ExnOther (header_error platform name value))), w.
    split; [exact Hreq |]. unfold new_events, attempts.
    split; [apply drop_all |]. split; [lia |]. split; [reflexivity |]. eauto.
Qed.

(** The waits of a dispatch add up to [retryDelay * (1 + 2 + ... + k)]
    for its [k] retries; with a delay and a number of retries that are not
    negative, to at most [retryDelay * (1 + ... + retryAttempts)]. *)
Theorem dispatch_total_wait config endpoint options w :
  exists outcome w',
    request platform ERROR_CODES server config endpoint options w = Some (outcome, w') /\
    2 * total_wait (new_events w w') =
      retryDelay config * (Z.of_nat (attempts w w' - 1) * Z.of_nat (attempts w w')) /\
    (0 <= retryDelay config -> 0 <= retryAttempts config ->
     2 * total_wait (new_events w w') <=
       retryDelay config * (retryAttempts config * (retryAttempts config + 1))).
Proof.
  destruct (request_new_events config endpoint options w)
    as (outcome & w' & Hreq & Hrun).
  exists outcome, w'. split; [exact Hreq |].
  destruct (headers_accepted config options).
  - destruct Hrun as [Hnew Hatt]. rewrite Hnew, total_wait_backoff_trace.
    unfold max_retries in Hatt. split; [f_equal; lia |].
    intros Hd HR.
    assert (Z.of_nat (attempts w w' - 1) <= retryAttempts config) as Hk by lia.
    nia.
  - destruct Hrun as (-> & -> & _). cbn [total_wait]. split; [lia | intros; nia].
Qed.

End DispatchLog.

Lemma dispatch_total_wait_witness :
  exists outcome w',
    request sample_platform sample_codes server_recovers sample_config "query" sample_post World_init
      = Some (outcome, w') /\
    total_wait (new_events World_init w') = 300.
Proof.
  destruct (dispatch_total_wait sample_platform sample_codes server_recovers sample_config "query"
              sample_post World_init) as (outcome & w' & Hreq & Hsum & _).
  exists outcome, w'. split; [exact Hreq |].
  assert (attempts World_init w' = 3%nat) as Hatt.
  { vm_compute in Hreq. injection Hreq as _ <-. reflexivity. }
  rewrite Hatt in Hsum. change (retryDelay sample_config) with 100 in Hsum. lia.
Defined.

(** ** [postText] and [postFile] *)

(** A content type given as the only header of the caller is sent as
    [Headers] normalizes it. *)
Lemma sent_headers_explicit_content_type config method body contentType :
  let options := {| method := method; body := body;
                    headers := Some [("Content-Type", contentType)] |} in
  headers_accepted config options = true ->
  Headers.get (sent_headers config options) "Content-Type" =
  Some (Headers.normalize contentType).
Proof.
  intros options Hacc.
  destruct (sent_headers_get config options "Content-Type" Hacc) as (caller & Hcaller & ->).
  unfold caller_headers, options in Hcaller. cbn [headers] in Hcaller.
  rewrite Headers_new_single in Hcaller.
  destruct (Headers.accepts "Content-Type" contentType); [| discriminate Hcaller].
  injection Hcaller as <-.
  rewrite lower_Content_Type, lookup_singleton_eq.
  unfold overlay_value. change (String.eqb "content-type" "set-cookie") with false.
  cbn match. rewrite combine_single, normalize_idemp. reflexivity.
Qed.

(** Without a header of the caller, a body that is no string gets no
    content type. *)
Lemma sent_headers_no_headers_binary config method (file : BodyInit) :
  (forall s, file <> BodyString s) ->
  let options := {| method := method; body := Some file; headers := Some [] |} in
  headers_accepted config options = true ->
  Headers.get (sent_headers config options) "Content-Type" = None.
Proof.
  intros Hfile options Hacc.
  destruct (sent_headers_get config options "Content-Type" Hacc) as (caller & Hcaller & ->).
  unfold caller_headers, options in Hcaller. cbn in Hcaller. injection Hcaller as <-.
  rewrite lookup_empty, lower_Content_Type. cbn [body options].
  destruct file as [s | |]; [destruct (Hfile s); reflexivity | reflexivity..].
Qed.

Section Wrappers.

Context (platform : Platform) (ERROR_CODES : ErrorCodes)
  (server : nat -> FetchResult).

(** Every request of a dispatch is the one built from its arguments, with
    headers that were accepted. *)
Lemma request_requests config endpoint options w :
  exists outcome w',
    request platform ERROR_CODES server config endpoint options w = Some (outcome, w') /\
    forall r, r ∈ requests_of (new_events w w') ->
              headers_accepted config options = true /\
              r = build_request config endpoint options.
Proof.
  destruct (request_new_events platform ERROR_CODES server config endpoint options w)
    as (outcome & w' & Hreq & Hrun).
  exists outcome, w'. split; [exact Hreq |].
  intros r. destruct (headers_accepted config options).
  - destruct Hrun as [-> _]. rewrite requests_of_backoff_trace.
    intros Hr. apply elem_of_replicate in Hr as [-> _]. split; reflexivity.
  - destruct Hrun as [-> _]. cbn. intros Hr. apply elem_of_nil in Hr. destruct Hr.
Qed.

(** [postText] sends the text with the content type it was given,
    [text/plain] when it was given none, and never labels it as JSON;
    [postFile] sends a file or a blob with the content type it was given
    and with no content type when it was given none or an empty one.  The
    content type is sent as [Headers] normalizes it, without white space
    around it. *)
Theorem postText_postFile_content_type config endpoint w :
  (forall text contentType,
      exists outcome w',
        postText platform ERROR_CODES server config endpoint text contentType w
          = Some (outcome, w') /\
        forall r, r ∈ requests_of (new_events w w') ->
          req_method r = Some "POST" /\
          req_body r = Some (BodyString text) /\
          Headers.get (req_headers r) "Content-Type"
            = Some (Headers.normalize (default "text/plain" contentType))) /\
  (forall file contentType,
      (forall s, file <> BodyString s) ->
      exists outcome w',
        postFile platform ERROR_CODES server config endpoint file contentType w
          = Some (outcome, w') /\
        forall r, r ∈ requests_of (new_events w w') ->
          req_method r = Some "POST" /\
          req_body r = Some file /\
          Headers.get (req_headers r) "Content-Type"
            = match contentType with
              | Some ct => if String.eqb ct "" then None
                           else Some (Headers.normalize ct)
              | None => None
              end).
Proof.
  split.
  - intros text contentType. unfold postText.
    destruct (request_requests config endpoint
                {| method := Some "POST"; body := Some (BodyString text);
                   headers := Some [("Content-Type", default "text/plain" contentType)] |}
                w) as (outcome & w' & Hreq & Hall).
    exists outcome, w'. split; [exact Hreq |].
    intros r Hr. destruct (Hall r Hr) as [Hacc ->].
    cbn [build_request req_method req_body req_headers].
    repeat split. apply sent_headers_explicit_content_type, Hacc.
  - intros file contentType Hfile. unfold postFile.
    match goal with
    | |- context [makeRequest _ _ _ _ _ ?o _ _] =>
        destruct (request_requests config endpoint o w) as (outcome & w' & Hreq & Hall)
    end.
    exists outcome, w'. split; [exact Hreq |].
    intros r Hr. destruct (Hall r Hr) as [Hacc ->].
    cbn [build_request req_method req_body req_headers].
    repeat split.
    destruct contentType as [ct |]; [destruct (String.eqb ct "") |].
    + apply sent_headers_no_headers_binary; assumption.
    + apply sent_headers_explicit_content_type, Hacc.
    + apply sent_headers_no_headers_binary; assumption.
Qed.

End Wrappers.

Lemma postText_postFile_content_type_witness :
  exists outcome w',
    postFile sample_platform sample_codes server_recovers sample_config "files"
      (BodyBlob "image/png" [137; 80; 78; 71]) None World_init = Some (outcome, w') /\
    forall r, r ∈ requests_of (new_events World_init w') ->
      req_method r = Some "POST" /\
      req_body r = Some (BodyBlob "image/png" [137; 80; 78; 71]) /\
      Headers.get (req_headers r) "Content-Type" = None.
Proof.
  apply (proj2 (postText_postFile_content_type sample_platform sample_codes server_recovers
                  sample_config "files" World_init)).
  discriminate.
Defined.

(** ** [JSON.stringify] and the JSON verbs *)

Lemma pretty_N_go_nonempty x s : s <> "" -> pretty_N_go x s <> "".
Proof.
  revert s. induction (N.lt_wf_0 x) as [x _ IH]; intros s Hs.
  destruct (decide (x = 0)%N) as [-> | Hx].
  - rewrite pretty_N_go_0. exact Hs.
  - rewrite pretty_N_go_step by lia. apply IH; [apply N.div_lt; lia | discriminate].
Qed.

Lemma pretty_N_nonempty (x : N) : pretty x <> "".
Proof.
  unfold pretty, pretty_N. destruct (decide (x = 0)%N) as [-> | Hx]; [discriminate |].
  assert (0 < x)%N as Hpos by lia.
  rewrite pretty_N_go_step by exact Hpos. apply pretty_N_go_nonempty. discriminate.
Qed.

Lemma pretty_Z_nonempty (n : Z) : pretty n <> "".
Proof.
  destruct n as [| p | p]; [discriminate | apply pretty_N_nonempty | discriminate].
Qed.

(** [JSON.stringify] of a truthy value is a string that is not empty. *)
Lemma JSON_stringify_truthy v :
  truthy v = true -> exists s, JSON_stringify v = Some s /\ s <> "".
Proof.
  destruct v as [| | [] | n | s | elems | props]; cbn [truthy JSON_stringify];
    intros Hv; try discriminate Hv; eexists; (split; [reflexivity |]);
    try discriminate.
  apply pretty_Z_nonempty.
Qed.

Lemma json_body_truthy data :
  truthy data = true ->
  exists s, JSON_stringify data = Some s /\ s <> "" /\
            json_body data = Some (BodyString s) /\
            body_is_present_string (json_body data) = true.
Proof.
  intros Hdata. destruct (JSON_stringify_truthy data Hdata) as (s & Hs & Hne).
  exists s. unfold json_body. rewrite Hdata, Hs. cbn.
  repeat split; try assumption.
  destruct (String.eqb_spec s ""); [contradiction | reflexivity].
Qed.

(** Without headers of the caller, the content type of an accepted
    request is the JSON default of a body that is present and a string. *)
Lemma sent_headers_default_content_type config options :
  headers options = None ->
  headers_accepted config options = true ->
  Headers.get (sent_headers config options) "Content-Type" =
  if body_is_present_string (body options) then Some "application/json" else None.
Proof.
  intros Hnone Hacc.
  destruct (sent_headers_get config options "Content-Type" Hacc) as (caller & Hcaller & ->).
  unfold caller_headers in Hcaller. rewrite Hnone in Hcaller. injection Hcaller as <-.
  rewrite lookup_empty, lower_Content_Type.
  change (String.eqb "content-type" "content-type") with true.
  change (String.eqb "content-type" "authorization") with false.
  destruct (body_is_present_string (body options)); reflexivity.
Qed.

Lemma sent_headers_json config method data :
  let options := {| method := method; body := json_body data; headers := None |} in
  headers_accepted config options = true ->
  Headers.get (sent_headers config options) "Content-Type" =
  if truthy data then Some "application/json" else None.
Proof.
  intros options Hacc.
  rewrite (sent_headers_default_content_type config options eq_refl Hacc).
  cbn [body options]. destruct (truthy data) eqn:Hdata.
  - destruct (json_body_truthy data Hdata) as (s & _ & _ & _ & ->). reflexivity.
  - unfold json_body. rewrite Hdata. reflexivity.
Qed.

Section VerbFacts.

Context (platform : Platform) (ERROR_CODES : ErrorCodes)
  (server : nat -> FetchResult).

Lemma json_verb_requests config endpoint verb data w :
  exists outcome w',
    makeRequest platform ERROR_CODES server config endpoint
      {| method := Some verb; body := json_body data; headers := None |} 0 w
      = Some (outcome, w') /\
    forall r, r ∈ requests_of (new_events w w') ->
      req_method r = Some verb /\
      (truthy data = true ->
       exists s, JSON_stringify data = Some s /\ s <> "" /\
                 req_body r = Some (BodyString s) /\
                 Headers.get (req_headers r) "Content-Type" = Some "application/json") /\
      (truthy data = false ->
       req_body r = None /\ Headers.get (req_headers r) "Content-Type" = None).
Proof.
  destruct (request_requests platform ERROR_CODES server config endpoint
              {| method := Some verb; body := json_body data; headers := None |} w)
    as (outcome & w' & Hreq & Hall).
  exists outcome, w'. split; [exact Hreq |].
  intros r Hr. destruct (Hall r Hr) as [Hacc ->].
  cbn [build_request req_method req_body req_headers].
  rewrite (sent_headers_json config (Some verb) data Hacc). split; [reflexivity |]. split.
  - intros Hdata. destruct (json_body_truthy data Hdata) as (s & Hs & Hne & Hbody & _).
    exists s. rewrite Hdata. auto.
  - intros Hdata. unfold json_body. rewrite Hdata. auto.
Qed.

(** [post], [put] and [patch] send the JSON text of truthy data, which is
    never empty, as [application/json]; for falsy data ([undefined],
    [null], [false], [0], the empty string) they send no body and no
    content type. *)
Theorem json_verbs_body config endpoint data w :
  let sends verb call :=
    exists outcome w',
      call = Some (outcome, w') /\
      forall r, r ∈ requests_of (new_events w w') ->
        req_method r = Some verb /\
        (truthy data = true ->
         exists s, JSON_stringify data = Some s /\ s <> "" /\
                   req_body r = Some (BodyString s) /\
                   Headers.get (req_headers r) "Content-Type"
                     = Some "application/json") /\
        (truthy data = false ->
         req_body r = None /\ Headers.get (req_headers r) "Content-Type" = None) in
  sends "POST" (ApiClient.post platform ERROR_CODES server config endpoint data w) /\
  sends "PUT" (ApiClient.put platform ERROR_CODES server config endpoint data w) /\
  sends "PATCH" (ApiClient.patch platform ERROR_CODES server config endpoint data w).
Proof.
  cbv zeta. unfold ApiClient.post, ApiClient.put, ApiClient.patch.
  split; [| split]; apply json_verb_requests.
Qed.

End VerbFacts.

Lemma json_verbs_body_witness :
  exists outcome w',
    ApiClient.post sample_platform sample_codes server_recovers sample_config "orgs/10/kbs/48/query"
      (VObj [("sql", VStr "SELECT 1")]) World_init = Some (outcome, w') /\
    forall r, r ∈ requests_of (new_events World_init w') ->
      req_body r = Some (BodyString ("{" +:+ json_quote "sql" +:+ ":"
                                     +:+ json_quote "SELECT 1" +:+ "}")) /\
      Headers.get (req_headers r) "Content-Type" = Some "application/json".
Proof.
  destruct (proj1 (json_verbs_body sample_platform sample_codes server_recovers sample_config
                     "orgs/10/kbs/48/query" (VObj [("sql", VStr "SELECT 1")]) World_init))
    as (outcome & w' & Hreq & Hall).
  exists outcome, w'. split; [exact Hreq |].
  intros r Hr. destruct (Hall r Hr) as (_ & Htruthy & _).
  destruct (Htruthy eq_refl) as (s & Hs & _ & Hbody & Hct).
  injection Hs as <-. split; [exact Hbody | exact Hct].
Defined.

(** ** [buildQueryString] *)

Lemma count_char_app c a b :
  count_char c (a +:+ b) = (count_char c a + count_char c b)%nat.
Proof.
  induction a as [| x a IH]; [reflexivity |].
  change (String x a +:+ b) with (String x (a +:+ b)).
  cbn [count_char]. rewrite IH. lia.
Qed.

Lemma all_chars_app P a b :
  all_chars P (a +:+ b) = (all_chars P a && all_chars P b)%bool.
Proof.
  induction a as [| x a IH]; [reflexivity |].
  change (String x a +:+ b) with (String x (a +:+ b)).
  cbn [all_chars]. rewrite IH. apply andb_assoc.
Qed.

Lemma count_char_all_chars P c s :
  all_chars P s = true -> P c = false -> count_char c s = 0%nat.
Proof.
  intros Hs Hc. induction s as [| x s IH]; [reflexivity |].
  cbn [all_chars] in Hs. apply andb_prop in Hs as [Hx Hs].
  cbn [count_char]. rewrite IH by exact Hs.
  destruct (Ascii.eqb_spec x c) as [-> | _]; [congruence | reflexivity].
Qed.








Lemma append_empty_r s : s +:+ "" = s.
Proof.
  induction s as [| c s IH]; [reflexivity |].
  change (String c s +:+ "") with (String c (s +:+ "")). rewrite IH. reflexivity.
Qed.

Lemma buildQueryString_none (params : list (string * value)) :
  Forall (fun kv => nullish (snd kv) = true) params -> "" = buildQueryString params.
Proof.
  intros Hall. unfold buildQueryString.
  assert (query_pairs params = []) as ->; [| reflexivity].
  induction Hall as [| [key v] params Hv _ IH]; [reflexivity |].
  destruct v; cbn in Hv; try discriminate Hv; exact IH.
Qed.

Section GetFacts.

Context (platform : Platform) (ERROR_CODES : ErrorCodes)
  (server : nat -> FetchResult).

(** [get] and [delete] send no body and no content type; [get] asks for
    the endpoint followed by the query string, and for the bare endpoint
    when there are no parameters or none that holds a value. *)
Theorem get_delete_requests config endpoint params w :
  (exists outcome w',
      ApiClient.get platform ERROR_CODES server config endpoint params w = Some (outcome, w') /\
      forall r, r ∈ requests_of (new_events w w') ->
        req_method r = Some "GET" /\ req_body r = None /\
        Headers.get (req_headers r) "Content-Type" = None /\
        req_url r =
          build_url config
            (endpoint +:+ match params with Some p => buildQueryString p | None => "" end) /\
        ((forall p, params = Some p -> Forall (fun kv => nullish (snd kv) = true) p) ->
         req_url r = build_url config endpoint)) /\
  (exists outcome w',
      ApiClient.delete platform ERROR_CODES server config endpoint w = Some (outcome, w') /\
      forall r, r ∈ requests_of (new_events w w') ->
        req_method r = Some "DELETE" /\ req_body r = None /\
        Headers.get (req_headers r) "Content-Type" = None /\
        req_url r = build_url config endpoint).
Proof.
  split.
  - unfold ApiClient.get.
    destruct (match params with Some p => buildQueryString_throws p | None => false end).
    { exists (Throw (ExnOther (conversion_error platform))), w. split; [reflexivity |].
      unfold new_events. rewrite drop_all. intros r Hr. apply elem_of_nil in Hr. destruct Hr. }
    match goal with
    | |- context [makeRequest _ _ _ _ ?e ?o _ _] =>
        destruct (request_requests platform ERROR_CODES server config e o w)
          as (outcome & w' & Hreq & Hall)
    end.
    exists outcome, w'. split; [exact Hreq |].
    intros r Hr. destruct (Hall r Hr) as [Hacc ->].
    cbn [build_request req_method req_body req_headers req_url].
    split; [reflexivity |]. split; [reflexivity |].
    split; [apply sent_headers_default_content_type; [reflexivity | exact Hacc] |].
    split; [reflexivity |].
    intros Hnull. destruct params as [p |].
    + specialize (Hnull p eq_refl).
      destruct (buildQueryString_none p Hnull). rewrite append_empty_r. reflexivity.
    + rewrite append_empty_r. reflexivity.
  - unfold ApiClient.delete.
    destruct (request_requests platform ERROR_CODES server config endpoint
                {| method := Some "DELETE"; body := None; headers := None |} w)
      as (outcome & w' & Hreq & Hall).
    exists outcome, w'. split; [exact Hreq |].
    intros r Hr. destruct (Hall r Hr) as [Hacc ->].
    cbn [build_request req_method req_body req_headers req_url].
    split; [reflexivity |]. split; [reflexivity |].
    split; [apply sent_headers_default_content_type; [reflexivity | exact Hacc] | reflexivity].
Qed.

End GetFacts.

(** ** [QueryService] *)

Section QueryFacts.

Context (platform : Platform) (ERROR_CODES : ErrorCodes)
  (server : nat -> FetchResult).

(** A dispatch with accepted headers ends with what its last attempt
    settles to, and every request it makes is the one built from its
    arguments. *)
Lemma request_outcome config endpoint options w :
  headers_accepted config options = true ->
  exists w',
    request platform ERROR_CODES server config endpoint options w =
      Some (settle platform ERROR_CODES (server (last_attempt server config w)), w') /\
    (forall r, r ∈ requests_of (new_events w w') ->
               r = build_request config endpoint options) /\
    (1 <= attempts w w' <= S (max_retries config))%nat.
Proof.
  intros Hacc. rewrite request_run by exact Hacc. eexists. split; [reflexivity |].
  unfold new_events, attempts. cbn [fetched log].
  pose proof (leading_retryable_le server (fetched w) (max_retries config)).
  split; [| lia].
  intros r. rewrite drop_app_length, requests_of_backoff_trace.
  intros Hr. apply elem_of_replicate in Hr as [-> _]. reflexivity.
Qed.

(** A dispatch whose bearer credential is refused throws the [TypeError]
    of [Headers] and makes no request. *)
Lemma request_key_rejected config endpoint options w :
  key_accepted config = false ->
  request platform ERROR_CODES server config endpoint options w =
  Some (Throw (ExnOther (header_error platform "Authorization"
                           ("Bearer " +:+ apiKey config))), w).
Proof.
  intros Hkey. apply makeRequest_fuel_rejected.
  unfold build_headers. rewrite Headers_new_single.
  unfold key_accepted in Hkey. rewrite Hkey. reflexivity.
Qed.

(** A dispatch whose headers are accepted exactly when the bearer
    credential is: what it ends with, and the requests it makes. *)
Lemma request_ends config endpoint options w :
  headers_accepted config options = key_accepted config ->
  exists outcome w',
    request platform ERROR_CODES server config endpoint options w = Some (outcome, w') /\
    (forall r, r ∈ requests_of (new_events w w') ->
               headers_accepted config options = true /\
               r = build_request config endpoint options) /\
    if key_accepted config
    then outcome = settle platform ERROR_CODES (server (last_attempt server config w)) /\
         (1 <= attempts w w' <= S (max_retries config))%nat
    else w' = w /\
         outcome = Throw (ExnOther (header_error platform "Authorization"
                                      ("Bearer " +:+ apiKey config))).
Proof.
  intros Hsame. destruct (key_accepted config) eqn:Hkey.
  - destruct (request_outcome config endpoint options w Hsame) as (w' & Hreq & Hall & Hatt).
    eexists _, w'. split; [exact Hreq |]. split; [| split; [reflexivity | exact Hatt]].
    intros r Hr. split; [exact Hsame | apply Hall, Hr].
  - rewrite (request_key_rejected config endpoint options w Hkey).
    eexists _, w. split; [reflexivity |]. split; [| split; reflexivity].
    unfold new_events. rewrite drop_all. intros r Hr. apply elem_of_nil in Hr. destruct Hr.
Qed.

Lemma settle_answered result :
  (answered result = true ->
   exists response, settle platform ERROR_CODES result = Return response) /\
  (answered result = false ->
   exists error, settle platform ERROR_CODES result = Throw error).
Proof.
  unfold answered, settle.
  destruct result as [[ty name msg | v] | response].
  - split; [discriminate |]. intros _. cbn.
    destruct (String.eqb name "AbortError"), ty; eauto.
  - split; [discriminate |]. intros _. cbn. unfold throw_unknown.
    destruct (Thrown_toString_throws (NonError v)); eauto.
  - destruct (ok response) eqn:Hok.
    + unfold try_block. rewrite Hok. cbn [negb andb].
      destruct (json response) as [data | [ty name msg | v]].
      * split; [eauto | discriminate].
      * split; [discriminate |]. intros _. cbn.
        destruct (String.eqb name "AbortError"), ty; eauto.
      * split; [discriminate |]. intros _. cbn. unfold throw_unknown.
        destruct (Thrown_toString_throws (NonError v)); eauto.
    + rewrite (try_block_not_ok platform response Hok).
      split; [discriminate |]. intros _.
      destruct (TimbalApiError.throws (error_message response)); cbn; eauto.
Qed.

Lemma missing_false v : missing v = false -> exists s, v = Some s /\ s <> "".
Proof.
  destruct v as [s |]; cbn; [| discriminate].
  intros Hs. exists s. split; [reflexivity |]. apply String.eqb_neq, Hs.
Qed.

Lemma missing_Some s : s <> "" -> missing (Some s) = false.
Proof. intros Hs. cbn. apply String.eqb_neq, Hs. Qed.

(** [query] makes no request when a parameter is missing: when the call
    gives it as the empty string, whatever the default, or does not give
    it and the default is absent or empty.  It throws a plain [Error] and
    leaves the environment as it was. *)
Theorem query_missing_parameter config this options w key :
  match QueryService.lookup key options with
  | Some v => v = ""
  | None => QueryService.lookup key this = None \/ QueryService.lookup key this = Some ""
  end ->
  exists message,
    QueryService.query platform ERROR_CODES server config this options w =
      Some (Throw (plain_Error message), w).
Proof.
  intros Hkey.
  assert (missing (QueryService.resolveDefault this key (QueryService.lookup key options))
          = true) as Hmissing.
  { unfold QueryService.resolveDefault.
    destruct (QueryService.lookup key options) as [v |].
    - subst v. reflexivity.
    - destruct key, Hkey as [Hk | Hk]; cbn in Hk; rewrite Hk; reflexivity. }
  unfold QueryService.query.
  destruct (missing (QueryService.resolveDefault this QueryService.KorgId _)) eqn:Ho;
    [eauto |].
  destruct (missing (QueryService.resolveDefault this QueryService.KkbId _)) eqn:Hk;
    [eauto |].
  destruct (missing (QueryService.resolveDefault this QueryService.Ksql _)) eqn:Hs;
    [eauto |].
  destruct key; cbn [QueryService.lookup] in Hmissing; congruence.
Qed.

(** With its three parameters resolved and not empty, [query] posts
    [{"sql": ...}] as JSON to [orgs/<orgId>/kbs/<kbId>/query].  With a
    bearer credential that [Headers] accepts it makes between one and
    [1 + retryAttempts] attempts and ends as the dispatch ends: with the
    [data] of the envelope that the last attempt settles to, or with what
    that attempt throws, a [TimbalApiError] or the [TypeError] of a thrown
    value without a primitive value.  With a credential that [Headers]
    refuses it makes no request and throws the [TypeError] of
    [Headers]. *)
Theorem query_posts_sql config this options w o k s :
  QueryService.resolveDefault this QueryService.KorgId (QueryService.orgId options)
    = Some o ->
  QueryService.resolveDefault this QueryService.KkbId (QueryService.kbId options)
    = Some k ->
  QueryService.resolveDefault this QueryService.Ksql (QueryService.sql options)
    = Some s ->
  o <> "" -> k <> "" -> s <> "" ->
  exists outcome w',
    QueryService.query platform ERROR_CODES server config this options w = Some (outcome, w') /\
    (forall r, r ∈ requests_of (new_events w w') ->
       req_method r = Some "POST" /\
       req_url r = build_url config ("orgs/" +:+ o +:+ "/kbs/" +:+ k +:+ "/query") /\
       req_body r =
         Some (BodyString ("{" +:+ json_quote "sql" +:+ ":" +:+ json_quote s +:+ "}")) /\
       Headers.get (req_headers r) "Content-Type" = Some "application/json") /\
    (key_accepted config = true ->
     outcome =
       match settle platform ERROR_CODES (server (last_attempt server config w)) with
       | Return response => Return (ApiResponse.data response)
       | Throw error => Throw error
       end /\
     (1 <= attempts w w' <= S (max_retries config))%nat /\
     ((exists data, outcome = Return data) \/
      (exists error, outcome = Throw (ExnApi error)) \/
      outcome = Throw (ExnOther (conversion_error platform)))) /\
    (key_accepted config = false ->
     w' = w /\
     outcome = Throw (ExnOther (header_error platform "Authorization"
                                  ("Bearer " +:+ apiKey config)))).
Proof.
  intros Ho Hk Hs Hone Hkne Hsne. unfold QueryService.query.
  rewrite Ho, Hk, Hs, !missing_Some by assumption. cbn [default].
  unfold ApiClient.post.
  match goal with
  | |- context [makeRequest _ _ _ _ ?e ?o _ _] => set (endpoint := e); set (opts := o)
  end.
  destruct (key_accepted config) eqn:Hkey.
  - assert (headers_accepted config opts = true) as Hacc
      by (rewrite headers_accepted_no_headers by reflexivity; exact Hkey).
    destruct (request_outcome config endpoint opts w Hacc) as (w' & Hreq & Hall & Hatt).
    unfold request in Hreq. rewrite Hreq.
    set (final := settle platform ERROR_CODES (server (last_attempt server config w))).
    exists (match final with Return response => Return (ApiResponse.data response)
                        | Throw error => Throw error end), w'.
    split; [destruct final; reflexivity |]. split; [| split; [| discriminate]].
    + intros r Hr. rewrite (Hall r Hr).
      cbn [build_request req_method req_body req_headers req_url].
      split; [reflexivity |]. split; [reflexivity |]. split; [reflexivity |].
      unfold opts. rewrite sent_headers_json by exact Hacc. reflexivity.
    + intros _. split; [reflexivity |]. split; [exact Hatt |].
      destruct (settle_classified platform ERROR_CODES (server (last_attempt server config w)))
        as [(data & status & Hfinal) | [(error & Hfinal) | (Hfinal & _)]];
        fold final in Hfinal; rewrite Hfinal; eauto.
  - pose proof (request_key_rejected config endpoint opts w Hkey) as Hreq.
    unfold request in Hreq. rewrite Hreq.
    eexists _, w. split; [reflexivity |]. split; [| split; [discriminate | auto]].
    unfold new_events. rewrite drop_all. intros r Hr. apply elem_of_nil in Hr. destruct Hr.
Qed.

(** With a bearer credential that [Headers] accepts, [testConnection]
    makes between one and [1 + retryAttempts] attempts and answers [true]
    exactly when the last of them got a response with a success status
    and a JSON body; any other end, an HTTP error status included, gives
    [false].  With a credential that [Headers] refuses it answers [false]
    without a request. *)
Theorem testConnection_answered config this w :
  exists w',
    QueryService.testConnection platform ERROR_CODES server config this w =
      Some (key_accepted config && answered (server (last_attempt server config w)), w') /\
    if key_accepted config
    then (1 <= attempts w w' <= S (max_retries config))%nat
    else w' = w.
Proof.
  assert (forall endpoint opts,
             headers opts = None ->
             exists w',
               request platform ERROR_CODES server config endpoint opts w =
                 Some (if key_accepted config
                       then settle platform ERROR_CODES (server (last_attempt server config w))
                       else Throw (ExnOther (header_error platform "Authorization"
                                               ("Bearer " +:+ apiKey config))), w') /\
               if key_accepted config
               then (1 <= attempts w w' <= S (max_retries config))%nat
               else w' = w) as Hrun.
  { intros endpoint opts Hnone. destruct (key_accepted config) eqn:Hkey.
    - assert (headers_accepted config opts = true) as Hacc
        by (rewrite headers_accepted_no_headers by exact Hnone; exact Hkey).
      destruct (request_outcome config endpoint opts w Hacc) as (w' & Hreq & _ & Hatt).
      eauto.
    - exists w. split; [apply request_key_rejected; assumption | reflexivity]. }
  assert (forall A (final : Completion A),
             (answered (server (last_attempt server config w)) = true ->
              exists response, final = Return response) ->
             (answered (server (last_attempt server config w)) = false ->
              exists error, final = Throw error) ->
             match final with Return _ => true | Throw _ => false end =
             answered (server (last_attempt server config w))) as Hans.
  { intros A final Htrue Hfalse.
    destruct (answered (server (last_attempt server config w)));
      [destruct Htrue as [? ->] | destruct Hfalse as [? ->]]; reflexivity. }
  pose proof (settle_answered (server (last_attempt server config w))) as [Htrue Hfalse].
  unfold QueryService.testConnection.
  destruct (negb (missing (QueryService.orgId (QueryService.getDefaults this)))
            && negb (missing (QueryService.kbId (QueryService.getDefaults this))))
    eqn:Hdefaults.
  - apply andb_prop in Hdefaults as [Ho Hk].
    apply negb_true_iff, missing_false in Ho as (o & Ho & Hone).
    apply negb_true_iff, missing_false in Hk as (k & Hk & Hkne).
    cbn [QueryService.getDefaults QueryService.orgId QueryService.kbId] in Ho, Hk.
    unfold QueryService.query, QueryService.resolveDefault.
    cbn [QueryService.orgId QueryService.kbId QueryService.sql].
    rewrite Ho, Hk, !missing_Some by (assumption || discriminate). cbn [missing String.eqb].
    cbn [default]. unfold ApiClient.post.
    match goal with
    | |- context [makeRequest _ _ _ _ ?e ?opts _ _] =>
        destruct (Hrun e opts eq_refl) as (w' & Hreq & Hatt);
        unfold request in Hreq; rewrite Hreq
    end.
    exists w'. split; [| exact Hatt].
    destruct (key_accepted config); [| reflexivity]. cbn [andb].
    rewrite <- (Hans _ _ Htrue Hfalse).
    destruct (settle platform ERROR_CODES (server (last_attempt server config w)));
      reflexivity.
  - unfold ApiClient.get.
    match goal with
    | |- context [makeRequest _ _ _ _ ?e ?opts _ _] =>
        destruct (Hrun e opts eq_refl) as (w' & Hreq & Hatt);
        unfold request in Hreq; rewrite Hreq
    end.
    exists w'. split; [| exact Hatt].
    destruct (key_accepted config); [| reflexivity]. cbn [andb].
    rewrite <- (Hans _ _ Htrue Hfalse).
    destruct (settle platform ERROR_CODES (server (last_attempt server config w)));
      reflexivity.
Qed.

End QueryFacts.

(** A parameter is resolved from the call, then from the latest defaults
    that give it, then from the earlier ones; [setDefaults] never clears
    a default, and setting the same defaults again changes nothing. *)
Theorem setDefaults_precedence (this defaults : QueryService.QueryOptions)
    (key : QueryService.Key) (value : option string) :
  QueryService.resolveDefault (QueryService.setDefaults this defaults) key value =
    match value, QueryService.lookup key defaults with
    | Some v, _ => Some v
    | None, Some d => Some d
    | None, None => QueryService.lookup key this
    end /\
  (is_Some (QueryService.lookup key this) ->
   is_Some (QueryService.lookup key (QueryService.setDefaults this defaults))) /\
  QueryService.setDefaults (QueryService.setDefaults this defaults) defaults =
    QueryService.setDefaults this defaults /\
  QueryService.getDefaults (QueryService.setDefaults this defaults) =
    QueryService.setDefaults this defaults.
Proof.
  destruct this as [o k s], defaults as [o' k' s'].
  repeat split.
  - destruct value, key, o', k', s'; reflexivity.
  - destruct key, o', k', s'; cbn; eauto.
  - destruct o', k', s'; reflexivity.
Qed.

Lemma query_missing_parameter_witness :
  exists message,
    QueryService.query sample_platform sample_codes server_recovers sample_config tenant_defaults
      {| QueryService.orgId := Some ""; QueryService.kbId := None;
         QueryService.sql := Some "SELECT 1" |} World_init =
      Some (Throw (plain_Error message), World_init).
Proof.
  apply (query_missing_parameter sample_platform sample_codes server_recovers sample_config
           tenant_defaults _ World_init QueryService.KorgId).
  reflexivity.
Defined.

Lemma query_posts_sql_witness :
  exists outcome w',
    QueryService.query sample_platform sample_codes server_recovers sample_config tenant_defaults
      count_documents World_init = Some (outcome, w') /\
    (forall r, r ∈ requests_of (new_events World_init w') ->
       req_url r = "https://api.test.com/orgs/10/kbs/48/query") /\
    outcome = Return (VObj [("data", VArr [VObj [("count", VNum 5)]])]).
Proof.
  destruct (query_posts_sql sample_platform sample_codes server_recovers sample_config tenant_defaults
              count_documents World_init "10" "48" "SELECT COUNT(*) FROM documents"
              eq_refl eq_refl eq_refl)
    as (outcome & w' & Hq & Hreqs & Hout & _); try discriminate.
  exists outcome, w'. split; [exact Hq |]. split.
  - intros r Hr. destruct (Hreqs r Hr) as (_ & Hurl & _). exact Hurl.
  - destruct Hout as (Hout & _); [vm_compute; reflexivity | exact Hout].
Defined.

(** A response whose error cannot be built is tried again: with a 200
    on the second attempt, [testConnection] answers [true]. *)
Example testConnection_after_retry :
  exists w',
    QueryService.testConnection sample_platform sample_codes server_opaque_then_ok
      sample_config tenant_defaults World_init = Some (true, w') /\
    attempts World_init w' = 2%nat.
Proof. eexists. split; [vm_compute; reflexivity | reflexivity]. Qed.

(** With a key that [Headers] refuses, [testConnection] answers [false]
    and no request is made. *)
Example testConnection_broken_key :
  QueryService.testConnection sample_platform sample_codes server_recovers
    broken_key_config tenant_defaults World_init = Some (false, World_init).
Proof. vm_compute. reflexivity. Qed.

(** ** Message contents *)

Lemma str_is_eq x s : str_is x s = true -> x = VStr s.
Proof.
  destruct x; cbn; try discriminate. intros H. apply String.eqb_eq in H. congruence.
Qed.

Lemma field_object props key : field (VObj props) key = default VUndef (assoc key props).
Proof. reflexivity. Qed.

Lemma from_text_content text :
  MessageContentFactory_from (text_content text) = Some (text_content text).
Proof. reflexivity. Qed.

(** A content that already has a type other than [tool_result] is
    returned as it is. *)
Lemma from_typed props :
  has_type (VObj props) = true ->
  str_is (field (VObj props) "type") "tool_result" = false ->
  MessageContentFactory_from (VObj props) = Some (VObj props).
Proof.
  intros Htype Hnot. cbn [MessageContentFactory_from]. rewrite Htype, Hnot. reflexivity.
Qed.

Lemma in_tool_result_typed props :
  in_tool_result (VObj props) = true ->
  has_type (VObj props) = true /\
  str_is (field (VObj props) "type") "tool_result" = false.
Proof.
  unfold in_tool_result. rewrite field_object. cbn [has_type].
  destruct (assoc "type" props) as [ty |]; cbn [default]; [| discriminate].
  intros H. split; [reflexivity |].
  apply orb_prop in H as [H | H]; [apply orb_prop in H as [H | H] |];
    apply str_is_eq in H; rewrite H; reflexivity.
Qed.

Lemma from_in_tool_result props :
  in_tool_result (VObj props) = true ->
  MessageContentFactory_from (VObj props) = Some (VObj props).
Proof.
  intros H. destruct (in_tool_result_typed props H). apply from_typed; assumption.
Qed.

(** The [tool_result] case, with [obj.content] read as a property: the
    items are converted, then the [id]; the [TypeError] of either
    conversion ends the call. *)
Lemma from_tool_result props :
  str_is (field (VObj props) "type") "tool_result" = true ->
  MessageContentFactory_from (VObj props) =
  match from_each (as_array (field (VObj props) "content")),
        converted (js_or (field (VObj props) "id") (VStr "")) with
  | Some processedContent, Some id =>
      Some (VObj [("type", VStr "tool_result"); ("id", id);
                  ("content", VArr (filter (fun c => in_tool_result c = true)
                                      processedContent))])
  | _, _ => None
  end.
Proof.
  intros Htool. cbn [MessageContentFactory_from].
  rewrite Htool. cbn [negb]. rewrite andb_false_r.
  rewrite (str_is_eq _ _ Htool). cbn [str_is].
  change (String.eqb "tool_result" "text") with false.
  change (String.eqb "tool_result" "thinking") with false.
  change (String.eqb "tool_result" "file") with false.
  change (String.eqb "tool_result" "tool_use") with false.
  change (String.eqb "tool_result" "tool_result") with true.
  cbv iota.
  match goal with
  | |- match ?items with Some _ => _ | None => _ end = _ =>
      assert (items = from_each (as_array (field (VObj props) "content"))) as ->;
        [| reflexivity]
  end.
  rewrite field_object. clear Htool.
  induction props as [| [key x] props IH]; [reflexivity |].
  cbn [assoc]. destruct (String.eqb key "content"); [| exact IH].
  cbn [default].
  destruct x as [| | b | n | s | elems | ps]; reflexivity.
Qed.

(** An object with no [type] is written as JSON text. *)
Lemma from_untyped props :
  has_type (VObj props) = false ->
  MessageContentFactory_from (VObj props) =
  Some (text_content (default "" (JSON_stringify (VObj props)))).
Proof.
  intros Hnone. cbn [MessageContentFactory_from]. rewrite Hnone. cbn [andb].
  rewrite field_object. cbn [has_type] in Hnone.
  destruct (assoc "type" props); [discriminate Hnone |]. reflexivity.
Qed.

Lemma converted_Some x id :
  converted x = Some id -> String_throws x = false /\ id = VStr (ToString x).
Proof.
  unfold converted. destruct (String_throws x); [discriminate |].
  intros H. injection H as <-. split; reflexivity.
Qed.

(** The three ways in which [from] returns: the input itself, a text
    content, or the content built in the [tool_result] case. *)
Lemma from_cases v r :
  MessageContentFactory_from v = Some r ->
  (r = v /\ has_type v = true /\ str_is (field v "type") "tool_result" = false) \/
  (exists text, r = text_content text) \/
  (exists props processedContent,
      v = VObj props /\
      str_is (field v "type") "tool_result" = true /\
      from_each (as_array (field v "content")) = Some processedContent /\
      String_throws (js_or (field v "id") (VStr "")) = false /\
      r = VObj [("type", VStr "tool_result");
                ("id", VStr (ToString (js_or (field v "id") (VStr ""))));
                ("content", VArr (filter (fun c => in_tool_result c = true)
                                    processedContent))]).
Proof.
  destruct v as [| | b | n | s | elems | props];
    try (intros H; injection H as <-; right; left; eexists; reflexivity).
  destruct (has_type (VObj props)
            && negb (str_is (field (VObj props) "type") "tool_result")) eqn:Htyped.
  - apply andb_prop in Htyped as [Htype Hnot]. apply negb_true_iff in Hnot.
    rewrite from_typed by assumption. intros H. injection H as <-. auto.
  - destruct (str_is (field (VObj props) "type") "tool_result") eqn:Htool.
    + rewrite from_tool_result by exact Htool.
      destruct (from_each _) as [processedContent |] eqn:Hitems; [| discriminate].
      destruct (converted _) as [id |] eqn:Hid; [| discriminate].
      apply converted_Some in Hid as [Hid ->].
      intros H. injection H as <-. right. right. eauto 8.
    + rewrite andb_true_r in Htyped. rewrite from_untyped by exact Htyped.
      intros H. injection H as <-. right. left. eexists. reflexivity.
Qed.

(** Every result of [from] is an object. *)
Lemma from_is_object v r :
  MessageContentFactory_from v = Some r -> exists props, r = VObj props.
Proof.
  intros H. destruct v as [| | b | n | s | elems | props];
    try (injection H as <-; eexists; reflexivity).
  destruct (from_cases _ _ H) as [(-> & _) | [(text & ->) | (ps & items & _ & _ & _ & _ & ->)]];
    eexists; reflexivity.
Qed.

Lemma from_each_length items contents :
  from_each items = Some contents -> length contents = length items.
Proof.
  revert contents. induction items as [| x items IH]; intros contents; cbn [from_each].
  - intros H. injection H as <-. reflexivity.
  - destruct (MessageContentFactory_from x); [| discriminate].
    destruct (from_each items) as [cs |]; [| discriminate].
    intros H. injection H as <-. cbn [length]. rewrite (IH cs eq_refl). reflexivity.
Qed.

(** [map] ends in the [TypeError] of the first item that does not
    convert. *)
Lemma from_each_None items :
  from_each items = None ->
  exists item, item ∈ items /\ MessageContentFactory_from item = None.
Proof.
  induction items as [| x items IH]; cbn [from_each]; [discriminate |].
  destruct (MessageContentFactory_from x) eqn:Hx.
  - destruct (from_each items); [discriminate |]. intros _.
    destruct (IH eq_refl) as (item & Hin & Hitem).
    exists item. split; [right; exact Hin | exact Hitem].
  - intros _. exists x. split; [left | exact Hx].
Qed.

Lemma from_each_fixed items :
  Forall (fun c => MessageContentFactory_from c = Some c) items ->
  from_each items = Some items.
Proof.
  induction 1 as [| c items Hc _ IH]; [reflexivity |].
  cbn [from_each]. rewrite Hc, IH. reflexivity.
Qed.

Lemma from_each_strings texts :
  from_each (map VStr texts) = Some (map text_content texts).
Proof.
  induction texts as [| s texts IH]; [reflexivity |].
  cbn [map from_each MessageContentFactory_from]. rewrite IH. reflexivity.
Qed.

(** The contents that the [filter] of the [tool_result] case keeps
    convert to themselves. *)
Lemma Forall_filter_fixed items contents :
  from_each items = Some contents ->
  Forall (fun c => in_tool_result c = true /\ MessageContentFactory_from c = Some c)
    (filter (fun c => in_tool_result c = true) contents).
Proof.
  revert contents. induction items as [| x items IH]; intros contents; cbn [from_each].
  - intros H. injection H as <-. constructor.
  - destruct (MessageContentFactory_from x) as [c |] eqn:Hx; [| discriminate].
    destruct (from_each items) as [cs |]; [| discriminate].
    intros H. injection H as <-. rewrite filter_cons.
    destruct (decide (in_tool_result c = true)) as [Hc | Hc]; [| apply IH; reflexivity].
    constructor; [| apply IH; reflexivity]. split; [exact Hc |].
    destruct (from_is_object x c Hx) as [props ->]. apply from_in_tool_result, Hc.
Qed.

Lemma filter_fixed (l : list value) :
  Forall (fun c => in_tool_result c = true /\ MessageContentFactory_from c = Some c) l ->
  filter (fun c => in_tool_result c = true) l = l /\
  Forall (fun c => MessageContentFactory_from c = Some c) l.
Proof.
  induction 1 as [| c l [Hin Hfix] _ [IH1 IH2]]; [split; [reflexivity | constructor] |].
  rewrite filter_cons, IH1.
  destruct (decide (in_tool_result c = true)); [| contradiction].
  split; [reflexivity | constructor; assumption].
Qed.

Lemma ToString_or_empty (s : string) :
  ToString (js_or (VStr s) (VStr "")) = s.
Proof.
  unfold js_or. cbn [truthy].
  destruct (String.eqb_spec s "") as [-> | _]; reflexivity.
Qed.

Lemma String_throws_or_empty (s : string) :
  String_throws (js_or (VStr s) (VStr "")) = false.
Proof. unfold js_or. cbn [truthy]. destruct (negb (String.eqb s "")); reflexivity. Qed.

(** The [tool_result] case of [from].  It throws a [TypeError] exactly
    when an item of [content] does not convert or the [id] has no
    primitive value.  Otherwise the content of the result holds text,
    thinking and file contents only: what the items convert to is kept
    when it is one of these and dropped otherwise, a nested [tool_result]
    or a [tool_use] included. *)
Theorem tool_result_content props :
  str_is (field (VObj props) "type") "tool_result" = true ->
  let content := as_array (field (VObj props) "content") in
  let id := js_or (field (VObj props) "id") (VStr "") in
  match MessageContentFactory_from (VObj props) with
  | None =>
      (exists item, item ∈ content /\ MessageContentFactory_from item = None) \/
      String_throws id = true
  | Some result =>
      exists processedContent items,
        from_each content = Some processedContent /\
        String_throws id = false /\
        result = VObj [("type", VStr "tool_result"); ("id", VStr (ToString id));
                       ("content", VArr items)] /\
        items = filter (fun c => in_tool_result c = true) processedContent /\
        Forall (fun c => in_tool_result c = true /\
                         MessageContentFactory_from c = Some c) items /\
        length processedContent = length content /\
        (length items <= length content)%nat
  end.
Proof.
  intros Htool content id. rewrite from_tool_result by exact Htool.
  fold content id.
  destruct (from_each content) as [processedContent |] eqn:Hitems.
  - unfold converted. destruct (String_throws id) eqn:Hid; [right; reflexivity |].
    exists processedContent, (filter (fun c => in_tool_result c = true) processedContent).
    pose proof (from_each_length content processedContent Hitems) as Hlen.
    repeat split; try assumption.
    + apply (Forall_filter_fixed content), Hitems.
    + rewrite <- Hlen. apply length_filter.
  - left. apply from_each_None, Hitems.
Qed.

Lemma tool_result_content_witness :
  MessageContentFactory_from sample_tool_result =
  Some (VObj [("type", VStr "tool_result"); ("id", VStr "call_123");
              ("content",
               VArr [VObj [("type", VStr "thinking"); ("thinking", VStr "Processing...")];
                     text_content "Done!"; text_content "42"])]).
Proof.
  pose proof (tool_result_content
                [("type", VStr "tool_result"); ("id", VStr "call_123");
                 ("content",
                  VArr [VObj [("type", VStr "thinking"); ("thinking", VStr "Processing...")];
                        VStr "Done!";
                        VObj [("type", VStr "tool_use"); ("id", VStr "call_9")];
                        VObj [("type", VStr "tool_result"); ("id", VStr "inner")];
                        VNum 42])] eq_refl) as H.
  cbv zeta in H. fold sample_tool_result in H.
  destruct (MessageContentFactory_from sample_tool_result) as [result |] eqn:Hfrom.
  - destruct H as (processedContent & items & Hitems & _ & -> & -> & _).
    vm_compute in Hitems. injection Hitems as <-. reflexivity.
  - vm_compute in Hfrom. discriminate Hfrom.
Defined.

(** A [tool_result] whose [id] is an object with an own [toString] key:
    [from] throws. *)
Example tool_result_opaque_id :
  MessageContentFactory_from
    (VObj [("type", VStr "tool_result"); ("id", VObj [("toString", VNum 1)]);
           ("content", VStr "x")]) = None.
Proof. reflexivity. Qed.

(** [from] is idempotent where it returns: a converted content converts
    to itself, without a [TypeError]. *)
Theorem from_idempotent v result :
  MessageContentFactory_from v = Some result ->
  MessageContentFactory_from result = Some result.
Proof.
  intros Hfrom.
  destruct (from_cases v result Hfrom)
    as [(-> & _) | [(text & ->) | (props & processedContent & -> & _ & Hitems & _ & ->)]].
  - exact Hfrom.
  - apply from_text_content.
  - rewrite from_tool_result by reflexivity.
    set (name := ToString (js_or (field (VObj props) "id") (VStr ""))).
    set (items := filter (fun c => in_tool_result c = true) processedContent).
    rewrite !field_object.
    cbn [assoc String.eqb Ascii.eqb Bool.eqb default id as_array].
    destruct (filter_fixed items) as [Hfilter Hfixed].
    { apply (Forall_filter_fixed _ _ Hitems). }
    rewrite (from_each_fixed items Hfixed), Hfilter.
    unfold converted. rewrite String_throws_or_empty, ToString_or_empty. reflexivity.
Qed.

Lemma from_idempotent_witness :
  exists result,
    MessageContentFactory_from sample_tool_result = Some result /\
    MessageContentFactory_from result = Some result.
Proof.
  eexists. split; [vm_compute; reflexivity |].
  apply (from_idempotent sample_tool_result). vm_compute. reflexivity.
Defined.

(** The only contents [from] builds are text and [tool_result]: any
    other result is the input itself, so the cases of the [switch] for
    [text], [thinking], [file] and [tool_use] are never reached.  Every
    result has a [type]. *)
Theorem from_result_kinds v result :
  MessageContentFactory_from v = Some result ->
  has_type result = true /\
  (result = v \/
   (exists text, result = text_content text) \/
   str_is (field result "type") "tool_result" = true).
Proof.
  intros Hfrom.
  destruct (from_cases v result Hfrom)
    as [(-> & Htype & _) | [(text & ->) | (props & processedContent & _ & _ & _ & _ & ->)]].
  - split; [exact Htype | left; reflexivity].
  - split; [reflexivity | right; left; eexists; reflexivity].
  - split; [reflexivity | right; right; reflexivity].
Qed.

Lemma from_result_kinds_witness :
  exists result,
    MessageContentFactory_from sample_tool_result = Some result /\
    has_type result = true /\
    str_is (field result "type") "tool_result" = true.
Proof.
  destruct (MessageContentFactory_from sample_tool_result) as [result |] eqn:Hfrom.
  - exists result. split; [reflexivity |].
    destruct (from_result_kinds sample_tool_result result Hfrom) as [Htype _].
    split; [exact Htype |].
    vm_compute in Hfrom. injection Hfrom as <-. reflexivity.
  - vm_compute in Hfrom. discriminate Hfrom.
Defined.

(** ** [collectText] and [TimbalMessage.from] *)

Lemma append_assoc a b c : (a +:+ b) +:+ c = a +:+ (b +:+ c).
Proof.
  induction a as [| x a IH]; [reflexivity |].
  change (String x a +:+ b) with (String x (a +:+ b)).
  change (String x (a +:+ b) +:+ c) with (String x ((a +:+ b) +:+ c)).
  rewrite IH. reflexivity.
Qed.

Lemma existsb_filter (P : value -> bool) (l : list value) :
  existsb P l = match filter (fun c => P c = true) l with [] => false | _ => true end.
Proof.
  induction l as [| x l IH]; [reflexivity |].
  cbn [existsb]. rewrite filter_cons.
  destruct (decide (P x = true)) as [-> | Hx]; [reflexivity |].
  apply not_true_is_false in Hx. rewrite Hx. exact IH.
Qed.

Lemma concat_with_trailer (sep : string) (items : list string) :
  String.concat sep items +:+ (match items with [] => "" | _ => sep end) =
  foldr (fun s acc => s +:+ sep +:+ acc) "" items.
Proof.
  induction items as [| x [| y rest] IH]; [reflexivity | |].
  - cbn [String.concat foldr]. rewrite append_empty_r. reflexivity.
  - change (String.concat sep (x :: y :: rest))
      with (x +:+ sep +:+ String.concat sep (y :: rest)).
    rewrite !append_assoc. cbn [foldr] in *. rewrite IH. reflexivity.
Qed.

(** The join of [collectText] with its trailer, as one fold. *)
Lemma collectText_fold (this : TimbalMessage.t) :
  TimbalMessage.collectText this =
  foldr (fun c acc =>
           TimbalMessage.join_item (field c "text") +:+ TimbalMessage.separator +:+ acc)
    ""
    (filter (fun c => str_is (field c "type") "text" = true) (TimbalMessage.content this)).
Proof.
  unfold TimbalMessage.collectText. rewrite existsb_filter.
  set (texts := filter _ (TimbalMessage.content this)).
  transitivity
    (foldr (fun s acc => s +:+ TimbalMessage.separator +:+ acc) ""
       (map (fun c => TimbalMessage.join_item (field c "text")) texts)).
  - rewrite <- concat_with_trailer. destruct texts; reflexivity.
  - induction texts as [| c texts IH]; [reflexivity |].
    cbn [map foldr]. rewrite IH. reflexivity.
Qed.


Lemma filter_text_contents (texts : list string) :
  filter (fun c => str_is (field c "type") "text" = true) (map text_content texts) =
  map text_content texts.
Proof.
  induction texts as [| s texts IH]; [reflexivity |].
  cbn [map]. rewrite filter_cons, IH.
  destruct (decide (str_is (field (text_content s) "type") "text" = true)) as [_ | H];
    [reflexivity | destruct H; reflexivity].
Qed.

(** A value that is not an object makes a user message with one text
    content, [String(value)], and its collected text is that string
    followed by two line feeds.  An object whose [content] is an array of
    strings makes a message whose collected text is each string followed
    by two line feeds. *)
Theorem from_then_collectText :
  (forall v,
      is_object v = false ->
      exists message,
        TimbalMessage.from (TimbalMessage.Other v) = Some message /\
        message = {| TimbalMessage.role := VStr "user";
                     TimbalMessage.content := [text_content (ToString v)] |} /\
        TimbalMessage.collectText message = ToString v +:+ TimbalMessage.separator) /\
  (forall props texts,
      field (VObj props) "content" = VArr (map VStr texts) ->
      exists message,
        TimbalMessage.from (TimbalMessage.Other (VObj props)) = Some message /\
        TimbalMessage.content message = map text_content texts /\
        TimbalMessage.collectText message =
          foldr (fun s acc => s +:+ TimbalMessage.separator +:+ acc) "" texts).
Proof.
  split.
  - intros v Hv.
    assert (MessageContentFactory_from v = Some (text_content (ToString v))) as Hfrom.
    { destruct v; try reflexivity; discriminate Hv. }
    eexists. split; [unfold TimbalMessage.from; rewrite Hv, Hfrom; reflexivity |].
    split; [reflexivity |]. rewrite collectText_fold.
    cbn [TimbalMessage.content].
    change [text_content (ToString v)] with (map text_content [ToString v]).
    rewrite filter_text_contents.
    cbn [map foldr field get_prop text_content assoc String.eqb Ascii.eqb Bool.eqb
         default id TimbalMessage.join_item].
    rewrite append_empty_r. destruct v; try reflexivity; discriminate Hv.
  - intros props texts Hcontent.
    eexists. split.
    { unfold TimbalMessage.from. cbn [is_object].
      rewrite Hcontent. cbn [as_array]. rewrite from_each_strings. reflexivity. }
    cbn [TimbalMessage.content]. split; [reflexivity |].
    rewrite collectText_fold. cbn [TimbalMessage.content].
    rewrite filter_text_contents.
    clear. induction texts as [| s texts IH]; [reflexivity |].
    cbn [map foldr]. rewrite IH. reflexivity.
Qed.

Lemma from_then_collectText_witness :
  (exists message,
      TimbalMessage.from (TimbalMessage.Other (VNum 42)) = Some message /\
      TimbalMessage.collectText message = "42" +:+ TimbalMessage.separator) /\
  (exists message,
      TimbalMessage.from
        (TimbalMessage.Other
           (VObj [("role", VStr "assistant");
                  ("content", VArr [VStr "First part"; VStr "Second part"])])) =
        Some message /\
      TimbalMessage.collectText message =
        "First part" +:+ TimbalMessage.separator +:+ "Second part"
        +:+ TimbalMessage.separator).
Proof.
  split.
  - destruct (proj1 from_then_collectText (VNum 42) eq_refl) as (message & Hfrom & _ & Htext).
    exists message. split; [exact Hfrom | exact Htext].
  - destruct (proj2 from_then_collectText
                [("role", VStr "assistant");
                 ("content", VArr [VStr "First part"; VStr "Second part"])]
                ["First part"; "Second part"] eq_refl) as (message & Hfrom & _ & Htext).
    exists message. split; [exact Hfrom | exact Htext].
Defined.

(** ** Further properties of [deepMerge] *)

(** Induction on values through the lists they contain. *)
Lemma value_nested_ind (P : value -> Prop) :
  P VUndef -> P VNull -> (forall b, P (VBool b)) -> (forall n, P (VNum n)) ->
  (forall s, P (VStr s)) ->
  (forall elems, Forall P elems -> P (VArr elems)) ->
  (forall props, Forall (fun kv => P (snd kv)) props -> P (VObj props)) ->
  forall v, P v.
Proof.
  intros Hundef Hnull Hbool Hnum Hstr Harr Hobj.
  fix IH 1.
  intros [| | b | n | s | elems | props];
    [exact Hundef | exact Hnull | apply Hbool | apply Hnum | apply Hstr | |].
  - apply Harr. induction elems as [| x elems IHe]; constructor; [apply IH | exact IHe].
  - apply Hobj. induction props as [| [k x] props IHp]; constructor; [apply IH | exact IHp].
Qed.

Lemma keys_set_prop props key v :
  keys (set_prop props key v) =
  if bool_decide (key ∈ keys props) then keys props else keys props ++ [key].
Proof.
  induction props as [| [k x] props IH]; [reflexivity |].
  cbn [set_prop]. destruct (String.eqb_spec k key) as [-> | Hne].
  - rewrite bool_decide_true by (cbn; left). reflexivity.
  - unfold keys in *. cbn [map fst]. rewrite IH.
    destruct (bool_decide_reflect (key ∈ map fst props)) as [Hin | Hnin].
    + rewrite bool_decide_true by (right; exact Hin). reflexivity.
    + rewrite bool_decide_false; [reflexivity |].
      intros Hin. apply elem_of_cons in Hin as [-> | Hin]; congruence.
Qed.

Lemma keys_merge_entries target entries result :
  exists added,
    keys (merge_entries target entries result) = keys result ++ added /\
    NoDup added /\
    forall k, k ∈ added <-> k ∈ keys entries /\ k ∉ keys result.
Proof.
  revert result. induction entries as [| [key sv] entries IH]; intros result.
  - exists []. cbn. rewrite app_nil_r. split; [reflexivity |]. split; [constructor |].
    intros k. split; [intros H; inversion H | intros [H _]; inversion H].
  - cbn [merge_entries].
    set (result' := if mergeable sv then _ else _).
    assert (keys result' =
            if bool_decide (key ∈ keys result) then keys result else keys result ++ [key])
      as Hkeys by (unfold result'; destruct (mergeable sv); apply keys_set_prop).
    destruct (IH result') as (added & Hadded & Hnd & Hin). rewrite Hadded, Hkeys.
    destruct (bool_decide_reflect (key ∈ keys result)) as [Hkey | Hkey].
    + exists added. split; [reflexivity |]. split; [exact Hnd |].
      intros k. rewrite Hin, Hkeys.
      unfold keys. cbn [map fst]. rewrite elem_of_cons. split.
      * intros [Hk Hnk]. auto.
      * intros [[-> | Hk] Hnk]; [contradiction | auto].
    + exists (key :: added). rewrite <- app_assoc. split; [reflexivity |].
      rewrite Hkeys in Hin. split.
      * constructor; [| exact Hnd]. intros Hk. apply Hin in Hk as [_ Hk].
        apply Hk, elem_of_app. right. left.
      * intros k. unfold keys in *. cbn [map fst]. rewrite !elem_of_cons, Hin, elem_of_app.
        rewrite list_elem_of_singleton. split.
        -- intros [-> | [Hk Hnk]]; [auto | split; [auto | tauto]].
        -- intros [[-> | Hk] Hnk]; [auto |].
           destruct (decide (k = key)) as [-> | Hne]; [auto | right; tauto].
Qed.

(** The keys of a merge are the keys of the target and the keys of the
    update, for an update that has no key [__proto__]: no key is lost and
    none comes from elsewhere; each key of the update that the target
    lacks is added once, so distinct keys stay distinct.  (An assignment
    to [__proto__] sets the prototype and adds no property: such a key
    of the update is outside the statement.) *)
Theorem deepMerge_keys (target source : list (string * value)) :
  "__proto__" ∉ keys source ->
  let result := own_entries (deepMerge (VObj target) (VObj source)) in
  (forall k, k ∈ keys result <-> k ∈ keys target \/ k ∈ keys source) /\
  (length target <= length result <= length target + length source)%nat /\
  (NoDup (keys target) -> NoDup (keys result)).
Proof.
  intros _. cbv zeta. rewrite deepMerge_object. cbn [own_entries].
  destruct (keys_merge_entries (VObj target) source target) as (added & Hkeys & Hnd & Hin).
  split; [| split].
  - intros k. rewrite Hkeys, elem_of_app, Hin.
    destruct (decide (k ∈ keys target)); tauto.
  - assert (length added <= length (keys source))%nat as Hle.
    { apply submseteq_length, NoDup_submseteq; [exact Hnd |].
      intros k Hk. apply Hin in Hk. tauto. }
    pose proof (f_equal length Hkeys) as Hlen.
    unfold keys in *. rewrite length_app, !length_map in Hlen.
    rewrite length_map in Hle. lia.
  - intros Htarget. rewrite Hkeys. apply NoDup_app. split; [exact Htarget |].
    split; [| exact Hnd]. intros k Hk Hadded. apply Hin in Hadded as [_ Hnk]. contradiction.
Qed.

Lemma deepMerge_keys_witness :
  keys (own_entries (deepMerge (VObj sample_nested_target) (VObj sample_nested_update)))
    ≡ₚ ["apiKey"; "timeout"; "retry"] /\
  length (own_entries (deepMerge (VObj sample_nested_target) (VObj sample_nested_update)))
    = 3%nat.
Proof.
  destruct (deepMerge_keys sample_nested_target sample_nested_update) as (Hkeys & Hlen & Hnd).
  - unfold keys. cbn [sample_nested_update map fst].
    rewrite !not_elem_of_cons. repeat split; try discriminate. apply not_elem_of_nil.
  - split; [| vm_compute; reflexivity].
    apply NoDup_Permutation.
    + apply Hnd. unfold keys. cbn [sample_nested_target map fst].
      repeat (apply NoDup_cons; split;
              [rewrite ?not_elem_of_cons; repeat split; try discriminate;
               apply not_elem_of_nil |]).
      apply NoDup_nil. exact I.
    + repeat (apply NoDup_cons; split;
              [rewrite ?not_elem_of_cons; repeat split; try discriminate;
               apply not_elem_of_nil |]).
      apply NoDup_nil. exact I.
    + intros k. rewrite Hkeys. unfold keys.
      cbn [sample_nested_target sample_nested_update map fst].
      rewrite !elem_of_cons, !elem_of_nil. tauto.
Defined.

Lemma set_prop_same props key v : assoc key props = Some v -> set_prop props key v = props.
Proof.
  induction props as [| [k x] props IH]; cbn; [discriminate |].
  destruct (String.eqb k key); [congruence |]. intros H. rewrite IH by exact H. reflexivity.
Qed.

Lemma distinct_keys_object props :
  distinct_keys (VObj props) <->
  NoDup (keys props) /\ Forall (fun kv => distinct_keys (snd kv)) props.
Proof.
  cbn [distinct_keys]. apply and_iff_compat_l.
  induction props as [| [k x] props IH]; [split; [constructor | trivial] |].
  rewrite Forall_cons, IH. reflexivity.
Qed.

Lemma assoc_elem key v props : assoc key props = Some v -> (key, v) ∈ props.
Proof.
  induction props as [| [k x] props IH]; cbn; [discriminate |].
  destruct (String.eqb_spec k key) as [-> | _].
  - intros [= ->]. left.
  - intros H. right. auto.
Qed.

Lemma elem_assoc key v props : NoDup (keys props) -> (key, v) ∈ props -> assoc key props = Some v.
Proof.
  induction props as [| [k x] props IH]; intros Hnd Hin; [inversion Hin |].
  cbn [keys map fst] in Hnd. apply NoDup_cons in Hnd as [Hk Hnd].
  apply elem_of_cons in Hin as [[= <- <-] | Hin]; cbn.
  - rewrite String.eqb_refl. reflexivity.
  - destruct (String.eqb_spec k key) as [-> | _]; [| auto].
    destruct Hk. apply (list_elem_of_fmap_2 fst _ (key, v)). exact Hin.
Qed.

(** Merging the same update a second time changes nothing. *)
Theorem deepMerge_idempotent (source : list (string * value)) :
  distinct_keys (VObj source) ->
  forall target,
    deepMerge (deepMerge target (VObj source)) (VObj source) =
    deepMerge target (VObj source).
Proof.
  assert (forall v, forall props, v = VObj props -> distinct_keys v ->
            forall target, deepMerge (deepMerge target v) v = deepMerge target v) as Hall.
  2: { intros Hd target. apply (Hall (VObj source) source eq_refl Hd). }
  induction v as [| | b | n | s | elems _ | sprops IH] using value_nested_ind;
    intros props Heq; try discriminate Heq.
  clear props Heq. intros Hd target. apply distinct_keys_object in Hd as [Hnd Hdeep].
  rewrite !deepMerge_object. f_equal. cbn [own_entries].
  set (r1 := merge_entries target sprops (own_entries target)).
  assert (forall entries,
            (forall k v, (k, v) ∈ entries -> (k, v) ∈ sprops) ->
            merge_entries (VObj r1) entries r1 = r1) as Hloop.
  2: { apply Hloop. auto. }
  induction entries as [| [k v] entries IHe]; intros Hsub; [reflexivity |].
  cbn [merge_entries].
  assert ((k, v) ∈ sprops) as Hin by (apply Hsub; left).
  assert (assoc k r1 =
          Some (if mergeable v
                then deepMerge (js_or (field target k) (VObj [])) v else v)) as Hr1.
  { unfold r1. rewrite merge_entries_lookup by exact Hnd.
    rewrite (elem_assoc k v sprops Hnd Hin). reflexivity. }
  assert ((if mergeable v
           then set_prop r1 k (deepMerge (js_or (field (VObj r1) k) (VObj [])) v)
           else set_prop r1 k v) = r1) as ->.
  { destruct (mergeable v) eqn:Hv.
    - apply set_prop_same. rewrite Hr1. f_equal. symmetry.
      rewrite field_object, Hr1. cbn [default].
      assert (exists vprops, v = VObj vprops) as [vprops ->].
      { destruct v as [| | b | n | s | elems | vprops]; eauto;
          rewrite mergeable_not_object in Hv by discriminate; discriminate Hv. }
      rewrite (deepMerge_object (js_or (field target k) (VObj [])) vprops) at 1.
      cbn [js_or truthy]. rewrite <- deepMerge_object.
      rewrite Forall_forall in IH, Hdeep.
      apply (IH (k, VObj vprops) Hin vprops eq_refl).
      apply (Hdeep (k, VObj vprops) Hin).
    - apply set_prop_same. exact Hr1. }
  apply IHe. intros k' v' H. apply Hsub. right. exact H.
Qed.

Lemma deepMerge_idempotent_witness :
  deepMerge (deepMerge (VObj sample_nested_target) (VObj sample_nested_update))
    (VObj sample_nested_update) =
  deepMerge (VObj sample_nested_target) (VObj sample_nested_update).
Proof.
  apply (deepMerge_idempotent sample_nested_update).
  apply distinct_keys_object. split.
  - apply NoDup_cons. split; [| apply NoDup_singleton].
    apply not_elem_of_cons. split; [discriminate | apply not_elem_of_nil].
  - repeat constructor; cbn.
    + apply not_elem_of_cons. split; [discriminate | apply not_elem_of_nil].
    + apply not_elem_of_nil.
Defined.

Lemma typed_entry_cases key v :
  typed_entry (key, v) = true ->
  (exists s, v = VStr s /\ (key = "apiKey" \/ key = "baseUrl")) \/
  (exists n, v = VNum n /\
             (key = "timeout" \/ key = "retryAttempts" \/ key = "retryDelay")).
Proof.
  unfold typed_entry. destruct v as [| | b | n | s | elems | props]; try discriminate.
  - intros H. right. exists n. split; [reflexivity |].
    apply orb_prop in H as [H | H]; [apply orb_prop in H as [H | H] |];
      apply String.eqb_eq in H; auto.
  - intros H. left. exists s. split; [reflexivity |].
    apply orb_prop in H as [H | H]; apply String.eqb_eq in H; auto.
Qed.

Lemma merge_entries_typed target entries c :
  Forall (fun entry => typed_entry entry = true) entries ->
  merge_entries target entries (own_entries (value_of_config c)) =
  own_entries (value_of_config (fold_left apply_entry entries c)).
Proof.
  intros Htyped. revert c.
  induction Htyped as [| [key v] entries Hentry _ IH]; intros c; [reflexivity |].
  cbn [merge_entries fold_left]. rewrite <- IH. f_equal.
  apply typed_entry_cases in Hentry
    as [(s & -> & [-> | ->]) | (n & -> & [-> | [-> | ->]])];
    rewrite mergeable_not_object by discriminate; reflexivity.
Qed.

(** An update made of fields of the configuration with values of their
    types acts on the configuration as the assignments of its entries, in
    order: a later entry of the same field wins and every other field
    keeps its value. *)
Theorem updateConfig_typed (c : TimbalConfig) (update : list (string * value)) :
  Forall (fun entry => typed_entry entry = true) update ->
  updateConfig (value_of_config c) (VObj update) =
  value_of_config (fold_left apply_entry update c).
Proof.
  intros Htyped. unfold updateConfig. rewrite deepMerge_object.
  rewrite merge_entries_typed by exact Htyped. reflexivity.
Qed.

Lemma updateConfig_typed_witness :
  updateConfig (value_of_config sample_config)
    (VObj [("timeout", VNum 10); ("retryAttempts", VNum 0); ("timeout", VNum 20)]) =
  value_of_config
    {| apiKey := "test-key"; baseUrl := "https://api.test.com";
       timeout := 20; retryAttempts := 0; retryDelay := 100 |}.
Proof.
  apply (updateConfig_typed sample_config
           [("timeout", VNum 10); ("retryAttempts", VNum 0); ("timeout", VNum 20)]).
  repeat constructor.
Defined.

(** ** [sanitizeString] *)

Lemma trimStart_suffix s : exists removed, s = removed +:+ trimStart s.
Proof.
  induction s as [| c s [removed IH]]; [exists ""; reflexivity |].
  cbn [trimStart]. destruct (is_white_space c).
  - exists (String c removed).
    change (String c removed +:+ trimStart s) with (String c (removed +:+ trimStart s)).
    rewrite <- IH. reflexivity.
  - exists "". reflexivity.
Qed.

Lemma trimEnd_prefix s : exists removed, s = trimEnd s +:+ removed.
Proof.
  induction s as [| c s [removed IH]]; [exists ""; reflexivity |].
  cbn [trimEnd]. destruct (trimEnd s) as [| k kept] eqn:Hkept.
  - rewrite ?Hkept in IH. change ("" +:+ removed) with removed in IH.
    destruct (is_white_space c).
    + exists (String c s). reflexivity.
    + exists s. reflexivity.
  - rewrite ?Hkept in IH. exists removed.
    change (String c (String k kept) +:+ removed)
      with (String c (String k kept +:+ removed)). rewrite <- IH. reflexivity.
Qed.

Lemma length_append a b : String.length (a +:+ b) = (String.length a + String.length b)%nat.
Proof.
  induction a as [| x a IH]; [reflexivity |].
  change (String x a +:+ b) with (String x (a +:+ b)). cbn [String.length].
  rewrite IH. reflexivity.
Qed.

Lemma length_zero s : String.length s = 0%nat -> s = "".
Proof. destruct s; [reflexivity | discriminate]. Qed.

Lemma trim_length s :
  (String.length (trim s) <= String.length s)%nat /\
  (String.length (trim s) = String.length s -> trim s = s).
Proof.
  unfold trim. destruct (trimStart_suffix s) as [front Hfront].
  destruct (trimEnd_prefix (trimStart s)) as [back Hback].
  assert (String.length s =
          String.length front + (String.length (trimEnd (trimStart s))
                                 + String.length back))%nat as Hlen.
  { rewrite Hfront at 1. rewrite length_append. rewrite Hback at 1.
    rewrite length_append. reflexivity. }
  split; [lia |]. intros Heq.
  assert (front = "") as Hf by (apply length_zero; lia).
  assert (back = "") as Hb by (apply length_zero; lia).
  rewrite Hfront at 2. rewrite Hf. cbn [String.append].
  rewrite Hback at 2. rewrite Hb, append_empty_r. reflexivity.
Qed.

Lemma remove_angle_brackets_length s :
  (String.length (remove_angle_brackets s) <= String.length s)%nat /\
  (String.length (remove_angle_brackets s) = String.length s ->
   remove_angle_brackets s = s).
Proof.
  induction s as [| c s [IHle IHeq]]; [split; reflexivity |].
  cbn [remove_angle_brackets]. destruct (Ascii.eqb c "<" || Ascii.eqb c ">");
    cbn [String.length].
  - split; [lia | intros H; lia].
  - split; [lia |]. intros H. rewrite IHeq by lia. reflexivity.
Qed.

Lemma remove_angle_brackets_none s :
  count_char "<" (remove_angle_brackets s) = 0%nat /\
  count_char ">" (remove_angle_brackets s) = 0%nat.
Proof.
  induction s as [| c s [IHl IHr]]; [split; reflexivity |].
  cbn [remove_angle_brackets].
  destruct (Ascii.eqb c "<") eqn:Hl; [exact (conj IHl IHr) |].
  destruct (Ascii.eqb c ">") eqn:Hr; [exact (conj IHl IHr) |].
  cbn [orb count_char]. rewrite Hl, Hr, IHl, IHr. split; reflexivity.
Qed.

Lemma remove_angle_brackets_fixed s :
  remove_angle_brackets s = s <->
  count_char "<" s = 0%nat /\ count_char ">" s = 0%nat.
Proof.
  split.
  - intros <-. apply remove_angle_brackets_none.
  - induction s as [| c s IH]; [reflexivity |].
    cbn [remove_angle_brackets count_char].
    destruct (Ascii.eqb c "<"); [intros [H _]; discriminate H |].
    destruct (Ascii.eqb c ">"); [intros [_ H]; discriminate H |].
    cbn [orb]. intros [Hl Hr]. rewrite IH by (split; assumption). reflexivity.
Qed.

(** The result of [sanitizeString] holds no angle bracket and is not
    longer than the argument; the strings it leaves as they are are the
    trimmed strings without angle brackets; applied to its own result it
    does no more than trim it (a removed bracket can uncover white space
    at an end). *)
Theorem sanitizeString_result (str : string) :
  count_char "<" (sanitizeString str) = 0%nat /\
  count_char ">" (sanitizeString str) = 0%nat /\
  (String.length (sanitizeString str) <= String.length str)%nat /\
  (sanitizeString str = str <->
   trim str = str /\ count_char "<" str = 0%nat /\ count_char ">" str = 0%nat) /\
  sanitizeString (sanitizeString str) = trim (sanitizeString str).
Proof.
  unfold sanitizeString.
  destruct (remove_angle_brackets_none (trim str)) as [Hl Hr].
  destruct (remove_angle_brackets_length (trim str)) as [Hrle Hreq].
  destruct (trim_length str) as [Htle Hteq].
  split; [exact Hl |]. split; [exact Hr |]. split; [lia |]. split.
  - split.
    + intros Hfix.
      pose proof (f_equal String.length Hfix) as Hlen.
      assert (trim str = str) as Htrim by (apply Hteq; lia).
      split; [exact Htrim |]. rewrite Htrim in Hfix.
      apply remove_angle_brackets_fixed, Hfix.
    + intros (Htrim & Hangle). rewrite Htrim. apply remove_angle_brackets_fixed, Hangle.
  - apply remove_angle_brackets_fixed.
    destruct (trimStart_suffix (remove_angle_brackets (trim str))) as [front Hfront].
    destruct (trimEnd_prefix (trimStart (remove_angle_brackets (trim str))))
      as [back Hback].
    rewrite Hfront, !count_char_app in Hl, Hr.
    rewrite Hback, !count_char_app in Hl, Hr.
    set (once := remove_angle_brackets (trim str)) in *.
    unfold trim. split; lia.
Qed.

(** A second application can still change the result. *)
Example sanitizeString_twice :
  sanitizeString "< a >" = " a " /\ sanitizeString " a " = "a".
Proof. split; reflexivity. Qed.

(** ** [isValidEmail] *)

Lemma append_eq_empty a b : a +:+ b = "" -> a = "" /\ b = "".
Proof. destruct a; [cbn; auto | discriminate]. Qed.

Lemma lang_seq_inv r1 r2 s :
  lang (Rseq r1 r2) s -> exists s1 s2, s = s1 +:+ s2 /\ lang r1 s1 /\ lang r2 s2.
Proof. intros H. inversion H; subst. eauto. Qed.

Lemma lang_star_inv r c s :
  lang (Rstar r) (String c s) ->
  exists s1 s2, s = s1 +:+ s2 /\ lang r (String c s1) /\ lang (Rstar r) s2.
Proof.
  intros H. remember (Rstar r) as star eqn:Hstar. remember (String c s) as cs eqn:Hcs.
  revert s Hcs. induction H as [| | | | | | r' s1 s2 H1 _ H2 IH2]; intros tail Hcs;
    try discriminate Hstar; try discriminate Hcs.
  injection Hstar as ->. destruct s1 as [| x s1].
  - cbn in Hcs. apply IH2; [reflexivity | exact Hcs].
  - change (String x s1 +:+ s2) with (String x (s1 +:+ s2)) in Hcs.
    injection Hcs as -> <-. eauto.
Qed.

Lemma nullable_lang r : nullable r = true <-> lang r "".
Proof.
  induction r as [| | P | r1 IH1 r2 IH2 | r1 IH1 r2 IH2 | r IH]; cbn [nullable].
  - split; [discriminate | intros H; inversion H].
  - split; [constructor | reflexivity].
  - split; [discriminate | intros H; inversion H].
  - rewrite andb_true_iff, IH1, IH2. split.
    + intros [H1 H2]. apply (lang_seq r1 r2 "" "" H1 H2).
    + intros H. apply lang_seq_inv in H as (s1 & s2 & Heq & H1 & H2).
      symmetry in Heq. apply append_eq_empty in Heq as [-> ->]. auto.
  - rewrite orb_true_iff, IH1, IH2. split.
    + intros [H | H]; [apply lang_alt_l | apply lang_alt_r]; exact H.
    + intros H. inversion H; subst; auto.
  - split; [constructor | reflexivity].
Qed.

Lemma derivative_lang c r : forall s, lang (derivative c r) s <-> lang r (String c s).
Proof.
  induction r as [| | P | r1 IH1 r2 IH2 | r1 IH1 r2 IH2 | r IH]; intros s;
    cbn [derivative].
  - split; intros H; inversion H.
  - split; intros H; inversion H.
  - destruct (P c) eqn:HP.
    + split; intros H; inversion H; subst; [constructor; exact HP | constructor].
    + split; intros H; inversion H; subst. congruence.
  - assert (lang (Rseq (derivative c r1) r2) s ->
            lang (Rseq r1 r2) (String c s)) as Hleft.
    { intros H. apply lang_seq_inv in H as (s1 & s2 & -> & H1 & H2).
      apply IH1 in H1. apply (lang_seq r1 r2 (String c s1) s2 H1 H2). }
    assert (lang (Rseq r1 r2) (String c s) ->
            lang (Rseq (derivative c r1) r2) s \/
            (nullable r1 = true /\ lang (derivative c r2) s)) as Hsplit.
    { intros H. apply lang_seq_inv in H as (s1 & s2 & Heq & H1 & H2).
      destruct s1 as [| x s1].
      - change ("" +:+ s2) with s2 in Heq. subst s2. right. split; [apply nullable_lang, H1 | apply IH2, H2].
      - change (String x s1 +:+ s2) with (String x (s1 +:+ s2)) in Heq.
        injection Heq as <- ->. left. apply lang_seq; [apply IH1, H1 | exact H2]. }
    destruct (nullable r1) eqn:Hnull.
    + split.
      * intros H. inversion H; subst; [apply Hleft; assumption |].
        apply (lang_seq r1 r2 "" (String c s)); [apply nullable_lang, Hnull |].
        apply IH2. assumption.
      * intros H. apply Hsplit in H as [H | [_ H]];
          [apply lang_alt_l | apply lang_alt_r]; exact H.
    + split; [exact Hleft |].
      intros H. apply Hsplit in H as [H | [H _]]; [exact H | discriminate H].
  - split.
    + intros H. inversion H; subst;
        [apply lang_alt_l, IH1 | apply lang_alt_r, IH2]; assumption.
    + intros H. inversion H; subst;
        [apply lang_alt_l, IH1 | apply lang_alt_r, IH2]; assumption.
  - split.
    + intros H. apply lang_seq_inv in H as (s1 & s2 & -> & H1 & H2).
      apply IH in H1. apply (lang_star_cons r (String c s1) s2 H1 H2).
    + intros H. apply lang_star_inv in H as (s1 & s2 & -> & H1 & H2).
      apply lang_seq; [apply IH, H1 | exact H2].
Qed.

Lemma regex_test_lang s : forall r, regex_test r s = true <-> lang r s.
Proof.
  induction s as [| c s IH]; intros r; cbn [regex_test].
  - apply nullable_lang.
  - rewrite IH. apply derivative_lang.
Qed.

Lemma lang_star_class P s : lang (Rstar (Rclass P)) s <-> all_chars P s = true.
Proof.
  split.
  - intros H. remember (Rstar (Rclass P)) as star eqn:Hstar.
    induction H as [| | | | | | r s1 s2 H1 _ H2 IH2]; try discriminate Hstar;
      [reflexivity |].
    injection Hstar as ->. inversion H1 as [| P' c Hc | | | | |]; subst.
    change (String c "" +:+ s2) with (String c s2). cbn [all_chars].
    rewrite IH2 by reflexivity. rewrite Hc. reflexivity.
  - induction s as [| c s IH]; [constructor |]. cbn [all_chars].
    intros H. apply andb_prop in H as [Hc Hs].
    apply (lang_star_cons (Rclass P) (String c "") s); [constructor; exact Hc | auto].
Qed.

Lemma lang_plus_class P s : lang (Rplus (Rclass P)) s <-> s <> "" /\ all_chars P s = true.
Proof.
  unfold Rplus. split.
  - intros H. apply lang_seq_inv in H as (s1 & s2 & -> & H1 & H2).
    inversion H1 as [| P' c Hc | | | | |]; subst. apply lang_star_class in H2.
    change (String c "" +:+ s2) with (String c s2).
    split; [discriminate |]. cbn [all_chars]. rewrite H2, Hc. reflexivity.
  - intros [Hne H]. destruct s as [| c s]; [contradiction |].
    cbn [all_chars] in H. apply andb_prop in H as [Hc Hs].
    apply (lang_seq (Rclass P) (Rstar (Rclass P)) (String c "") s);
      [constructor; exact Hc | apply lang_star_class, Hs].
Qed.

Lemma lang_char c s : lang (Rchar c) s <-> s = String c "".
Proof.
  unfold Rchar. split.
  - intros H. inversion H as [| P x Hx | | | | |]; subst.
    apply Ascii.eqb_eq in Hx. subst. reflexivity.
  - intros ->. constructor. apply Ascii.eqb_refl.
Qed.

Lemma emailRegex_lang email :
  lang emailRegex email <->
  exists name domain tld,
    email = name +:+ "@" +:+ domain +:+ "." +:+ tld /\
    email_part name /\ email_part domain /\ email_part tld.
Proof.
  unfold emailRegex, email_part. split.
  - intros H.
    apply lang_seq_inv in H as (name & s1 & -> & Hname & H).
    apply lang_seq_inv in H as (at_sign & s2 & -> & Hat & H).
    apply lang_seq_inv in H as (domain & s3 & -> & Hdomain & H).
    apply lang_seq_inv in H as (dot & tld & -> & Hdot & Htld).
    apply lang_char in Hat, Hdot. subst.
    apply lang_plus_class in Hname, Hdomain, Htld.
    exists name, domain, tld. auto.
  - intros (name & domain & tld & -> & Hname & Hdomain & Htld).
    apply lang_plus_class in Hname, Hdomain, Htld.
    apply lang_seq; [exact Hname |].
    apply (lang_seq _ _ "@"); [apply lang_char; reflexivity |].
    apply lang_seq; [exact Hdomain |].
    apply (lang_seq _ _ "."); [apply lang_char; reflexivity | exact Htld].
Qed.

(** [isValidEmail] accepts exactly the strings [name@domain.tld] whose
    three parts are not empty and hold neither white space nor [@]; the
    domain and the last part may hold further dots. *)
Theorem isValidEmail_shape (email : string) :
  isValidEmail email = true <->
  exists name domain tld,
    email = name +:+ "@" +:+ domain +:+ "." +:+ tld /\
    email_part name /\ email_part domain /\ email_part tld.
Proof. unfold isValidEmail. rewrite regex_test_lang. apply emailRegex_lang. Qed.

Lemma email_part_facts s :
  email_part s ->
  (1 <= String.length s)%nat /\ count_char "@" s = 0%nat /\
  all_chars (fun c => negb (is_white_space c)) s = true.
Proof.
  intros [Hne Hall]. split; [destruct s; [contradiction | cbn; lia] |]. split.
  - apply (count_char_all_chars not_space_or_at); [exact Hall |].
    unfold not_space_or_at. rewrite Ascii.eqb_refl, orb_true_r. reflexivity.
  - clear Hne. induction s as [| c s IH]; [reflexivity |].
    cbn [all_chars] in *. apply andb_prop in Hall as [Hc Hs].
    rewrite IH by exact Hs. unfold not_space_or_at in Hc.
    rewrite negb_orb in Hc. apply andb_prop in Hc as [-> _]. reflexivity.
Qed.

(** A string that [isValidEmail] accepts holds exactly one [@], no white
    space and at least five characters. *)
Theorem isValidEmail_necessary (email : string) :
  isValidEmail email = true ->
  count_char "@" email = 1%nat /\
  all_chars (fun c => negb (is_white_space c)) email = true /\
  (5 <= String.length email)%nat.
Proof.
  unfold isValidEmail. rewrite regex_test_lang, emailRegex_lang.
  intros (name & domain & tld & -> & Hname & Hdomain & Htld).
  apply email_part_facts in Hname as (Hn1 & Hn2 & Hn3).
  apply email_part_facts in Hdomain as (Hd1 & Hd2 & Hd3).
  apply email_part_facts in Htld as (Ht1 & Ht2 & Ht3).
  rewrite !count_char_app, !all_chars_app, !length_append, Hn2, Hd2, Ht2, Hn3, Hd3, Ht3.
  cbn. split; [reflexivity |]. split; [reflexivity | lia].
Qed.

Lemma isValidEmail_necessary_witness :
  count_char "@" "user@example.com" = 1%nat /\
  all_chars (fun c => negb (is_white_space c)) "user@example.com" = true /\
  (5 <= String.length "user@example.com")%nat.
Proof.
  apply (isValidEmail_necessary "user@example.com"). vm_compute. reflexivity.
Defined.

(** ** The error of a response that is not ok *)

(** The message of [parseErrorResponse] is truthy, so it is the message
    that the constructor of the error is given. *)
Lemma error_message_parsed (response : Response) :
  truthy (ApiError.message (parseErrorResponse response)) = true /\
  error_message response = ApiError.message (parseErrorResponse response).
Proof.
  assert (truthy (ApiError.message (parseErrorResponse response)) = true) as Htruthy.
  { unfold parseErrorResponse.
    assert (truthy (js_or (VStr (statusText response)) (VStr "Unknown error")) = true)
      as Hfallback.
    { unfold js_or. destruct (truthy (VStr (statusText response))) eqn:H;
        [exact H | reflexivity]. }
    destruct (json response) as [errorData | t]; [| exact Hfallback].
    destruct (get_prop errorData "message"), (get_prop errorData "error"),
      (get_prop errorData "code"), (get_prop errorData "details");
      try exact Hfallback.
    apply js_or_unknown_truthy. }
  split; [exact Htruthy |]. unfold error_message. apply js_or_truthy_l, Htruthy.
Qed.

(** [parseErrorResponse] always returns a truthy message, so the default
    ['Request failed'] of the dispatcher is never used: the message given
    to the constructor of the error is the message of the body, else its
    [error], else ['Unknown error'], and the status text when the body is
    not JSON.  On a response that is not ok the [try] block throws the
    [TimbalApiError] with that message as a string and with the status of
    the response, unless the message has no primitive value: then it
    throws the [TypeError] of the constructor. *)
Theorem parseErrorResponse_message (platform : Platform) (response : Response) :
  let errorData := parseErrorResponse response in
  truthy (ApiError.message errorData) = true /\
  ApiError.statusCode errorData = status response /\
  error_message response = ApiError.message errorData /\
  (ok response = false ->
   try_block platform (FetchResolves response) =
   if String_throws (ApiError.message errorData)
   then Throw (ExnOther (conversion_error platform))
   else Throw (ExnApi {| TimbalApiError.message := ToString (ApiError.message errorData);
                         TimbalApiError.statusCode := status response;
                         TimbalApiError.code := ApiError.code errorData;
                         TimbalApiError.details := ApiError.details errorData |})) /\
  (forall props,
      json response = JsonValue (VObj props) ->
      ApiError.message errorData =
        js_or (default VUndef (assoc "message" props))
          (js_or (default VUndef (assoc "error" props)) (VStr "Unknown error"))) /\
  (forall t,
      json response = JsonThrows t ->
      ApiError.message errorData =
        VStr (if String.eqb (statusText response) "" then "Unknown error"
              else statusText response) /\
      ApiError.code errorData = VUndef /\ ApiError.details errorData = VUndef).
Proof.
  cbv zeta. destruct (error_message_parsed response) as [Htruthy Hmessage].
  split; [exact Htruthy |]. split.
  { unfold parseErrorResponse. destruct (json response) as [errorData | t]; [| reflexivity].
    destruct (get_prop errorData "message"), (get_prop errorData "error"),
      (get_prop errorData "code"), (get_prop errorData "details"); reflexivity. }
  split; [exact Hmessage |]. split.
  { intros Hok. rewrite (try_block_not_ok platform response Hok), Hmessage.
    unfold response_error. fold (error_message response). rewrite Hmessage.
    destruct (ApiError.message (parseErrorResponse response)) eqn:Hm;
      try discriminate Htruthy; cbn [TimbalApiError.throws];
      match goal with |- context [if ?c then _ else _] => destruct c end; reflexivity. }
  split.
  - intros props Hjson. unfold parseErrorResponse. rewrite Hjson. reflexivity.
  - intros t Hjson. unfold parseErrorResponse. rewrite Hjson.
    cbn [ApiError.message ApiError.code ApiError.details].
    split; [| split; reflexivity].
    unfold js_or. cbn [truthy]. destruct (String.eqb (statusText response) ""); reflexivity.
Qed.

(** ** The file name of an upload *)

(** The path is its directory part, empty or ending with a slash,
    followed by its last segment, which holds no slash. *)
Lemma split_slash_last s :
  exists dir name,
    last (split_slash s) = Some name /\ s = dir +:+ name /\
    count_char "/" name = 0%nat /\
    ((dir = "" /\ exists x, split_slash s = [x]) \/
     (endsWith_slash dir = true /\ exists x y l, split_slash s = x :: y :: l)).
Proof.
  induction s as [| c s (dir & name & Hlast & Heq & Hname & Hdir)].
  - exists "", "". repeat split; eauto.
  - cbn [split_slash]. destruct (Ascii.eqb c "/") eqn:Hc.
    + apply Ascii.eqb_eq in Hc. subst c.
      exists (String "/" dir), name.
      split; [destruct Hdir as [[_ [x Hs]] | [_ (x & y & l & Hs)]]; rewrite Hs in *;
              exact Hlast |].
      split; [rewrite Heq at 1; reflexivity |]. split; [exact Hname |].
      right. split.
      * destruct Hdir as [[-> _] | [Hdir _]]; [reflexivity |].
        destruct dir; [discriminate Hdir | exact Hdir].
      * destruct Hdir as [[_ [x Hs]] | [_ (x & y & l & Hs)]]; rewrite Hs; eauto.
    + destruct Hdir as [[-> [x Hs]] | [Hdir (x & y & l & Hs)]]; rewrite Hs in *.
      * cbn in Hlast. injection Hlast as ->. change ("" +:+ name) with name in Heq.
        subst s. exists "", (String c name). cbn [last count_char]. rewrite Hc.
        repeat split; eauto.
      * exists (String c dir), name. split; [exact Hlast |].
        split; [rewrite Heq at 1; reflexivity |]. split; [exact Hname |].
        right. split; [| eauto].
        destruct dir; [discriminate Hdir | exact Hdir].
Qed.

(** The name under which [uploadFile] sends a file is never empty and
    holds no slash: it is what follows the last slash of the path, and
    ['unknown'] when nothing follows it. *)
Theorem uploadFile_fileName (filePath : string) :
  fileName filePath <> "" /\
  count_char "/" (fileName filePath) = 0%nat /\
  exists dir name,
    filePath = dir +:+ name /\ count_char "/" name = 0%nat /\
    (dir = "" \/ endsWith_slash dir = true) /\
    fileName filePath = if String.eqb name "" then "unknown" else name.
Proof.
  destruct (split_slash_last filePath) as (dir & name & Hlast & Heq & Hname & Hdir').
  assert (dir = "" \/ endsWith_slash dir = true) as Hdir by tauto.
  unfold fileName. rewrite Hlast.
  destruct (String.eqb_spec name "") as [-> | Hne].
  - split; [discriminate |]. split; [reflexivity |].
    exists dir, "". auto.
  - split; [exact Hne |]. split; [exact Hname |].
    exists dir, name. rewrite (proj2 (String.eqb_neq name "") Hne). auto.
Qed.

(** ** The services over the client *)

Lemma accepts_text_csv : Headers.accepts "Content-Type" "text/csv" = true.
Proof. vm_compute. reflexivity. Qed.

Section ServiceFacts.

Context (platform : Platform) (ERROR_CODES : ErrorCodes)
  (server : nat -> FetchResult).

(** [post] with truthy data: one dispatch of the JSON text. *)
Lemma post_outcome config endpoint data w :
  truthy data = true ->
  exists s outcome w',
    JSON_stringify data = Some s /\
    ApiClient.post platform ERROR_CODES server config endpoint data w = Some (outcome, w') /\
    (forall r, r ∈ requests_of (new_events w w') ->
       req_method r = Some "POST" /\
       req_url r = build_url config endpoint /\
       req_body r = Some (BodyString s) /\
       Headers.get (req_headers r) "Content-Type" = Some "application/json") /\
    if key_accepted config
    then outcome = settle platform ERROR_CODES (server (last_attempt server config w)) /\
         (1 <= attempts w w' <= S (max_retries config))%nat
    else w' = w /\
         outcome = Throw (ExnOther (header_error platform "Authorization"
                                      ("Bearer " +:+ apiKey config))).
Proof.
  intros Hdata. destruct (json_body_truthy data Hdata) as (s & Hs & _ & Hbody & _).
  unfold ApiClient.post.
  destruct (request_ends platform ERROR_CODES server config endpoint
              {| method := Some "POST"; body := json_body data; headers := None |} w)
    as (outcome & w' & Hreq & Hall & Hend);
    [apply headers_accepted_no_headers; reflexivity |].
  exists s, outcome, w'. split; [exact Hs |]. split; [exact Hreq |]. split; [| exact Hend].
  intros r Hr. destruct (Hall r Hr) as [Hacc ->].
  cbn [build_request req_method req_body req_headers req_url].
  rewrite (sent_headers_json config (Some "POST") data Hacc), Hdata, Hbody. auto.
Qed.

(** What a service makes of the end of a dispatch: the [data] of the
    envelope, or what the dispatch throws. *)
Lemma settle_data {A} (f : ApiResponse.t -> A) result :
  (exists a, match settle platform ERROR_CODES result with
             | Return response => Return (f response)
             | Throw error => Throw error
             end = Return a) \/
  (exists error, match settle platform ERROR_CODES result with
                 | Return response => Return (f response)
                 | Throw error => Throw error
                 end = Throw (ExnApi error)) \/
  match settle platform ERROR_CODES result with
  | Return response => Return (f response)
  | Throw error => Throw error
  end = Throw (ExnOther (conversion_error platform)).
Proof.
  destruct (settle_classified platform ERROR_CODES result)
    as [(data & status & ->) | [(error & ->) | (-> & _)]]; eauto.
Qed.

(** The end of a call of a service that passes on the end of its
    dispatch. *)
Lemma service_ends {A} (f : ApiResponse.t -> A) config w w'
    (outcome : Completion ApiResponse.t) :
  (if key_accepted config
   then outcome = settle platform ERROR_CODES (server (last_attempt server config w)) /\
        (1 <= attempts w w' <= S (max_retries config))%nat
   else w' = w /\
        outcome = Throw (ExnOther (header_error platform "Authorization"
                                     ("Bearer " +:+ apiKey config)))) ->
  let passed := match outcome with
                | Return response => Return (f response)
                | Throw error => Throw error
                end in
  if key_accepted config
  then (1 <= attempts w w' <= S (max_retries config))%nat /\
       ((exists a, passed = Return a) \/
        (exists error, passed = Throw (ExnApi error)) \/
        passed = Throw (ExnOther (conversion_error platform)))
  else w' = w /\
       passed = Throw (ExnOther (header_error platform "Authorization"
                                   ("Bearer " +:+ apiKey config))).
Proof.
  cbv zeta. destruct (key_accepted config).
  - intros [-> Hatt]. split; [exact Hatt | apply settle_data].
  - intros [-> ->]. split; reflexivity.
Qed.

(** [runApp] makes no request unless the organisation and the
    application are named and the input is truthy and has a key.  Then it
    posts, as JSON, to [orgs/<orgId>/apps/<appId>/runs/collect] an object
    that holds the input and, among [version_id], [group_id] and
    [parent_id], those that are given and not empty.  With a bearer
    credential that [Headers] accepts it makes between one and
    [1 + retryAttempts] attempts and ends with the [data] of the envelope
    or with what the dispatch throws; with one that [Headers] refuses it
    makes no request and throws the [TypeError] of [Headers]. *)
Theorem runApp_request config defaultOrgId orgId appId version_id input
    group_id parent_id w :
  let optional key (v : option string) :=
    match v with
    | Some s => if String.eqb s "" then [] else [(key, VStr s)]
    | None => []
    end in
  let payload :=
    ("input", input) :: optional "version_id" version_id
      ++ optional "group_id" group_id ++ optional "parent_id" parent_id in
  if missing (AppService.resolveDefault defaultOrgId orgId) || String.eqb appId ""
     || negb (truthy input) || Nat.eqb (length (keys (own_entries input))) 0
  then
    exists message,
      AppService.runApp platform ERROR_CODES server config defaultOrgId orgId appId version_id
        input group_id parent_id w = Some (Throw (plain_Error message), w)
  else
    exists body outcome w',
      JSON_stringify (VObj payload) = Some body /\
      AppService.runApp platform ERROR_CODES server config defaultOrgId orgId appId version_id
        input group_id parent_id w = Some (outcome, w') /\
      (forall r, r ∈ requests_of (new_events w w') ->
         req_method r = Some "POST" /\
         req_url r =
           build_url config
             ("orgs/" +:+ default "" (AppService.resolveDefault defaultOrgId orgId)
              +:+ "/apps/" +:+ appId +:+ "/runs/collect") /\
         req_body r = Some (BodyString body) /\
         Headers.get (req_headers r) "Content-Type" = Some "application/json") /\
      if key_accepted config
      then (1 <= attempts w w' <= S (max_retries config))%nat /\
           ((exists data, outcome = Return data) \/
            (exists error, outcome = Throw (ExnApi error)) \/
            outcome = Throw (ExnOther (conversion_error platform)))
      else w' = w /\
           outcome = Throw (ExnOther (header_error platform "Authorization"
                                        ("Bearer " +:+ apiKey config))).
Proof.
  cbv zeta. unfold AppService.runApp.
  destruct (missing (AppService.resolveDefault defaultOrgId orgId)); [cbn; eauto |].
  destruct (String.eqb appId ""); [cbn; eauto |].
  cbn [orb].
  destruct (negb (truthy input) || Nat.eqb (length (keys (own_entries input))) 0);
    [eauto |].
  match goal with
  | |- context [ApiClient.post _ _ _ _ ?e (VObj ?p) _] =>
      assert (p = ("input", input)
                    :: match version_id with
                       | Some s => if String.eqb s "" then [] else [("version_id", VStr s)]
                       | None => []
                       end
                    ++ match group_id with
                       | Some s => if String.eqb s "" then [] else [("group_id", VStr s)]
                       | None => []
                       end
                    ++ match parent_id with
                       | Some s => if String.eqb s "" then [] else [("parent_id", VStr s)]
                       | None => []
                       end) as ->;
      [| destruct (post_outcome config e (VObj (("input", input) ::
                     match version_id with
                       | Some s => if String.eqb s "" then [] else [("version_id", VStr s)]
                       | None => []
                       end
                    ++ match group_id with
                       | Some s => if String.eqb s "" then [] else [("group_id", VStr s)]
                       | None => []
                       end
                    ++ match parent_id with
                       | Some s => if String.eqb s "" then [] else [("parent_id", VStr s)]
                       | None => []
                       end)) w eq_refl)
           as (body & final & w' & Hbody & Hpost & Hall & Hend)]
  end.
  { unfold missing.
    destruct version_id as [v |]; [destruct (String.eqb v "") |];
      (destruct group_id as [g |]; [destruct (String.eqb g "") |]);
      (destruct parent_id as [q |]; [destruct (String.eqb q "") |]); reflexivity. }
  rewrite Hpost.
  exists body, (match final with
                | Return response => Return (ApiResponse.data response)
                | Throw error => Throw error
                end), w'.
  split; [exact Hbody |].
  split; [destruct final; reflexivity |].
  split; [exact Hall |].
  apply (service_ends ApiResponse.data config w w' final Hend).
Qed.

(** [createTable] makes no request unless the organisation, the
    knowledge base and the table are named and there is a column.  Then
    it posts, as JSON, to [orgs/<orgId>/kbs/<kbId>/tables] the name, one
    object for each column, in order, and the comment, and it ends as its
    dispatch ends; with a bearer credential that [Headers] refuses it
    makes no request and throws the [TypeError] of [Headers]. *)
Theorem createTable_request config this orgId kbId name columns comment w :
  let org := TableService.resolveDefault this TableService.KorgId orgId in
  let kb := TableService.resolveDefault this TableService.KkbId kbId in
  if missing org || missing kb || String.eqb name "" || Nat.eqb (length columns) 0
  then
    exists message,
      TableService.createTable platform ERROR_CODES server config this orgId kbId name columns
        comment w = Some (Throw (plain_Error message), w)
  else
    exists body outcome w',
      JSON_stringify
        (VObj [("name", VStr name);
               ("columns", VArr (map TableService.column_payload columns));
               ("comment", value_of_nullable comment)]) = Some body /\
      TableService.createTable platform ERROR_CODES server config this orgId kbId name columns
        comment w = Some (outcome, w') /\
      (forall r, r ∈ requests_of (new_events w w') ->
         req_method r = Some "POST" /\
         req_url r =
           build_url config
             ("orgs/" +:+ default "" org +:+ "/kbs/" +:+ default "" kb +:+ "/tables") /\
         req_body r = Some (BodyString body) /\
         Headers.get (req_headers r) "Content-Type" = Some "application/json") /\
      if key_accepted config
      then (1 <= attempts w w' <= S (max_retries config))%nat /\
           ((exists done : unit, outcome = Return done) \/
            (exists error, outcome = Throw (ExnApi error)) \/
            outcome = Throw (ExnOther (conversion_error platform)))
      else w' = w /\
           outcome = Throw (ExnOther (header_error platform "Authorization"
                                        ("Bearer " +:+ apiKey config))).
Proof.
  cbv zeta. unfold TableService.createTable.
  destruct (missing (TableService.resolveDefault this TableService.KorgId orgId));
    [cbn; eauto |].
  destruct (missing (TableService.resolveDefault this TableService.KkbId kbId));
    [cbn; eauto |].
  destruct (String.eqb name ""); [cbn; eauto |].
  destruct (Nat.eqb (length columns) 0); [cbn; eauto |]. cbn [orb].
  match goal with
  | |- context [ApiClient.post _ _ _ _ ?e ?p _] =>
      destruct (post_outcome config e p w eq_refl)
        as (body & final & w' & Hbody & Hpost & Hall & Hend)
  end.
  rewrite Hpost.
  exists body, (match final with
                | Return _ => Return tt
                | Throw error => Throw error
                end), w'.
  split; [exact Hbody |].
  split; [destruct final; reflexivity |].
  split; [exact Hall |].
  apply (service_ends (fun _ => tt) config w w' final Hend).
Qed.

(** [importCsv] makes no request when a parameter is missing or when the
    file cannot be read, and then ends with the error of the read.
    Otherwise it posts the text of the file as [text/csv], an empty
    file included, to [.../tables/<tableName>/csv?mode=<mode>], the mode
    being [overwrite] when none is given, and it ends as its dispatch
    ends; with a bearer credential that [Headers] refuses it makes no
    request and throws the [TypeError] of [Headers]. *)
Theorem importCsv_request (file_text : string -> FileRead) config this orgId kbId
    tableName csvPath mode w :
  let org := TableService.resolveDefault this TableService.KorgId orgId in
  let kb := TableService.resolveDefault this TableService.KkbId kbId in
  let call :=
    TableService.importCsv platform ERROR_CODES server file_text config this orgId kbId
      tableName csvPath mode w in
  if missing org || missing kb || String.eqb tableName "" || String.eqb csvPath ""
  then exists message, call = Some (Throw (plain_Error message), w)
  else
    match file_text csvPath with
    | FileFails error => call = Some (Throw (ExnOther error), w)
    | FileText csvData =>
        exists outcome w',
          call = Some (outcome, w') /\
          (forall r, r ∈ requests_of (new_events w w') ->
             req_method r = Some "POST" /\
             req_url r =
               build_url config
                 ("orgs/" +:+ default "" org +:+ "/kbs/" +:+ default "" kb
                  +:+ "/tables/" +:+ tableName +:+ "/csv?mode="
                  +:+ match mode with
                      | Some Mappend => "append"
                      | Some Moverwrite | None => "overwrite"
                      end) /\
             req_body r = Some (BodyString csvData) /\
             Headers.get (req_headers r) "Content-Type" = Some "text/csv") /\
          if key_accepted config
          then (1 <= attempts w w' <= S (max_retries config))%nat /\
               ((exists done : unit, outcome = Return done) \/
                (exists error, outcome = Throw (ExnApi error)) \/
                outcome = Throw (ExnOther (conversion_error platform)))
          else w' = w /\
               outcome = Throw (ExnOther (header_error platform "Authorization"
                                            ("Bearer " +:+ apiKey config)))
    end.
Proof.
  cbv zeta. unfold TableService.importCsv.
  destruct (missing (TableService.resolveDefault this TableService.KorgId orgId));
    [cbn; eauto |].
  destruct (missing (TableService.resolveDefault this TableService.KkbId kbId));
    [cbn; eauto |].
  destruct (String.eqb tableName ""); [cbn; eauto |].
  destruct (String.eqb csvPath ""); [cbn; eauto |]. cbn [orb].
  destruct (file_text csvPath) as [csvData | error]; [| reflexivity].
  unfold postText.
  match goal with
  | |- context [makeRequest _ _ _ _ ?e ?o _ _] =>
      destruct (request_ends platform ERROR_CODES server config e o w)
        as (final & w' & Hreq & Hall & Hend)
  end.
  { unfold headers_accepted, key_accepted. cbn [headers forallb default id].
    rewrite accepts_text_csv. apply andb_true_r. }
  unfold request in Hreq. rewrite Hreq.
  exists (match final with
          | Return _ => Return tt
          | Throw error => Throw error
          end), w'.
  split; [destruct final; reflexivity |]. split.
  - intros r Hr. destruct (Hall r Hr) as [Hacc ->].
    cbn [build_request req_method req_body req_headers req_url default id].
    split; [reflexivity |]. split; [destruct mode as [[|] |]; reflexivity |].
    split; [reflexivity |].
    cbn [default id] in Hacc.
    rewrite (sent_headers_explicit_content_type config _ _ "text/csv" Hacc). reflexivity.
  - apply (service_ends (fun _ => tt) config w w' final Hend).
Qed.

End ServiceFacts.

(** ** The status of what a dispatch ends with *)

Section StatusFacts.

Context (platform : Platform) (ERROR_CODES : ErrorCodes)
  (server : nat -> FetchResult).

Lemma settle_status result :
  match settle platform ERROR_CODES result with
  | Return envelope =>
      ApiResponse.success envelope = true /\
      200 <= ApiResponse.statusCode envelope <= 299 /\
      exists response,
        result = FetchResolves response /\
        json response = JsonValue (ApiResponse.data envelope) /\
        status response = ApiResponse.statusCode envelope
  | Throw (ExnApi error) =>
      (TimbalApiError.statusCode error < 200 \/ 299 < TimbalApiError.statusCode error) /\
      ((TimbalApiError.statusCode error = 0 /\
        (TimbalApiError.code error = VStr (TIMEOUT_ERROR ERROR_CODES) \/
         TimbalApiError.code error = VStr (NETWORK_ERROR ERROR_CODES) \/
         TimbalApiError.code error = VStr (SERVER_ERROR ERROR_CODES))) \/
       (exists response,
           result = FetchResolves response /\ ok response = false /\
           TimbalApiError.throws (error_message response) = false /\
           error = response_error response))
  | Throw (ExnOther thrown) =>
      thrown = conversion_error platform /\
      exists v, String_throws v = true /\
                (result = FetchRejects (NonError v) \/
                 exists response, result = FetchResolves response /\
                                  ok response = true /\
                                  json response = JsonThrows (NonError v))
  end.
Proof.
  unfold settle.
  destruct result as [[ty name msg | v] | response].
  - cbn. destruct (String.eqb name "AbortError"), ty; cbn; (split; [lia | left; auto]).
  - cbn. unfold throw_unknown. cbn [Thrown_toString_throws].
    destruct (String_throws v) eqn:Hv; [split; [reflexivity | eauto] |].
    cbn. split; [lia | left; auto].
  - destruct (ok response) eqn:Hok.
    + unfold try_block. rewrite Hok. cbn [negb].
      destruct (json response) as [data | [ty name msg | v]] eqn:Hjson.
      * cbn. split; [reflexivity |]. unfold ok in Hok.
        apply andb_prop in Hok as [Hlo Hhi]. split; [lia |]. eauto.
      * cbn. destruct (String.eqb name "AbortError"), ty; cbn; (split; [lia | left; auto]).
      * unfold throw_unknown. cbn [Thrown_toString_throws].
        destruct (String_throws v) eqn:Hv; [split; [reflexivity | eauto 8] |].
        cbn. split; [lia | left; auto].
    + rewrite (try_block_not_ok platform response Hok).
      destruct (TimbalApiError.throws (error_message response)) eqn:Hmessage.
      * cbn. split; [lia | left; auto].
      * split.
        -- unfold response_error, TimbalApiError.new. cbn [TimbalApiError.statusCode].
           unfold ok in Hok. apply andb_false_iff in Hok as [H | H]; lia.
        -- right. eauto.
Qed.

(** A dispatch whose headers [Headers] accepts ends in one of three
    ways.  It returns an envelope with [success] true and the status,
    between 200 and 299, and the JSON body of the response of its last
    attempt.  Or it throws a [TimbalApiError] whose status is outside
    200-299: the error of a response that is not ok, or an error with
    status 0 and one of the three codes of the dispatcher.  Or, when the
    last attempt threw a value that is no [Error] and has no primitive
    value, it throws the [TypeError] of the conversion of that value.  A
    dispatch whose headers are refused throws the [TypeError] of [Headers]
    and makes no attempt. *)
Theorem dispatch_status config endpoint options w :
  exists outcome w',
    request platform ERROR_CODES server config endpoint options w = Some (outcome, w') /\
    if headers_accepted config options
    then
      let last := server (last_attempt server config w) in
      match outcome with
      | Return envelope =>
          ApiResponse.success envelope = true /\
          200 <= ApiResponse.statusCode envelope <= 299 /\
          exists response,
            last = FetchResolves response /\
            json response = JsonValue (ApiResponse.data envelope) /\
            status response = ApiResponse.statusCode envelope
      | Throw (ExnApi error) =>
          (TimbalApiError.statusCode error < 200 \/ 299 < TimbalApiError.statusCode error) /\
          ((TimbalApiError.statusCode error = 0 /\
            (TimbalApiError.code error = VStr (TIMEOUT_ERROR ERROR_CODES) \/
             TimbalApiError.code error = VStr (NETWORK_ERROR ERROR_CODES) \/
             TimbalApiError.code error = VStr (SERVER_ERROR ERROR_CODES))) \/
           (exists response,
               last = FetchResolves response /\ ok response = false /\
               TimbalApiError.throws (error_message response) = false /\
               error = response_error response))
      | Throw (ExnOther thrown) =>
          thrown = conversion_error platform /\
          exists v, String_throws v = true /\
                    (last = FetchRejects (NonError v) \/
                     exists response, last = FetchResolves response /\
                                      ok response = true /\
                                      json response = JsonThrows (NonError v))
      end
    else
      w' = w /\
      exists name value,
        Headers.accepts name value = false /\
        outcome = Throw (ExnOther (header_error platform name value)).
Proof.
  destruct (headers_accepted config options) eqn:Hacc.
  - destruct (request_outcome platform ERROR_CODES server config endpoint options w Hacc)
      as (w' & Hreq & _).
    eexists. exists w'. split; [exact Hreq |]. apply settle_status.
  - destruct (request_rejected platform ERROR_CODES server config endpoint options w Hacc)
      as (name & value & _ & Hno & Hreq).
    eexists. exists w. split; [exact Hreq |]. split; [reflexivity |]. eauto.
Qed.

(** With headers that [Headers] accepts and a number of retries that is
    zero or negative, a dispatch makes one attempt and never waits,
    whatever the attempt ends with. *)
Theorem dispatch_without_retries config endpoint options w :
  headers_accepted config options = true ->
  retryAttempts config <= 0 ->
  exists w',
    request platform ERROR_CODES server config endpoint options w =
      Some (settle platform ERROR_CODES (server (fetched w)), w') /\
    new_events w w' = [EvFetch (build_request config endpoint options)] /\
    attempts w w' = 1%nat.
Proof.
  intros Hacc Hretries. rewrite request_run by exact Hacc.
  assert (max_retries config = 0%nat) as -> by (unfold max_retries; lia).
  cbn [leading_retryable backoff_trace]. rewrite Nat.add_0_r.
  eexists. split; [reflexivity |]. unfold new_events, attempts. cbn [fetched log].
  split; [apply drop_app_length | lia].
Qed.

(** A failure that is not retried ends the dispatch at whatever attempt
    it occurs.  After [k] retryable failures, a response with a success
    status whose body is not JSON gives a [TimbalApiError] with status 0
    and the code [SERVER_ERROR], the [SyntaxError] in its message, and a
    response with a 4xx status whose message has a primitive value gives
    the [TimbalApiError] of that response; either way the dispatch has
    made [k + 1] attempts. *)
Theorem terminal_failure_ends_dispatch config endpoint options w k response :
  headers_accepted config options = true ->
  (k <= max_retries config)%nat ->
  (forall i, (i < k)%nat -> retryable (server (fetched w + i)%nat) = true) ->
  server (fetched w + k)%nat = FetchResolves response ->
  (forall message,
     ok response = true ->
     json response = JsonThrows (SyntaxError message) ->
     exists w',
       request platform ERROR_CODES server config endpoint options w =
         Some (Throw (ExnApi
                 {| TimbalApiError.message :=
                      "Unknown error occurred: " +:+
                      (if String.eqb message "" then "SyntaxError"
                       else "SyntaxError: " +:+ message);
                    TimbalApiError.statusCode := 0;
                    TimbalApiError.code := VStr (SERVER_ERROR ERROR_CODES);
                    TimbalApiError.details := VUndef |}), w') /\
       attempts w w' = S k) /\
  (400 <= status response <= 499 ->
   TimbalApiError.throws (error_message response) = false ->
   exists w',
     request platform ERROR_CODES server config endpoint options w =
       Some (Throw (ExnApi (response_error response)), w') /\
     attempts w w' = S k /\
     TimbalApiError.statusCode (response_error response) = status response /\
     TimbalApiError.message (response_error response) =
       ToString (ApiError.message (parseErrorResponse response)) /\
     TimbalApiError.code (response_error response) =
       ApiError.code (parseErrorResponse response) /\
     TimbalApiError.details (response_error response) =
       ApiError.details (parseErrorResponse response)).
Proof.
  intros Hacc Hk Hbefore Hserver. split.
  - intros message Hok Hjson.
    destruct (request_settles_after platform ERROR_CODES server config endpoint options w k
                Hacc Hk Hbefore) as (w' & Hreq & Hatt).
    { rewrite Hserver. unfold retryable. rewrite Hok, Hjson. reflexivity. }
    rewrite Hserver in Hreq. unfold settle, try_block in Hreq.
    rewrite Hok, Hjson in Hreq. exists w'. split; assumption.
  - intros Hstatus Hmessage.
    destruct (request_settles_after platform ERROR_CODES server config endpoint options w k
                Hacc Hk Hbefore) as (w' & Hreq & Hatt).
    { rewrite Hserver. apply retryable_client_error; assumption. }
    rewrite Hserver, settle_not_ok in Hreq
      by (try apply not_ok_of_status; try assumption; lia).
    exists w'. split; [exact Hreq |]. split; [exact Hatt |].
    split; [reflexivity |]. split; [| split; reflexivity].
    destruct (error_message_parsed response) as [Htruthy Hm].
    unfold response_error. fold (error_message response). rewrite Hm.
    apply truthy_message, Htruthy.
Qed.

(** When every attempt the configuration allows is answered with a status
    of 500 or more, the dispatch makes all of them, and what it throws
    comes from the last response: the [TimbalApiError] of that response
    when its message has a primitive value, and otherwise the network
    error made of the [TypeError] of the constructor. *)
Theorem server_errors_exhausted config endpoint options w (responses : nat -> Response) :
  headers_accepted config options = true ->
  (forall i, (i <= max_retries config)%nat ->
     server (fetched w + i)%nat = FetchResolves (responses i) /\
     500 <= status (responses i)) ->
  let last := responses (max_retries config) in
  exists w',
    request platform ERROR_CODES server config endpoint options w =
      Some (Throw (ExnApi
              (if TimbalApiError.throws (error_message last)
               then TimbalApiError.new
                      (VStr ("Network error: " +:+ cannot_convert platform)) 0
                      (VStr (NETWORK_ERROR ERROR_CODES)) VUndef
               else response_error last)), w') /\
    attempts w w' = S (max_retries config).
Proof.
  intros Hacc Hall last.
  destruct (request_exhausts platform ERROR_CODES server config endpoint options w Hacc)
    as (w' & Hreq & Hatt).
  { intros i Hi. destruct (Hall i Hi) as [-> Hstatus].
    apply retryable_server_error. lia. }
  destruct (Hall (max_retries config) ltac:(lia)) as [Hlast Hstatus].
  rewrite Hlast in Hreq. fold last in Hreq, Hstatus.
  exists w'. split; [| exact Hatt]. rewrite Hreq.
  destruct (TimbalApiError.throws (error_message last)) eqn:Hmessage.
  - rewrite settle_unconvertible by (try apply not_ok_of_status; try assumption; lia).
    reflexivity.
  - rewrite settle_not_ok by (try apply not_ok_of_status; try assumption; lia).
    reflexivity.
Qed.

End StatusFacts.

Lemma dispatch_without_retries_witness :
  exists w',
    request sample_platform sample_codes server_down single_shot_config "/orgs" sample_post World_init =
      Some (settle sample_platform sample_codes (server_down 0), w') /\
    new_events World_init w' = [EvFetch (build_request single_shot_config "/orgs" sample_post)] /\
    attempts World_init w' = 1%nat.
Proof.
  apply (dispatch_without_retries sample_platform sample_codes server_down single_shot_config "/orgs"
           sample_post World_init); [vm_compute; reflexivity | cbn; lia].
Defined.

Lemma terminal_failure_ends_dispatch_witness :
  (exists w',
      request sample_platform sample_codes server_down_then_bad_json sample_config "query"
        sample_post World_init =
        Some (Throw (ExnApi
                {| TimbalApiError.message :=
                     "Unknown error occurred: SyntaxError: Unexpected token < in JSON";
                   TimbalApiError.statusCode := 0;
                   TimbalApiError.code := VStr "SERVER_ERROR";
                   TimbalApiError.details := VUndef |}), w') /\
      attempts World_init w' = 2%nat) /\
  (exists w',
      request sample_platform sample_codes server_not_found sample_config "tables/users"
        sample_post World_init =
        Some (Throw (ExnApi {| TimbalApiError.message := "no such table";
                               TimbalApiError.statusCode := 404;
                               TimbalApiError.code := VStr "NOT_FOUND";
                               TimbalApiError.details := VObj [("table", VStr "users")] |}),
              w') /\
      attempts World_init w' = 1%nat).
Proof.
  assert (headers_accepted sample_config sample_post = true) as Hacc
    by (vm_compute; reflexivity).
  split.
  - apply (proj1 (terminal_failure_ends_dispatch sample_platform sample_codes
                    server_down_then_bad_json sample_config "query" sample_post World_init
                    1 response_bad_json Hacc ltac:(vm_compute; lia)
                    ltac:(intros [| i] Hi; [reflexivity | lia]) eq_refl)
             "Unexpected token < in JSON"); reflexivity.
  - destruct (proj2 (terminal_failure_ends_dispatch sample_platform sample_codes
                       server_not_found sample_config "tables/users" sample_post World_init
                       0 response_404 Hacc ltac:(vm_compute; lia)
                       ltac:(intros i Hi; lia) eq_refl))
      as (w' & Hreq & Hatt & _); [simpl; lia | reflexivity |].
    exists w'. split; [exact Hreq | exact Hatt].
Defined.

Lemma server_errors_exhausted_witness :
  (exists w',
      request sample_platform sample_codes server_down sample_config "query" sample_post
        World_init =
        Some (Throw (ExnApi {| TimbalApiError.message := "unavailable, attempt 3";
                               TimbalApiError.statusCode := 503;
                               TimbalApiError.code := VStr "SERVER_ERROR";
                               TimbalApiError.details := VUndef |}), w') /\
      attempts World_init w' = 4%nat) /\
  (exists w',
      request sample_platform sample_codes server_opaque_503 sample_config "query" sample_post
        World_init =
        Some (Throw (ExnApi {| TimbalApiError.message :=
                                 "Network error: Cannot convert object to primitive value";
                               TimbalApiError.statusCode := 0;
                               TimbalApiError.code := VStr "NETWORK_ERROR";
                               TimbalApiError.details := VUndef |}), w') /\
      attempts World_init w' = 4%nat).
Proof.
  assert (headers_accepted sample_config sample_post = true) as Hacc
    by (vm_compute; reflexivity).
  split.
  - apply (server_errors_exhausted sample_platform sample_codes server_down sample_config
             "query" sample_post World_init response_503 Hacc).
    intros i _. split; [reflexivity | simpl; lia].
  - apply (server_errors_exhausted sample_platform sample_codes server_opaque_503 sample_config
             "query" sample_post World_init (fun _ => response_503_opaque) Hacc).
    intros i _. split; [reflexivity | simpl; lia].
Defined.

Lemma runApp_request_witness :
  exists body outcome w',
    JSON_stringify
      (VObj [("input", VObj [("question", VStr "hi")]); ("group_id", VStr "g1")])
      = Some body /\
    AppService.runApp sample_platform sample_codes server_recovers sample_config (Some "10") None "assistant"
      (Some "") (VObj [("question", VStr "hi")]) (Some "g1") None World_init
      = Some (outcome, w') /\
    (forall r, r ∈ requests_of (new_events World_init w') ->
       req_method r = Some "POST" /\
       req_url r = build_url sample_config "orgs/10/apps/assistant/runs/collect" /\
       req_body r = Some (BodyString body) /\
       Headers.get (req_headers r) "Content-Type" = Some "application/json") /\
    (1 <= attempts World_init w' <= S (max_retries sample_config))%nat /\
    ((exists data, outcome = Return data) \/
     (exists error, outcome = Throw (ExnApi error)) \/
     outcome = Throw (ExnOther (conversion_error sample_platform))).
Proof.
  exact (runApp_request sample_platform sample_codes server_recovers sample_config (Some "10") None
           "assistant" (Some "") (VObj [("question", VStr "hi")]) (Some "g1") None
           World_init).
Defined.

Lemma createTable_request_witness :
  exists body outcome w',
    JSON_stringify
      (VObj [("name", VStr "users");
             ("columns", VArr [TableService.column_payload sample_column]);
             ("comment", VUndef)]) = Some body /\
    TableService.createTable sample_platform sample_codes server_recovers sample_config
      {| TableService.orgId := Some "10"; TableService.kbId := None |}
      None (Some "48") "users" [sample_column] Absent World_init = Some (outcome, w') /\
    (forall r, r ∈ requests_of (new_events World_init w') ->
       req_method r = Some "POST" /\
       req_url r = build_url sample_config "orgs/10/kbs/48/tables" /\
       req_body r = Some (BodyString body) /\
       Headers.get (req_headers r) "Content-Type" = Some "application/json") /\
    (1 <= attempts World_init w' <= S (max_retries sample_config))%nat /\
    ((exists done : unit, outcome = Return done) \/
     (exists error, outcome = Throw (ExnApi error)) \/
     outcome = Throw (ExnOther (conversion_error sample_platform))).
Proof.
  exact (createTable_request sample_platform sample_codes server_recovers sample_config
           {| TableService.orgId := Some "10"; TableService.kbId := None |}
           None (Some "48") "users" [sample_column] Absent World_init).
Defined.

Lemma importCsv_request_witness :
  (exists outcome w',
      TableService.importCsv sample_platform sample_codes server_recovers sample_files sample_config
        {| TableService.orgId := Some "10"; TableService.kbId := Some "48" |}
        None None "users" "data.csv" None World_init = Some (outcome, w') /\
      (forall r, r ∈ requests_of (new_events World_init w') ->
         req_method r = Some "POST" /\
         req_url r =
           build_url sample_config "orgs/10/kbs/48/tables/users/csv?mode=overwrite" /\
         req_body r = Some (BodyString "id,name") /\
         Headers.get (req_headers r) "Content-Type" = Some "text/csv") /\
      (1 <= attempts World_init w' <= S (max_retries sample_config))%nat /\
      ((exists done : unit, outcome = Return done) \/
       (exists error, outcome = Throw (ExnApi error)) \/
       outcome = Throw (ExnOther (conversion_error sample_platform)))) /\
  TableService.importCsv sample_platform sample_codes server_recovers sample_files sample_config
    {| TableService.orgId := Some "10"; TableService.kbId := Some "48" |}
    None None "users" "missing.csv" None World_init
    = Some (Throw (ExnOther (ErrorObject false "Error" "ENOENT")), World_init).
Proof.
  split.
  - exact (importCsv_request sample_platform sample_codes server_recovers sample_files sample_config
             {| TableService.orgId := Some "10"; TableService.kbId := Some "48" |}
             None None "users" "data.csv" None World_init).
  - exact (importCsv_request sample_platform sample_codes server_recovers sample_files sample_config
             {| TableService.orgId := Some "10"; TableService.kbId := Some "48" |}
             None None "users" "missing.csv" None World_init).
Defined.
